(** * Pydoop: job configuration and the Pipes protocol engine

    A shallow embedding of [pydoop/mapreduce/api.py] (class [JobConf]) and of
    [pydoop/mapreduce/pipes.py] (classes [BinaryProtocol], [CommandWriter],
    [Context], [Factory] and [run_task]), with the properties of the
    design document proved or refuted on it, and with further properties
    of the code -- whole sessions, error paths, [Context.emit], the typed
    getters -- proved besides.

    Conventions.
    - A Python [str] is a [string]; its characters are code points below
      256 and [strip]/[lower] follow Python 3 on that range.
    - A Python [dict] is an association list without duplicate keys.  The
      order of the list is a device of the model: the sources are written
      for Python 2 as well, where a [dict] has no order to speak of, and
      the statements about [JobConf] read a mapping through [get] and
      [mem] only.
    - An exception is a value of [exn]; a call that can raise returns a
      [result]. *)

From Stdlib Require Import List String Ascii Bool Arith ZArith Lia DecimalString.
Import ListNotations.
Local Open Scope string_scope.
Local Open Scope list_scope.
Local Open Scope nat_scope.

Set Implicit Arguments.

(* ===================================================================== *)
(** ** Exceptions *)
(* ===================================================================== *)

Inductive exn : Type :=
| PydoopError (msg : string)
| RuntimeError (msg : string)
| TypeError (msg : string)
| AttributeError (msg : string)
| StreamError                      (* the downlink stream has no more data *)
| UserError (msg : string)         (* raised by a user component *)
| StopIteration.

Inductive result (A : Type) : Type :=
| Ok (a : A)
| Raise (e : exn).
Arguments Ok {A} a.
Arguments Raise {A} e.

(* ===================================================================== *)
(** ** Python strings: [strip] and [lower] *)
(* ===================================================================== *)

Module PyStr.

(** [str.isspace] on one character. *)
Definition is_space (c : ascii) : bool :=
  let n := nat_of_ascii c in
  ((9 <=? n) && (n <=? 13)) || ((28 <=? n) && (n <=? 32))
  || (n =? 133) || (n =? 160).

(** [str.lower] on one character. *)
Definition lower_char (c : ascii) : ascii :=
  let n := nat_of_ascii c in
  if ((65 <=? n) && (n <=? 90))
     || ((192 <=? n) && (n <=? 222) && negb (n =? 215))
  then ascii_of_nat (n + 32) else c.

Fixpoint lower (s : string) : string :=
  match s with
  | EmptyString => EmptyString
  | String c r => String (lower_char c) (lower r)
  end.

Fixpoint lstrip (s : string) : string :=
  match s with
  | EmptyString => EmptyString
  | String c r => if is_space c then lstrip r else s
  end.

Fixpoint rstrip (s : string) : string :=
  match s with
  | EmptyString => EmptyString
  | String c r =>
      match rstrip r with
      | EmptyString => if is_space c then EmptyString else String c EmptyString
      | r' => String c r'
      end
  end.

Definition strip (s : string) : string := rstrip (lstrip s).

(** Every character of [s] is white space. *)
Fixpoint all_space (s : string) : bool :=
  match s with
  | EmptyString => true
  | String c r => is_space c && all_space r
  end.

(** [a] and [b] are the same word up to the case of their letters. *)
Fixpoint same_ignoring_case (a b : string) : bool :=
  match a, b with
  | EmptyString, EmptyString => true
  | String c a', String d b' =>
      Ascii.eqb (lower_char c) (lower_char d) && same_ignoring_case a' b'
  | _, _ => false
  end.

(** [s] is a case variant of [w] with white space around it. *)
Definition padded_variant (w s : string) : Prop :=
  exists l core r,
    s = String.append l (String.append core r) /\ all_space l = true /\ all_space r = true
    /\ same_ignoring_case core w = true.

End PyStr.

(* ===================================================================== *)
(** ** Python dictionaries with string keys *)
(* ===================================================================== *)

Module PyDict.

Definition t : Type := list (string * string).

Fixpoint get (k : string) (d : t) : option string :=
  match d with
  | [] => None
  | (k', v) :: r => if String.eqb k k' then Some v else get k r
  end.

Definition mem (k : string) (d : t) : bool :=
  match get k d with Some _ => true | None => false end.

(** [d[k] = v]: an existing key keeps its place, a new key goes last. *)
Fixpoint set (k v : string) (d : t) : t :=
  match d with
  | [] => [(k, v)]
  | (k', v') :: r =>
      if String.eqb k k' then (k', v) :: r else (k', v') :: set k v r
  end.

Definition keys (d : t) : list string := map fst d.

(** [dict(pairs)] *)
Definition of_pairs (ps : list (string * string)) : t :=
  fold_left (fun d kv => set (fst kv) (snd kv) d) ps [].

(** [d.update(e)] *)
Definition update (d e : t) : t :=
  fold_left (fun d kv => set (fst kv) (snd kv) d) e d.

End PyDict.

(* ===================================================================== *)
(** ** api.py: [JobConf] *)
(* ===================================================================== *)

(** [values[::2]] *)
Fixpoint slice_step2 (A : Type) (l : list A) : list A :=
  match l with
  | [] => []
  | x :: r => x :: match r with [] => [] | _ :: r' => slice_step2 r' end
  end.

(** [zip(values[::2], values[1::2])] *)
Definition flat_pairs (values : list string) : list (string * string) :=
  combine (slice_step2 values) (slice_step2 (tl values)).

Section JobConf.

(** [pydoop.utils.conversion_tables] is not part of the sources at hand:
    the two tables are parameters of the development. *)
Variables mrv1_to_mrv2 mrv2_to_mrv1 : PyDict.t.

(** One round of the loop of [__mirror_conf_across_versions]; [v] is
    [self[k]]. *)
Definition mirror_key (self ext : PyDict.t) (kv : string * string) : PyDict.t :=
  let (k, v) := kv in
  let ext1 :=
    match PyDict.get k mrv1_to_mrv2 with
    | Some k2 => if negb (PyDict.mem k2 self) then PyDict.set k2 v ext else ext
    | None => ext
    end in
  match PyDict.get k mrv2_to_mrv1 with
  | Some k1 => if negb (PyDict.mem k1 self) then PyDict.set k1 v ext1 else ext1
  | None => ext1
  end.

Definition mirror_ext (self : PyDict.t) : PyDict.t :=
  fold_left (mirror_key self) self [].

Definition mirror_conf_across_versions (self : PyDict.t) : PyDict.t :=
  PyDict.update self (mirror_ext self).

(** [JobConf.__init__(values)] for a flat sequence [values]. *)
Definition JobConf_init (values : list string) : result PyDict.t :=
  if Nat.odd (List.length values)
  then Raise (PydoopError "JobConf.__init__: len(values) should be even")
  else Ok (mirror_conf_across_versions (PyDict.of_pairs (flat_pairs values))).

End JobConf.

(** [JobConf.get_bool(key, default)].  [default] is a boolean or [None];
    a stored string never compares equal to either, so [v != default]
    holds exactly when the key is present. *)
Definition get_bool (self : PyDict.t) (key : string) (default : option bool)
  : result (option bool) :=
  match PyDict.get key self with
  | None => Ok default
  | Some s =>
      let v := PyStr.lower (PyStr.strip s) in
      if String.eqb v "true" then Ok (Some true)
      else if String.eqb v "false" then Ok (Some false)
      else match default with
           | None => Raise (RuntimeError (String.append "invalid bool string: " v))
           | Some d => Ok (Some d)
           end
  end.

(* ===================================================================== *)
(** ** pipes.py: data model *)
(* ===================================================================== *)

(** A key, a value or an input split as the stream primitives and the
    deserializer in force hand it over. *)
Inductive pyobj : Type :=
| PyNone
| PyBytes (b : string).

(** Downlink commands, with their fields already read off the stream. *)
Inductive command : Type :=
| START (v : Z)
| SET_JOB_CONF (items : list string)
| SET_INPUT_TYPES (key_type value_type : string)
| RUN_MAP (split : pyobj) (nred piped_input : Z)
| MAP_ITEM (k v : pyobj)
| RUN_REDUCE (part piped_output : Z)
| REDUCE_KEY (k : pyobj)
| REDUCE_VALUE (v : pyobj)
| CLOSE
| ABORT
| AUTHENTICATION_REQ (digest challenge : string)
| UNKNOWN (code : Z).

Definition opcode (c : command) : Z :=
  match c with
  | START _ => 0
  | SET_JOB_CONF _ => 1
  | SET_INPUT_TYPES _ _ => 2
  | RUN_MAP _ _ _ => 3
  | MAP_ITEM _ _ => 4
  | RUN_REDUCE _ _ => 5
  | REDUCE_KEY _ => 6
  | REDUCE_VALUE _ => 7
  | CLOSE => 8
  | ABORT => 9
  | AUTHENTICATION_REQ _ _ => 10
  | UNKNOWN code => code
  end%Z.

Definition PROTOCOL_VERSION : Z := 0.
Definition REDUCE_KEY_code : Z := 6.
Definition REDUCE_VALUE_code : Z := 7.
Definition CLOSE_code : Z := 8.
Definition AUTHENTICATION_REQ_code : Z := 10.

Definition IS_JAVA_RW : string := "mapreduce.pipes.isjavarecordwriter".

(** Uplink commands. *)
Inductive uplink_command : Type :=
| OUTPUT (k v : pyobj)
| PARTITIONED_OUTPUT (part : Z) (k v : pyobj)
| STATUS (msg : string)
| PROGRESS
| DONE
| REGISTER_COUNTER (id : Z) (group name : string)
| INCREMENT_COUNTER (id amount : Z)
| AUTHENTICATION_RESP (response_digest : string).

(** The deserializers [get_k] and [get_v] can be bound to. *)
Inductive deserializer : Type :=
| read_bytes
| get_LongWritable
| get_Text
| get_pickled.

Definition DESERIALIZERS (type_name : string) : option deserializer :=
  if String.eqb type_name "org.apache.hadoop.io.LongWritable" then Some get_LongWritable
  else if String.eqb type_name "org.apache.hadoop.io.Text" then Some get_Text
  else None.

(** *** User components

    A user component is described by what the engine observes of it:
    whether a call returns or raises and, for a reducer, how far it reads
    its values.  What a component sends up through [Context.emit] while
    it runs is not recorded: the [EvUp] events of a trace are the commands
    the engine writes itself, and no statement counts the others. *)

Inductive component : Type := CMapper | CRecordReader | CRecordWriter | CReducer.

Record Mapper : Type := {
  mapper_map : pyobj -> pyobj -> option exn;   (* [map(context)] at key, value *)
  mapper_close : option exn
}.

(** What a running [reduce] does next, given the key, the values it has
    been handed so far and whether its last read met the end of them. *)
Inductive reduce_action : Type :=
| RNext                 (* read one more of [context.values] *)
| RReturn
| RRaise (e : exn).

Record Reducer : Type := {
  reducer_reduce : pyobj -> list pyobj -> bool -> reduce_action;
  reducer_close : option exn
}.

Record RecordReader : Type := {
  reader_records : list (pyobj * pyobj);   (* what iterating the reader yields *)
  reader_close : option exn
}.

Record RecordWriter : Type := {
  writer_close : option exn
}.

Record Partitioner : Type := {
  partitioner_partition : pyobj -> Z -> Z
}.

(** [Factory]: the mapper class is required, the others may be [None]. *)
Record Factory : Type := {
  mclass : Mapper;
  rclass : option Reducer;
  cclass : option Reducer;
  pclass : option Partitioner;
  rwclass : option RecordWriter;
  rrclass : option RecordReader
}.

(** [Context].  [job_conf = None] is the plain empty [dict] that
    [__init__] stores, which has no [get_bool]. *)
Record Context : Type := {
  factory : Factory;
  job_conf : option PyDict.t;
  input_split : pyobj;
  key : pyobj;
  value : pyobj;
  mapper : option Mapper;
  partitioner : option Partitioner;
  record_reader : option RecordReader;
  record_writer : option RecordWriter;
  reducer : option Reducer;
  nred : option Z
}.

(** Everything the engine does that can be observed, oldest first. *)
Inductive event : Type :=
| EvRead (c : command)          (* a command is read off the downlink *)
| EvUp (u : uplink_command)     (* a command is written to the uplink *)
| EvMap (k v : pyobj)           (* [mapper.map(context)] is called *)
| EvReduce (k : pyobj)          (* [reducer.reduce(context)] is called *)
| EvValue (v : pyobj)           (* a value is handed to the running reducer *)
| EvClose (c : component).      (* the [close] of a component is called *)

(** [BinaryProtocol], its [CommandWriter] and its [Context]. *)
Record state : Type := {
  stream : list command;
  context : Context;
  private_encoding : bool;
  auto_serialize : bool;
  raw_split : bool;
  raw_k : bool;
  raw_v : bool;
  password : option string;
  auth_done : bool;
  get_k : deserializer;
  get_v : deserializer;
  trace : list event
}.

Definition with_stream (s : state) (x : list command) : state :=
  {| stream := x; context := context s; private_encoding := private_encoding s;
     auto_serialize := auto_serialize s; raw_split := raw_split s; raw_k := raw_k s;
     raw_v := raw_v s; password := password s; auth_done := auth_done s;
     get_k := get_k s; get_v := get_v s; trace := trace s |}.

Definition with_context (s : state) (x : Context) : state :=
  {| stream := stream s; context := x; private_encoding := private_encoding s;
     auto_serialize := auto_serialize s; raw_split := raw_split s; raw_k := raw_k s;
     raw_v := raw_v s; password := password s; auth_done := auth_done s;
     get_k := get_k s; get_v := get_v s; trace := trace s |}.

Definition with_private_encoding (s : state) (x : bool) : state :=
  {| stream := stream s; context := context s; private_encoding := x;
     auto_serialize := auto_serialize s; raw_split := raw_split s; raw_k := raw_k s;
     raw_v := raw_v s; password := password s; auth_done := auth_done s;
     get_k := get_k s; get_v := get_v s; trace := trace s |}.

Definition with_auth_done (s : state) (x : bool) : state :=
  {| stream := stream s; context := context s; private_encoding := private_encoding s;
     auto_serialize := auto_serialize s; raw_split := raw_split s; raw_k := raw_k s;
     raw_v := raw_v s; password := password s; auth_done := x;
     get_k := get_k s; get_v := get_v s; trace := trace s |}.

Definition with_get_k (s : state) (x : deserializer) : state :=
  {| stream := stream s; context := context s; private_encoding := private_encoding s;
     auto_serialize := auto_serialize s; raw_split := raw_split s; raw_k := raw_k s;
     raw_v := raw_v s; password := password s; auth_done := auth_done s;
     get_k := x; get_v := get_v s; trace := trace s |}.

Definition with_get_v (s : state) (x : deserializer) : state :=
  {| stream := stream s; context := context s; private_encoding := private_encoding s;
     auto_serialize := auto_serialize s; raw_split := raw_split s; raw_k := raw_k s;
     raw_v := raw_v s; password := password s; auth_done := auth_done s;
     get_k := get_k s; get_v := x; trace := trace s |}.

Definition with_trace (s : state) (x : list event) : state :=
  {| stream := stream s; context := context s; private_encoding := private_encoding s;
     auto_serialize := auto_serialize s; raw_split := raw_split s; raw_k := raw_k s;
     raw_v := raw_v s; password := password s; auth_done := auth_done s;
     get_k := get_k s; get_v := get_v s; trace := x |}.

Definition ctx_with_job_conf (c : Context) (x : option PyDict.t) : Context :=
  {| factory := factory c; job_conf := x; input_split := input_split c; key := key c;
     value := value c; mapper := mapper c; partitioner := partitioner c;
     record_reader := record_reader c; record_writer := record_writer c;
     reducer := reducer c; nred := nred c |}.

Definition ctx_with_input_split (c : Context) (x : pyobj) : Context :=
  {| factory := factory c; job_conf := job_conf c; input_split := x; key := key c;
     value := value c; mapper := mapper c; partitioner := partitioner c;
     record_reader := record_reader c; record_writer := record_writer c;
     reducer := reducer c; nred := nred c |}.

Definition ctx_with_key (c : Context) (x : pyobj) : Context :=
  {| factory := factory c; job_conf := job_conf c; input_split := input_split c; key := x;
     value := value c; mapper := mapper c; partitioner := partitioner c;
     record_reader := record_reader c; record_writer := record_writer c;
     reducer := reducer c; nred := nred c |}.

Definition ctx_with_value (c : Context) (x : pyobj) : Context :=
  {| factory := factory c; job_conf := job_conf c; input_split := input_split c; key := key c;
     value := x; mapper := mapper c; partitioner := partitioner c;
     record_reader := record_reader c; record_writer := record_writer c;
     reducer := reducer c; nred := nred c |}.

Definition ctx_with_mapper (c : Context) (x : option Mapper) : Context :=
  {| factory := factory c; job_conf := job_conf c; input_split := input_split c; key := key c;
     value := value c; mapper := x; partitioner := partitioner c;
     record_reader := record_reader c; record_writer := record_writer c;
     reducer := reducer c; nred := nred c |}.

Definition ctx_with_partitioner (c : Context) (x : option Partitioner) : Context :=
  {| factory := factory c; job_conf := job_conf c; input_split := input_split c; key := key c;
     value := value c; mapper := mapper c; partitioner := x;
     record_reader := record_reader c; record_writer := record_writer c;
     reducer := reducer c; nred := nred c |}.

Definition ctx_with_record_reader (c : Context) (x : option RecordReader) : Context :=
  {| factory := factory c; job_conf := job_conf c; input_split := input_split c; key := key c;
     value := value c; mapper := mapper c; partitioner := partitioner c;
     record_reader := x; record_writer := record_writer c;
     reducer := reducer c; nred := nred c |}.

Definition ctx_with_record_writer (c : Context) (x : option RecordWriter) : Context :=
  {| factory := factory c; job_conf := job_conf c; input_split := input_split c; key := key c;
     value := value c; mapper := mapper c; partitioner := partitioner c;
     record_reader := record_reader c; record_writer := x;
     reducer := reducer c; nred := nred c |}.

Definition ctx_with_reducer (c : Context) (x : option Reducer) : Context :=
  {| factory := factory c; job_conf := job_conf c; input_split := input_split c; key := key c;
     value := value c; mapper := mapper c; partitioner := partitioner c;
     record_reader := record_reader c; record_writer := record_writer c;
     reducer := x; nred := nred c |}.

Definition ctx_with_nred (c : Context) (x : option Z) : Context :=
  {| factory := factory c; job_conf := job_conf c; input_split := input_split c; key := key c;
     value := value c; mapper := mapper c; partitioner := partitioner c;
     record_reader := record_reader c; record_writer := record_writer c;
     reducer := reducer c; nred := x |}.

(** [Context.__init__(factory)] *)
Definition Context_init (f : Factory) : Context :=
  {| factory := f; job_conf := None; input_split := PyNone; key := PyNone;
     value := PyNone; mapper := None; partitioner := None; record_reader := None;
     record_writer := None; reducer := None; nred := None |}.

(* ===================================================================== *)
(** ** A state and exception monad for the engine *)
(* ===================================================================== *)

(** How a call ends: with a value, with an exception, or cut short because
    the step budget of the model ran out. *)
Inductive outcome (A : Type) : Type :=
| Val (a : A)
| Exc (e : exn)
| Timeout.
Arguments Val {A} a.
Arguments Exc {A} e.
Arguments Timeout {A}.

(** State changes survive an exception, as in Python. *)
Definition M (A : Type) : Type := state -> outcome A * state.

Definition ret {A} (a : A) : M A := fun s => (Val a, s).

Definition bind {A B} (c : M A) (k : A -> M B) : M B :=
  fun s =>
    match c s with
    | (Val a, s') => k a s'
    | (Exc e, s') => (Exc e, s')
    | (Timeout, s') => (Timeout, s')
    end.

Definition raise {A} (e : exn) : M A := fun s => (Exc e, s).
Definition timeout {A} : M A := fun s => (Timeout, s).
Definition gets {A} (f : state -> A) : M A := fun s => (Val (f s), s).
Definition modify (f : state -> state) : M unit := fun s => (Val tt, f s).

Declare Scope engine_scope.
Delimit Scope engine_scope with engine.
Notation "x <- c ;; k" := (bind c (fun x => k))
  (at level 61, c at next level, right associativity) : engine_scope.
Notation "c ;; k" := (bind c (fun _ => k))
  (at level 61, right associativity) : engine_scope.
Local Open Scope engine_scope.

(** [try: c finally: fin] *)
Definition try_finally {A} (c : M A) (fin : M unit) : M A :=
  fun s =>
    match c s with
    | (Timeout, s') => (Timeout, s')
    | (r, s') =>
        match fin s' with
        | (Val _, s'') => (r, s'')
        | (Exc e, s'') => (Exc e, s'')
        | (Timeout, s'') => (Timeout, s'')
        end
    end.

(** Run [c] as an iterator step: [StopIteration] becomes [None]. *)
Definition catch_stop {A} (c : M A) : M (option A) :=
  fun s =>
    match c s with
    | (Val a, s') => (Val (Some a), s')
    | (Exc StopIteration, s') => (Val None, s')
    | (Exc e, s') => (Exc e, s')
    | (Timeout, s') => (Timeout, s')
    end.

Definition lift {A} (r : result A) : M A :=
  match r with Ok a => ret a | Raise e => raise e end.

Definition log (e : event) : M unit :=
  modify (fun s => with_trace s (trace s ++ [e])).

Definition modify_context (f : Context -> Context) : M unit :=
  modify (fun s => with_context s (f (context s))).

(** A call into user code that returns or raises. *)
Definition user_call (r : option exn) : M unit :=
  match r with None => ret tt | Some e => raise e end.

(* ===================================================================== *)
(** ** pipes.py: [CommandWriter] and [Context] *)
(* ===================================================================== *)

Definition CommandWriter_authenticate (response_digest : string) : M unit :=
  log (EvUp (AUTHENTICATION_RESP response_digest)).

Definition CommandWriter_done : M unit := log (EvUp DONE).

Definition create_mapper : M (option Mapper) :=
  modify_context (fun c => ctx_with_mapper c (Some (mclass (factory c)))) ;;
  gets (fun s => mapper (context s)).

Definition create_partitioner : M (option Partitioner) :=
  modify_context (fun c => ctx_with_partitioner c (pclass (factory c))) ;;
  gets (fun s => partitioner (context s)).

Definition create_record_reader : M (option RecordReader) :=
  modify_context (fun c => ctx_with_record_reader c (rrclass (factory c))) ;;
  gets (fun s => record_reader (context s)).

Definition create_record_writer : M (option RecordWriter) :=
  modify_context (fun c => ctx_with_record_writer c (rwclass (factory c))) ;;
  gets (fun s => record_writer (context s)).

Definition create_reducer : M (option Reducer) :=
  modify_context (fun c => ctx_with_reducer c (rclass (factory c))) ;;
  gets (fun s => reducer (context s)).

(** [if self.x: self.x.close()] *)
Definition close_if_present {A} (tag : component) (x : option A)
    (close : A -> option exn) : M unit :=
  match x with
  | Some a => log (EvClose tag) ;; user_call (close a)
  | None => ret tt
  end.

(** [Context.close] *)
Definition Context_close : M unit :=
  try_finally
    (m <- gets (fun s => mapper (context s)) ;;
     close_if_present CMapper m mapper_close ;;
     rr <- gets (fun s => record_reader (context s)) ;;
     close_if_present CRecordReader rr reader_close ;;
     rw <- gets (fun s => record_writer (context s)) ;;
     close_if_present CRecordWriter rw writer_close ;;
     r <- gets (fun s => reducer (context s)) ;;
     close_if_present CReducer r reducer_close)
    CommandWriter_done.

(** The teardown order of [Context.close]. *)
Definition teardown_order : list component :=
  [CMapper; CRecordReader; CRecordWriter; CReducer].

(** What closing component [c] of the context would do: [None] when the
    component is absent, else whether its [close] raises. *)
Definition close_behaviour (ctx : Context) (c : component) : option (option exn) :=
  match c with
  | CMapper => option_map mapper_close (mapper ctx)
  | CRecordReader => option_map reader_close (record_reader ctx)
  | CRecordWriter => option_map writer_close (record_writer ctx)
  | CReducer => option_map reducer_close (reducer ctx)
  end.

Definition present (ctx : Context) (c : component) : bool :=
  match close_behaviour ctx c with Some _ => true | None => false end.

Definition close_raises (ctx : Context) (c : component) : bool :=
  match close_behaviour ctx c with Some (Some _) => true | _ => false end.

(* ===================================================================== *)
(** ** pipes.py: [BinaryProtocol] *)
(* ===================================================================== *)

(** What [JobConf(...)] is called with: a flat list, or a generator of
    slices. *)
Inductive pyiterable : Type :=
| PyList (l : list string)
| PyGenerator (chunks : list (list string)).

(** [t[i: i + 2] for i in range(0, n, 2)] *)
Fixpoint slices_of_two (t : list string) : list (list string) :=
  match t with
  | [] => []
  | [x] => [[x]]
  | x :: y :: r => [x; y] :: slices_of_two r
  end.

(** [cmd, payload] as [__next__] returns it to the reduce loop. *)
Definition item : Type := (Z * pyobj)%type.

(** [itertools.groupby(self, itemgetter(0))]: the key of the group being
    handed out, and the key and value of the item read last (the value is
    [None] once a grouper has handed it out). *)
Record groupby : Type := {
  tgtkey : option Z;
  currkey : option Z;
  currvalue : option item
}.

Definition groupby_init : groupby :=
  {| tgtkey := None; currkey := None; currvalue := None |}.

Definition truthy (z : Z) : bool := negb (z =? 0)%Z.

Definition is_some {A} (o : option A) : bool :=
  match o with Some _ => true | None => false end.

Section Engine.

(** [pydoop.mapreduce.string_utils.create_digest] and the tables of
    [pydoop.utils.conversion_tables] are not part of the sources at
    hand: they are parameters of the engine. *)
Variable create_digest : string -> string -> string.
Variables mrv1_to_mrv2 mrv2_to_mrv1 : PyDict.t.

(** [JobConf(values)]: [__init__] starts with [len(values)], which a
    generator does not have. *)
Definition JobConf_new (values : pyiterable) : result PyDict.t :=
  match values with
  | PyList l => JobConf_init mrv1_to_mrv2 mrv2_to_mrv1 l
  | PyGenerator _ => Raise (TypeError "object of type 'generator' has no len()")
  end.

(** [stream.read_vint()] and the fields of the command. *)
Definition read_command : M command :=
  fun s =>
    match stream s with
    | [] => (Exc StreamError, s)
    | c :: rest =>
        (Val c, with_trace (with_stream s rest) (trace s ++ [EvRead c]))
    end.

Definition read_job_conf (items : list string) : M PyDict.t :=
  if Nat.odd (List.length items)
  then raise (RuntimeError "number of items is not even")
  else lift (JobConf_new (PyGenerator (slices_of_two items))).

Definition verify_digest (digest challenge : string) : M unit :=
  pw <- gets password ;;
  match pw with
  | Some p =>
      if negb (String.eqb (create_digest p challenge) digest)
      then raise (RuntimeError "server failed to authenticate")
      else CommandWriter_authenticate (create_digest p digest)
  | None => ret tt
  end ;;
  modify (fun s => with_auth_done s true).

Definition setup_record_writer (piped_output : bool) : M unit :=
  writer <- create_record_writer ;;
  if is_some writer && piped_output
  then raise (RuntimeError "record writer defined when not needed")
  else if negb (is_some writer) && negb piped_output
  then raise (RuntimeError "record writer not defined")
  else ret tt.

(** [self.context.job_conf.get_bool(IS_JAVA_RW)] *)
Definition job_conf_get_bool (k : string) : M (option bool) :=
  jc <- gets (fun s => job_conf (context s)) ;;
  match jc with
  | None => raise (AttributeError "'dict' object has no attribute 'get_bool'")
  | Some d => lift (get_bool d k None)
  end.

(** [self.context.mapper.map(self.context)] *)
Definition call_map : M unit :=
  m <- gets (fun s => mapper (context s)) ;;
  match m with
  | None => raise (AttributeError "'NoneType' object has no attribute 'map'")
  | Some m =>
      k <- gets (fun s => key (context s)) ;;
      v <- gets (fun s => value (context s)) ;;
      log (EvMap k v) ;;
      user_call (mapper_map m k v)
  end.

(** [for self.context.key, self.context.value in reader: ...map(...)] *)
Fixpoint map_records (records : list (pyobj * pyobj)) : M unit :=
  match records with
  | [] => ret tt
  | (k, v) :: rest =>
      modify_context (fun c => ctx_with_value (ctx_with_key c k) v) ;;
      call_map ;;
      map_records rest
  end.

(** [try: self.context.close() finally: raise StopIteration] *)
Definition close_and_stop : M unit :=
  try_finally Context_close (raise StopIteration).

Definition set_input_types (key_type value_type : string) : M unit :=
  rk <- gets raw_k ;;
  (if negb rk
   then match DESERIALIZERS key_type with
        | Some d => modify (fun s => with_get_k s d)
        | None => ret tt
        end
   else ret tt) ;;
  rv <- gets raw_v ;;
  if negb rv
  then match DESERIALIZERS value_type with
       | Some d => modify (fun s => with_get_v s d)
       | None => ret tt
       end
  else ret tt.

(** *** The reduce loop: [for cmd, subs in groupby(self, itemgetter(0))] *)

Section Grouping.

(** [next(self)], the protocol's own [__next__]. *)
Variable next_self : M (option item).

(** Read one more item and take its key.  [None]: the iterator is
    exhausted. *)
Definition groupby_step (g : groupby) : M (option groupby) :=
  o <- catch_stop next_self ;;
  match o with
  | None => ret None
  | Some None => raise (TypeError "'NoneType' object is not subscriptable")
  | Some (Some it) =>
      ret (Some {| tgtkey := tgtkey g; currkey := Some (fst it);
                   currvalue := Some it |})
  end.

(** [groupby.__next__]: skip what is left of the current group, then
    hand out the key of the next one.  [None]: the iterator is
    exhausted. *)
Fixpoint groupby_next (n : nat) (g : groupby) : M (option (Z * groupby)) :=
  let skip :=
    match n with
    | O => timeout
    | S n' =>
        o <- groupby_step g ;;
        match o with
        | None => ret None
        | Some g' => groupby_next n' g'
        end
    end in
  let hand_out (ck : Z) :=
    ret (Some (ck, {| tgtkey := Some ck; currkey := currkey g;
                      currvalue := currvalue g |})) in
  match currkey g with
  | None => skip
  | Some ck =>
      match tgtkey g with
      | None => hand_out ck
      | Some tk => if (tk =? ck)%Z then skip else hand_out ck
      end
  end.

(** [next(subs)] on the grouper of the current group.  [None]: the
    group is over. *)
Definition grouper_next (g : groupby) : M (option item * groupby) :=
  o <- match currvalue g with
       | Some _ => ret (Some g)
       | None => groupby_step g
       end ;;
  match o with
  | None => ret (None, g)
  | Some g' =>
      match tgtkey g', currkey g', currvalue g' with
      | Some tk, Some ck, Some it =>
          if (tk =? ck)%Z
          then ret (Some it, {| tgtkey := tgtkey g'; currkey := currkey g';
                                currvalue := None |})
          else ret (None, g')
      | _, _, _ => ret (None, g')
      end
  end.

(** [self.context.reducer.reduce(self.context)] with
    [self.context.values = (v for _, v in subs)]: the reducer reads
    values one at a time; [ended] tells that the generator is
    exhausted. *)
Fixpoint run_reduce (n : nat) (r : Reducer) (k : pyobj) (seen : list pyobj)
    (ended : bool) (g : groupby) : M groupby :=
  match reducer_reduce r k seen ended with
  | RReturn => ret g
  | RRaise e => raise e
  | RNext =>
      match n with
      | O => timeout
      | S n' =>
          if ended then run_reduce n' r k seen true g
          else
            og <- grouper_next g ;;
            match fst og with
            | None => run_reduce n' r k seen true (snd og)
            | Some it =>
                log (EvValue (snd it)) ;;
                run_reduce n' r k (seen ++ [snd it]) false (snd og)
            end
      end
  end.

(** The body of the loop for the group of key [cmd]. *)
Definition reduce_body (n : nat) (cmd : Z) (g : groupby) : M groupby :=
  g1 <- (if (cmd =? REDUCE_KEY_code)%Z
         then og <- grouper_next g ;;
              match fst og with
              | None => raise StopIteration
              | Some it =>
                  modify_context (fun c => ctx_with_key c (snd it)) ;;
                  ret (snd og)
              end
         else ret g) ;;
  g2 <- (if (cmd =? REDUCE_VALUE_code)%Z
         then r <- gets (fun s => reducer (context s)) ;;
              match r with
              | None =>
                  raise (AttributeError "'NoneType' object has no attribute 'reduce'")
              | Some r =>
                  k <- gets (fun s => key (context s)) ;;
                  log (EvReduce k) ;;
                  run_reduce n r k [] false g1
              end
         else ret g1) ;;
  (if (cmd =? CLOSE_code)%Z then close_and_stop else ret tt) ;;
  ret g2.

Fixpoint reduce_loop (n : nat) (g : groupby) : M unit :=
  match n with
  | O => timeout
  | S n' =>
      o <- groupby_next n' g ;;
      match o with
      | None => ret tt
      | Some (cmd, g1) => g2 <- reduce_body n' cmd g1 ;; reduce_loop n' g2
      end
  end.

End Grouping.

(** *** [__next__] *)

(** [RUN_MAP], from the checks on the record reader on. *)
Definition run_map_with (reader : option RecordReader) (nred piped_input : Z)
  : M (option item) :=
  if is_some reader && truthy piped_input
  then raise (RuntimeError "record reader defined when not needed")
  else if negb (is_some reader) && negb (truthy piped_input)
  then raise (RuntimeError "record reader not defined")
  else
    (if (nred <? 1)%Z
     then modify (fun s => with_private_encoding s false) ;;
          piped_output <- job_conf_get_bool IS_JAVA_RW ;;
          setup_record_writer
            (match piped_output with Some b => b | None => false end)
     else ret tt) ;;
    modify_context (fun c => ctx_with_nred c (Some nred)) ;;
    create_mapper ;;
    create_partitioner ;;
    match reader with
    | Some r =>
        map_records (reader_records r) ;;
        (* no more commands from upstream, not even CLOSE *)
        close_and_stop ;;
        ret None
    | None => ret None
    end.

Definition run_map (split : pyobj) (nred piped_input : Z) : M (option item) :=
  modify_context (fun c => ctx_with_input_split c split) ;;
  reader <- create_record_reader ;;
  run_map_with reader nred piped_input.

Definition run_reduce_task (next_self : M (option item)) (n : nat)
    (part piped_output : Z) : M (option item) :=
  create_reducer ;;
  setup_record_writer (truthy piped_output) ;;
  pe <- gets private_encoding ;;
  (if pe
   then modify (fun s => with_get_k s get_pickled) ;;
        modify (fun s => with_get_v s get_pickled)
   else ret tt) ;;
  reduce_loop next_self n groupby_init ;;
  ret None.

(** [BinaryProtocol.__next__].  [n] bounds the number of nested reads
    and loop rounds. *)
Fixpoint next_ (n : nat) : M (option item) :=
  match n with
  | O => timeout
  | S n' =>
      cmd <- read_command ;;
      authenticated <- gets auth_done ;;
      if negb (opcode cmd =? AUTHENTICATION_REQ_code)%Z && negb authenticated
      then raise (RuntimeError "received before authentication")
      else
        match cmd with
        | AUTHENTICATION_REQ digest challenge =>
            verify_digest digest challenge ;; ret None
        | START v =>
            if negb (v =? PROTOCOL_VERSION)%Z
            then raise (RuntimeError "Unknown protocol id")
            else ret None
        | SET_JOB_CONF items =>
            jc <- read_job_conf items ;;
            modify_context (fun c => ctx_with_job_conf c (Some jc)) ;;
            ret None
        | RUN_MAP split nred piped_input => run_map split nred piped_input
        | SET_INPUT_TYPES key_type value_type =>
            set_input_types key_type value_type ;; ret None
        | MAP_ITEM k v =>
            modify_context (fun c => ctx_with_value (ctx_with_key c k) v) ;;
            call_map ;;
            ret None
        | RUN_REDUCE part piped_output =>
            run_reduce_task (next_ n') n' part piped_output
        | REDUCE_KEY k => ret (Some (REDUCE_KEY_code, k))
        | REDUCE_VALUE v => ret (Some (REDUCE_VALUE_code, v))
        | ABORT => raise (RuntimeError "received ABORT command")
        | CLOSE =>
            m <- gets (fun s => mapper (context s)) ;;
            if is_some m
            then close_and_stop ;; ret None
            else ret (Some (CLOSE_code, PyNone))
        | UNKNOWN _ => raise (RuntimeError "unknown command")
        end
  end.

(** *** [run_task] *)

(** The keyword arguments of [run_task]. *)
Record kwargs : Type := {
  kw_raw_split : bool;
  kw_raw_keys : bool;
  kw_raw_values : bool;
  kw_private_encoding : bool;
  kw_auto_serialize : bool
}.

Definition default_kwargs : kwargs :=
  {| kw_raw_split := false; kw_raw_keys := false; kw_raw_values := false;
     kw_private_encoding := true; kw_auto_serialize := true |}.

(** [BinaryProtocol.__init__]; [pw] is what [get_password()] returns. *)
Definition BinaryProtocol_init (istream : list command) (ctx : Context)
    (kw : kwargs) (pw : option string) : state :=
  {| stream := istream; context := ctx;
     private_encoding := kw_private_encoding kw;
     auto_serialize := kw_auto_serialize kw;
     raw_split := kw_raw_split kw; raw_k := kw_raw_keys kw;
     raw_v := kw_raw_values kw; password := pw; auth_done := false;
     get_k := read_bytes; get_v := read_bytes; trace := [] |}.

(** [for _ in connection.downlink: pass] *)
Fixpoint downlink_loop (n : nat) : M unit :=
  match n with
  | O => timeout
  | S n' =>
      o <- catch_stop (next_ n') ;;
      match o with
      | None => ret tt
      | Some _ => downlink_loop n'
      end
  end.

Definition run_task (n : nat) (f : Factory) (kw : kwargs) (pw : option string)
    (istream : list command) : outcome unit * state :=
  downlink_loop n (BinaryProtocol_init istream (Context_init f) kw pw).

End Engine.

(* ===================================================================== *)
(** ** pipes.py: [Context.emit] *)
(* ===================================================================== *)

Definition CommandWriter_output (k v : pyobj) : M unit := log (EvUp (OUTPUT k v)).

Definition CommandWriter_partitioned_output (part : Z) (k v : pyobj) : M unit :=
  log (EvUp (PARTITIONED_OUTPUT part k v)).

Section Emit.

(** [pickle.dumps(x, HIGHEST_PROTOCOL)] and [as_text(x).encode("utf-8")]
    are library calls, [record_writer.emit] and a partitioner handed
    [None] for the number of reducers are user code: parameters. *)
Variable dumps : pyobj -> pyobj.
Variable encode_text : pyobj -> pyobj.
Variable writer_emit : RecordWriter -> pyobj -> pyobj -> option exn.
Variable partition_without_count : Partitioner -> pyobj -> result Z.

(** [Context.emit] *)
Definition Context_emit (key value : pyobj) : M unit :=
  rw <- gets (fun s => record_writer (context s)) ;;
  match rw with
  | Some w => user_call (writer_emit w key value)
  | None =>
      m <- gets (fun s => mapper (context s)) ;;
      pe <- gets private_encoding ;;
      au <- gets auto_serialize ;;
      let kv :=
        if is_some m && pe then (dumps key, dumps value)
        else if au then (encode_text key, encode_text value)
        else (key, value) in
      p <- gets (fun s => partitioner (context s)) ;;
      match p with
      | Some p =>
          n <- gets (fun s => nred (context s)) ;;
          part <- match n with
                  | Some n => ret (partitioner_partition p (fst kv) n)
                  | None => lift (partition_without_count p (fst kv))
                  end ;;
          CommandWriter_partitioned_output part (fst kv) (snd kv)
      | None => CommandWriter_output (fst kv) (snd kv)
      end
  end.

End Emit.

(* ===================================================================== *)
(** ** api.py and pipes.py: typed getters and work files *)
(* ===================================================================== *)

(** The exceptions of the getters: those of [exn] and two more. *)
Inductive getter_exn : Type :=
| Known (e : exn)
| ValueError (msg : string)
| KeyError (key : string).

Inductive getter_result (A : Type) : Type :=
| Got (a : A)
| Failed (e : getter_exn).
Arguments Got {A} a.
Arguments Failed {A} e.

(** What [int(...)] is applied to in [get_int]: a stored string, or the
    default, which is [None], an [int] or a [str]. *)
Inductive int_argument : Type :=
| IntNone
| IntOfInt (z : Z)
| IntOfStr (s : string).

Definition JOB_OUTPUT_DIR : string := "mapreduce.output.fileoutputformat.outputdir".
Definition TASK_OUTPUT_DIR : string := "mapreduce.task.output.dir".
Definition TASK_PARTITION : string := "mapreduce.task.partition".

(** ["%05d" % z] *)
Definition format_05d (z : Z) : string :=
  let digits := NilZero.string_of_uint (N.to_uint (Z.abs_N z)) in
  let sign := if (z <? 0)%Z then "-" else "" in
  let width := 5 - String.length sign in
  String.append sign
    (String.append (string_of_list_ascii
                      (repeat "0"%char (width - String.length digits)))
                   digits).

Section Getters.

(** Python's [int] on a string is a parameter: [None] stands for its
    [ValueError]. *)
Variable int_of_str : string -> option Z.

(** [int(x)] *)
Definition py_int (x : int_argument) : getter_result Z :=
  match x with
  | IntNone => Failed (Known (TypeError "int() argument must be a string or a number"))
  | IntOfInt z => Got z
  | IntOfStr s =>
      match int_of_str s with
      | Some z => Got z
      | None => Failed (ValueError "invalid literal for int() with base 10")
      end
  end.

(** [JobConf.get_int(key, default)] *)
Definition JobConf_get_int (self : PyDict.t) (key : string) (default : int_argument)
  : getter_result Z :=
  py_int (match PyDict.get key self with
          | Some s => IntOfStr s
          | None => default
          end).

(** [context.job_conf] as a dictionary: the [JobConf], or the empty
    [dict] of [Context.__init__]. *)
Definition job_conf_dict (ctx : Context) : PyDict.t :=
  match job_conf ctx with Some d => d | None => [] end.

(** [Context.get_output_dir] *)
Definition Context_get_output_dir (ctx : Context) : getter_result string :=
  match PyDict.get JOB_OUTPUT_DIR (job_conf_dict ctx) with
  | Some s => Got s
  | None => Failed (KeyError JOB_OUTPUT_DIR)
  end.

(** [Context.get_work_path] *)
Definition Context_get_work_path (ctx : Context) : getter_result string :=
  match PyDict.get TASK_OUTPUT_DIR (job_conf_dict ctx) with
  | Some s => Got s
  | None => Failed (Known (RuntimeError "'mapreduce.task.output.dir' not set"))
  end.

(** [Context.get_task_partition]: [get_int] is a method of [JobConf],
    not of [dict]; what it returns is an [int], which the caller
    compares with [None]. *)
Definition Context_get_task_partition (ctx : Context) : getter_result (option Z) :=
  match job_conf ctx with
  | None => Failed (Known (AttributeError "'dict' object has no attribute 'get_int'"))
  | Some d =>
      match JobConf_get_int d TASK_PARTITION IntNone with
      | Got z => Got (Some z)
      | Failed e => Failed e
      end
  end.

(** [Context.get_default_work_file(extension)] *)
Definition Context_get_default_work_file (ctx : Context) (extension : string)
  : getter_result string :=
  match Context_get_task_partition ctx with
  | Failed e => Failed e
  | Got None => Failed (Known (RuntimeError "'mapreduce.task.partition' not set"))
  | Got (Some partition) =>
      let base :=
        match PyDict.get "mapreduce.output.basename" (job_conf_dict ctx) with
        | Some b => b
        | None => "part"
        end in
      let task_type := if is_some (mapper ctx) then "m" else "r" in
      match Context_get_work_path ctx with
      | Failed e => Failed e
      | Got work_path =>
          Got (String.append work_path
                 (String.append "/"
                    (String.append base
                       (String.append "-"
                          (String.append task_type
                             (String.append "-"
                                (String.append (format_05d partition) extension)))))))
      end
  end.

End Getters.

(* ===================================================================== *)
(** ** Vocabulary of the statements *)
(* ===================================================================== *)

(** The flat sequence [k1, v1, k2, v2, ...] of a list of pairs. *)
Fixpoint flatten (ps : list (string * string)) : list string :=
  match ps with
  | [] => []
  | (k, v) :: r => k :: v :: flatten r
  end.

(** What [__mirror_conf_across_versions] may add for a stored pair
    [(k0, v)]: the alias of [k0] in either table, bound to [v], when that
    alias is not stored itself. *)
Definition alias_entry (mrv1_to_mrv2 mrv2_to_mrv1 self : PyDict.t) (k v : string) : Prop :=
  ~ In k (PyDict.keys self)
  /\ exists k0, In (k0, v) self
       /\ (PyDict.get k0 mrv1_to_mrv2 = Some k \/ PyDict.get k0 mrv2_to_mrv1 = Some k).

(** The invariant of the loop of [__mirror_conf_across_versions]. *)
Definition ext_ok (mrv1_to_mrv2 mrv2_to_mrv1 self ext : PyDict.t) : Prop :=
  NoDup (PyDict.keys ext)
  /\ forall k v, In (k, v) ext -> alias_entry mrv1_to_mrv2 mrv2_to_mrv1 self k v.

(** A one-entry pair of tables in the shape of [mrv1_to_mrv2] and
    [mrv2_to_mrv1], for concrete runs. *)
Definition sample_mrv1_to_mrv2 : PyDict.t := [("mapred.job.name", "mapreduce.job.name")].
Definition sample_mrv2_to_mrv1 : PyDict.t := [("mapreduce.job.name", "mapred.job.name")].

(** The components a teardown over [order] closes: the present ones, in
    order, up to and including the first whose [close] raises. *)
Fixpoint closed_components (ctx : Context) (order : list component) : list component :=
  match order with
  | [] => []
  | c :: rest =>
      match close_behaviour ctx c with
      | None => closed_components ctx rest
      | Some None => c :: closed_components ctx rest
      | Some (Some _) => [c]
      end
  end.

(** The exception that teardown meets, if any. *)
Fixpoint teardown_error (ctx : Context) (order : list component) : option exn :=
  match order with
  | [] => None
  | c :: rest =>
      match close_behaviour ctx c with
      | Some (Some e) => Some e
      | _ => teardown_error ctx rest
      end
  end.

Definition is_done (e : event) : bool :=
  match e with EvUp DONE => true | _ => false end.

Definition is_close (e : event) : bool :=
  match e with EvClose _ => true | _ => false end.

Definition is_read (e : event) : bool :=
  match e with EvRead _ => true | _ => false end.

(** The number of [DONE] commands a trace writes to the uplink. *)
Definition count_done (tr : list event) : nat := List.length (filter is_done tr).

(** The [map] calls of a trace, in order. *)
Fixpoint map_calls (tr : list event) : list (pyobj * pyobj) :=
  match tr with
  | [] => []
  | EvMap k v :: r => (k, v) :: map_calls r
  | _ :: r => map_calls r
  end.

(** The values handed out until the next [reduce] call begins. *)
Fixpoint values_handed (tr : list event) : list pyobj :=
  match tr with
  | [] => []
  | EvReduce _ :: _ => []
  | EvValue v :: r => v :: values_handed r
  | _ :: r => values_handed r
  end.

(** The [reduce] calls of a trace, in order, each with its key and the
    values it was handed. *)
Fixpoint reduce_calls (tr : list event) : list (pyobj * list pyobj) :=
  match tr with
  | [] => []
  | EvReduce k :: r => (k, values_handed r) :: reduce_calls r
  | _ :: r => reduce_calls r
  end.

(** A reducer that reads its values to the end and returns, as
    [for v in context.values] does. *)
Definition reads_all_values (r : Reducer) : Prop :=
  forall k seen,
    reducer_reduce r k seen false = RNext /\ reducer_reduce r k seen true = RReturn.

(** The state once command [c] has been read off a stream that goes on
    with [rest]. *)
Definition after_read (st : state) (c : command) (rest : list command) : state :=
  with_trace (with_stream st rest) (trace st ++ [EvRead c]).

(** Two contexts hold the same user components. *)
Definition same_components (c c' : Context) : Prop :=
  mapper c' = mapper c /\ record_reader c' = record_reader c
  /\ record_writer c' = record_writer c /\ reducer c' = reducer c.

(** The record-writer check of a map-only job goes through: the job
    configuration is a [JobConf], its [isjavarecordwriter] entry reads as a
    boolean (or is absent), and a record writer class is supplied exactly
    when the output is not host-piped. *)
Definition map_only_writer_ok (ctx : Context) : Prop :=
  exists jc b,
    job_conf ctx = Some jc
    /\ get_bool jc IS_JAVA_RW None = Ok b
    /\ is_some (rwclass (factory ctx))
       = negb (match b with Some x => x | None => false end).

(** The state in which [RUN_REDUCE] enters its loop: reducer and record
    writer created, deserializers switched when private encoding is on. *)
Definition reduce_ready (st : state) : state :=
  let f := factory (context st) in
  let s1 := with_context st
              (ctx_with_record_writer (ctx_with_reducer (context st) (rclass f))
                                      (rwclass f)) in
  if private_encoding st
  then with_get_v (with_get_k s1 get_pickled) get_pickled
  else s1.

(** The state in which [RUN_MAP] is done creating components: the split
    and [nred] are stored, record reader, mapper and partitioner are
    created and, for a map-only job, so is the record writer, with private
    encoding switched off. *)
Definition map_ready (st : state) (split : pyobj) (n : Z) : state :=
  let c := context st in
  let f := factory c in
  let map_only := (n <? 1)%Z in
  let c' :=
    {| factory := f; job_conf := job_conf c; input_split := split;
       key := key c; value := value c;
       mapper := Some (mclass f); partitioner := pclass f;
       record_reader := rrclass f;
       record_writer := if map_only then rwclass f else record_writer c;
       reducer := reducer c; nred := Some n |} in
  let st' := with_context st c' in
  if map_only then with_private_encoding st' false else st'.

(** The [map] call of the trace for a record. *)
Definition EvMap_of (kv : pyobj * pyobj) : event := EvMap (fst kv) (snd kv).

(** A reducer as [for v in context.values: pass] and a factory around it,
    for concrete runs. *)
Definition sample_mapper : Mapper :=
  {| mapper_map := fun _ _ => None; mapper_close := None |}.

Definition sample_reducer : Reducer :=
  {| reducer_reduce := fun _ _ ended => if ended then RReturn else RNext;
     reducer_close := None |}.

Definition sample_partitioner : Partitioner :=
  {| partitioner_partition := fun _ n => 0%Z |}.

Definition sample_reader : RecordReader :=
  {| reader_records := [(PyBytes "k1", PyBytes "v1"); (PyBytes "k2", PyBytes "v2")];
     reader_close := None |}.

Definition sample_factory : Factory :=
  {| mclass := sample_mapper; rclass := Some sample_reducer; cclass := None;
     pclass := Some sample_partitioner; rwclass := None; rrclass := None |}.

Definition sample_factory_reader : Factory :=
  {| mclass := sample_mapper; rclass := None; cclass := None;
     pclass := None; rwclass := None; rrclass := Some sample_reader |}.

(** A stand-in for [create_digest], for concrete runs. *)
Definition sample_digest (secret msg : string) : string :=
  String.append secret (String.append ":" msg).

Definition is_runtime_error {A} (r : outcome A) : Prop :=
  exists msg, r = Exc (RuntimeError msg).

(** The events [evs] a call added and its outcome [r] agree with "ABORT is
    fatal at once": if [ABORT] was read, it was read once, as the last
    event, and the call ended in a [RuntimeError]. *)
Definition halts_at_abort {A} (evs : list event) (r : outcome A) : Prop :=
  In (EvRead ABORT) evs ->
  (exists pre, evs = pre ++ [EvRead ABORT] /\ ~ In (EvRead ABORT) pre)
  /\ is_runtime_error r.

Definition abort_safe {A} (c : M A) : Prop :=
  forall s r s', c s = (r, s') ->
    exists evs, trace s' = trace s ++ evs /\ halts_at_abort evs r.

(** A call that leaves the factory alone and adds to the trace only
    events that pass [ok]. *)
Definition adds_only {A} (ok : event -> bool) (c : M A) : Prop :=
  forall s r s', c s = (r, s') ->
    exists evs,
      trace s' = trace s ++ evs
      /\ factory (context s') = factory (context s)
      /\ forall e, In e evs -> ok e = true.

Definition not_read (e : event) : bool := negb (is_read e).

Definition not_teardown (e : event) : bool := negb (is_done e) && negb (is_close e).

(** No [DONE] is written and no [close] is called in [evs]. *)
Definition no_teardown (evs : list event) : Prop :=
  forall e, In e evs -> not_teardown e = true.

(** [CLOSE] has been read. *)
Definition close_read (s : state) : Prop := In (EvRead CLOSE) (trace s).

(** What a call does about teardown, when the input is host-piped (no
    record reader class): it tears nothing down unless [CLOSE] has been
    read by then.  [pre] and [post] name the conditions under which
    [CLOSE] is known to have been read before and after the call. *)
Definition teardown_guarded {A} (pre : Prop) (c : M A) (post : A -> Prop) : Prop :=
  forall s r s', c s = (r, s') ->
    exists evs,
      trace s' = trace s ++ evs
      /\ factory (context s') = factory (context s)
      /\ (rrclass (factory (context s)) = None -> (pre -> close_read s) ->
          (~ close_read s' -> no_teardown evs)
          /\ forall a, r = Val a -> post a -> close_read s').

(** The item read last by the reduce loop is a [CLOSE]. *)
Definition key_is_close (g : groupby) : Prop := currkey g = Some CLOSE_code.

(** States for concrete runs: an authenticated engine in front of the
    stream [cmds], around the factory [f]. *)
Definition sample_state (f : Factory) (pw : option string) (cmds : list command) : state :=
  with_auth_done (BinaryProtocol_init cmds (Context_init f) default_kwargs pw) true.

(** A reducer that returns without reading any value. *)
Definition sample_idle_reducer : Reducer :=
  {| reducer_reduce := fun _ _ _ => RReturn; reducer_close := None |}.

Definition sample_factory_idle : Factory :=
  {| mclass := sample_mapper; rclass := Some sample_idle_reducer; cclass := None;
     pclass := None; rwclass := None; rrclass := None |}.

(** *** The input of a reduce task *)

(** What [__next__] returns to the reduce loop for a command, if it
    returns an item at all. *)
Definition item_of (c : command) : option item :=
  match c with
  | REDUCE_KEY k => Some (REDUCE_KEY_code, k)
  | REDUCE_VALUE v => Some (REDUCE_VALUE_code, v)
  | CLOSE => Some (CLOSE_code, PyNone)
  | _ => None
  end.

(** The state of [groupby] once item [it] has been read and not yet
    handed out. *)
Definition pending (tgt : option Z) (it : item) : groupby :=
  {| tgtkey := tgt; currkey := Some (fst it); currvalue := Some it |}.

(** The input of a reduce task, command by command. *)
Inductive reduce_input : Type :=
| RKey (k : pyobj)
| RValue (v : pyobj).

Definition input_command (i : reduce_input) : command :=
  match i with
  | RKey k => REDUCE_KEY k
  | RValue v => REDUCE_VALUE v
  end.

(** A maximal run of commands of one kind. *)
Inductive run : Type :=
| Keys (k : pyobj) (more : list pyobj)
| Values (v : pyobj) (more : list pyobj).

Definition run_commands (r : run) : list command :=
  match r with
  | Keys k more => REDUCE_KEY k :: map REDUCE_KEY more
  | Values v more => REDUCE_VALUE v :: map REDUCE_VALUE more
  end.

Definition is_keys (r : run) : bool :=
  match r with Keys _ _ => true | Values _ _ => false end.

Fixpoint alternating (rs : list run) : bool :=
  match rs with
  | [] => true
  | r1 :: rest =>
      match rest with
      | [] => true
      | r2 :: _ => negb (Bool.eqb (is_keys r1) (is_keys r2))
      end && alternating rest
  end.

(** The runs of an input. *)
Fixpoint runs_of (cs : list reduce_input) : list run :=
  match cs with
  | [] => []
  | RKey k :: cs' =>
      match runs_of cs' with
      | Keys k' more :: rs => Keys k (k' :: more) :: rs
      | rs => Keys k [] :: rs
      end
  | RValue v :: cs' =>
      match runs_of cs' with
      | Values v' more :: rs => Values v (v' :: more) :: rs
      | rs => Values v [] :: rs
      end
  end.

(** The [reduce] calls a sequence of runs leads to, starting with [key]
    as [context.key]: one per run of values, at the first key of the run of
    keys before it. *)
Fixpoint expected_reduce_calls (key : pyobj) (rs : list run)
  : list (pyobj * list pyobj) :=
  match rs with
  | [] => []
  | Keys k _ :: rest => expected_reduce_calls k rest
  | Values v more :: rest => (key, v :: more) :: expected_reduce_calls key rest
  end.

Fixpoint last_key (key : pyobj) (rs : list run) : pyobj :=
  match rs with
  | [] => key
  | Keys k _ :: rest => last_key k rest
  | Values _ _ :: rest => last_key key rest
  end.

Definition read_and_hand (v : pyobj) : list event :=
  [EvRead (REDUCE_VALUE v); EvValue v].

(** The events of the reduce loop over a sequence of runs, the reducer
    reading every value. *)
Fixpoint reduce_events (key : pyobj) (rs : list run) : list event :=
  match rs with
  | [] => []
  | Keys k more :: rest =>
      EvRead (REDUCE_KEY k) :: map EvRead (map REDUCE_KEY more)
      ++ reduce_events k rest
  | Values v more :: rest =>
      EvRead (REDUCE_VALUE v) :: EvReduce key :: EvValue v
      :: flat_map read_and_hand more ++ reduce_events key rest
  end.

Definition first_command (rs : list run) : command :=
  match rs with
  | [] => CLOSE
  | Keys k _ :: _ => REDUCE_KEY k
  | Values v _ :: _ => REDUCE_VALUE v
  end.

Definition first_item (rs : list run) : item :=
  match rs with
  | [] => (CLOSE_code, PyNone)
  | Keys k _ :: _ => (REDUCE_KEY_code, k)
  | Values v _ :: _ => (REDUCE_VALUE_code, v)
  end.

(** The commands of the runs and the closing [CLOSE], but for the first. *)
Fixpoint rest_commands (rs : list run) : list command :=
  match rs with
  | [] => []
  | Keys _ more :: rest => map REDUCE_KEY more ++ first_command rest :: rest_commands rest
  | Values _ more :: rest => map REDUCE_VALUE more ++ first_command rest :: rest_commands rest
  end.

(** The events from the point where the first command has been read. *)
Fixpoint events_after_first (key : pyobj) (rs : list run) : list event :=
  match rs with
  | [] => []
  | Keys k more :: rest =>
      map EvRead (map REDUCE_KEY more)
      ++ EvRead (first_command rest) :: events_after_first k rest
  | Values v more :: rest =>
      EvReduce key :: EvValue v :: flat_map read_and_hand more
      ++ EvRead (first_command rest) :: events_after_first key rest
  end.

(** A well-formed group: a key followed by its values, at least one. *)
Definition group : Type := (pyobj * pyobj * list pyobj)%type.

Definition group_commands (g : group) : list command :=
  let '(k, v, vs) := g in REDUCE_KEY k :: REDUCE_VALUE v :: map REDUCE_VALUE vs.

Definition group_runs (g : group) : list run :=
  let '(k, v, vs) := g in [Keys k []; Values v vs].

Definition group_call (g : group) : pyobj * list pyobj :=
  let '(k, v, vs) := g in (k, v :: vs).

(** A reducer that returns without asking for a value. *)
Definition reads_no_value (r : Reducer) : Prop :=
  forall k, reducer_reduce r k [] false = RReturn.

Definition group_key_only (g : group) : pyobj * list pyobj :=
  let '(k, _, _) := g in (k, []).

(** The events of the reduce loop from the point where the first command
    has been read, the reducer reading no value. *)
Fixpoint idle_events_after_first (key : pyobj) (rs : list run) : list event :=
  match rs with
  | [] => []
  | Keys k more :: rest =>
      map EvRead (map REDUCE_KEY more)
      ++ EvRead (first_command rest) :: idle_events_after_first k rest
  | Values v more :: rest =>
      EvReduce key :: map EvRead (map REDUCE_VALUE more)
      ++ EvRead (first_command rest) :: idle_events_after_first key rest
  end.

Fixpoint idle_reduce_calls (key : pyobj) (rs : list run) : list (pyobj * list pyobj) :=
  match rs with
  | [] => []
  | Keys k _ :: rest => idle_reduce_calls k rest
  | Values _ _ :: rest => (key, []) :: idle_reduce_calls key rest
  end.

(** *** Map tasks *)

Definition MAP_ITEM_of (kv : pyobj * pyobj) : command := MAP_ITEM (fst kv) (snd kv).

(** Reading a [MAP_ITEM] and mapping it. *)
Definition read_and_map (kv : pyobj * pyobj) : list event :=
  [EvRead (MAP_ITEM_of kv); EvMap_of kv].

(** The state in which [map] is called for the record [(k, v)]. *)
Definition at_record (st : state) (k v : pyobj) : state :=
  with_trace (with_context st (ctx_with_value (ctx_with_key (context st) k) v))
    (trace st ++ [EvMap k v]).

(** The state of [run_task] once the handshake -- a good
    [AUTHENTICATION_REQ], then [START] -- is behind it. *)
Definition after_handshake (f : Factory) (kw : kwargs) (secret digest challenge : string)
    (response : string) (rest : list command) : state :=
  with_auth_done
    (with_trace (BinaryProtocol_init rest (Context_init f) kw (Some secret))
       [EvRead (AUTHENTICATION_REQ digest challenge);
        EvUp (AUTHENTICATION_RESP response);
        EvRead (START 0)])
    true.

(** *** Job configuration *)

(** [k2] is the name of [k] in the other version's vocabulary. *)
Definition alias_of (mrv1_to_mrv2 mrv2_to_mrv1 : PyDict.t) (k k2 : string) : Prop :=
  PyDict.get k mrv1_to_mrv2 = Some k2 \/ PyDict.get k mrv2_to_mrv1 = Some k2.

(** [(k, v)] is the pair of the last occurrence of the key [k] in the
    sequence of pairs [ps]. *)
Definition last_binding (ps : list (string * string)) (k v : string) : Prop :=
  exists p1 p2, ps = p1 ++ (k, v) :: p2 /\ ~ In k (map fst p2).

(** [k] is not a key of [ps] but the name, in the other version's
    vocabulary, of a key of [ps] whose last pair holds [v]. *)
Definition alias_binding (mrv1_to_mrv2 mrv2_to_mrv1 : PyDict.t)
    (ps : list (string * string)) (k v : string) : Prop :=
  ~ In k (map fst ps)
  /\ exists k0, last_binding ps k0 v /\ alias_of mrv1_to_mrv2 mrv2_to_mrv1 k0 k.

(** A call that leaves [context.job_conf] as it is. *)
Definition keeps_job_conf {A} (c : M A) : Prop :=
  forall s r s', c s = (r, s') -> job_conf (context s') = job_conf (context s).

(** *** The partitioner and the number of reducers *)

(** The job configuration is the [dict] of [Context.__init__], and a
    partitioner is present only beside a stored number of reducers that
    is at least 1. *)
Definition partitioner_guarded (s : state) : Prop :=
  job_conf (context s) = None
  /\ (partitioner (context s) <> None ->
      exists k, nred (context s) = Some k /\ (1 <= k)%Z).

(** A call that keeps [partitioner_guarded], however it ends. *)
Definition keeps_guard {A} (c : M A) : Prop :=
  forall s r s', c s = (r, s') -> partitioner_guarded s -> partitioner_guarded s'.

(** *** Emitting records *)

(** What [emit] sends up for a record whose key and value are already
    serialized. *)
Definition output_command (p : option Partitioner) (n : Z) (k v : pyobj) : uplink_command :=
  match p with
  | Some p => PARTITIONED_OUTPUT (partitioner_partition p k n) k v
  | None => OUTPUT k v
  end.


(** [as_text(x).encode("utf-8")] when [auto_serialize] is set, [x] as it
    is otherwise. *)
Definition auto_serialized (encode_text : pyobj -> pyobj) (au : bool) (x : pyobj) : pyobj :=
  if au then encode_text x else x.

(** How a call into user code ends. *)
Definition user_outcome (r : option exn) : outcome unit :=
  match r with None => Val tt | Some e => Exc e end.

(** A mapper that raises on the key [bad], a reader that meets it and
    factories around them, for concrete runs. *)
Definition sample_failing_mapper : Mapper :=
  {| mapper_map := fun k _ =>
       match k with
       | PyBytes b => if String.eqb b "bad" then Some (UserError "bad record") else None
       | PyNone => None
       end;
     mapper_close := None |}.

Definition sample_failing_reader : RecordReader :=
  {| reader_records := [(PyBytes "k1", PyBytes "v1"); (PyBytes "bad", PyBytes "v2");
                        (PyBytes "k3", PyBytes "v3")];
     reader_close := None |}.

Definition sample_factory_failing : Factory :=
  {| mclass := sample_failing_mapper; rclass := None; cclass := None;
     pclass := None; rwclass := None; rrclass := None |}.

Definition sample_factory_failing_reader : Factory :=
  {| mclass := sample_failing_mapper; rclass := None; cclass := None;
     pclass := None; rwclass := None; rrclass := Some sample_failing_reader |}.

(** Stand-ins for [pickle.dumps], for [as_text(x).encode("utf-8")], for a
    record writer's [emit], for a partitioner handed [None] and for [int]
    on a string, for concrete runs. *)
Definition sample_dumps (x : pyobj) : pyobj :=
  match x with
  | PyBytes b => PyBytes (String.append "pickled:" b)
  | PyNone => PyBytes "pickled:None"
  end.

Definition sample_encode_text (x : pyobj) : pyobj :=
  match x with
  | PyBytes b => PyBytes b
  | PyNone => PyBytes "None"
  end.

Definition sample_writer_emit (w : RecordWriter) (k v : pyobj) : option exn := None.

Definition sample_partition_without_count (p : Partitioner) (k : pyobj) : result Z :=
  Raise (TypeError "unsupported operand type(s) for %: 'int' and 'NoneType'").

Definition sample_int_of_str (s : string) : option Z :=
  option_map Z.of_int (NilZero.int_of_string s).

(* ===================================================================== *)
(** * Properties *)
(* ===================================================================== *)

Unset Implicit Arguments.

(** ** Strings *)

Module PyStrFacts.
Import PyStr.

Lemma is_space_lower_char c : is_space (lower_char c) = is_space c.
Proof. destruct c as [[] [] [] [] [] [] [] []]; reflexivity. Qed.

Lemma lower_char_idem c : lower_char (lower_char c) = lower_char c.
Proof. destruct c as [[] [] [] [] [] [] [] []]; reflexivity. Qed.

Lemma lower_app a b : lower (String.append a b) = String.append (lower a) (lower b).
Proof. induction a; simpl; [reflexivity | now rewrite IHa]. Qed.

Lemma all_space_lower s : all_space (lower s) = all_space s.
Proof. induction s; simpl; [reflexivity | now rewrite is_space_lower_char, IHs]. Qed.

Lemma lstrip_lower s : lstrip (lower s) = lower (lstrip s).
Proof.
  induction s as [|c s IH]; simpl; [reflexivity|].
  rewrite is_space_lower_char. destruct (is_space c); [exact IH | reflexivity].
Qed.

Lemma rstrip_lower s : rstrip (lower s) = lower (rstrip s).
Proof.
  induction s as [|c s IH]; simpl; [reflexivity|].
  rewrite IH, is_space_lower_char.
  destruct (rstrip s); simpl; [destruct (is_space c)|]; reflexivity.
Qed.

Lemma strip_lower s : strip (lower s) = lower (strip s).
Proof. unfold strip. now rewrite lstrip_lower, rstrip_lower. Qed.

Lemma lstrip_all_space l x : all_space l = true -> lstrip (String.append l x) = lstrip x.
Proof.
  induction l as [|c l IH]; simpl; [reflexivity|].
  intros H. apply andb_true_iff in H as [Hc Hl]. rewrite Hc. auto.
Qed.

Lemma rstrip_all_space r : all_space r = true -> rstrip r = EmptyString.
Proof.
  induction r as [|c r IH]; simpl; [reflexivity|].
  intros H. apply andb_true_iff in H as [Hc Hr]. now rewrite IH, Hc.
Qed.

Lemma rstrip_app_space c r :
  all_space r = true -> rstrip (String.append c r) = rstrip c.
Proof.
  intros H. induction c as [|a c IH]; simpl.
  - now apply rstrip_all_space.
  - now rewrite IH.
Qed.

Lemma length_append a b :
  String.length (String.append a b) = String.length a + String.length b.
Proof. induction a; simpl; [reflexivity | now rewrite IHa]. Qed.

Lemma lstrip_decompose s :
  exists l, s = String.append l (lstrip s) /\ all_space l = true.
Proof.
  induction s as [|c s [l [E Hl]]]; simpl.
  - exists EmptyString. split; reflexivity.
  - destruct (is_space c) eqn:Hc.
    + exists (String c l). simpl. rewrite Hc, Hl. split; [now rewrite <- E | reflexivity].
    + exists EmptyString. split; reflexivity.
Qed.

Lemma rstrip_decompose s :
  exists r, s = String.append (rstrip s) r /\ all_space r = true.
Proof.
  induction s as [|c s [r [E Hr]]]; simpl.
  - exists EmptyString. split; reflexivity.
  - destruct (rstrip s) as [|d t] eqn:Hs.
    + simpl in E. subst r. destruct (is_space c) eqn:Hc.
      * exists (String c s). simpl. rewrite Hc, Hr. split; reflexivity.
      * exists s. split; [reflexivity | assumption].
    + exists r. split; [|assumption]. simpl. simpl in E. now rewrite <- E.
Qed.

Lemma strip_decompose s :
  exists l r, s = String.append l (String.append (strip s) r)
              /\ all_space l = true /\ all_space r = true.
Proof.
  destruct (lstrip_decompose s) as [l [El Hl]].
  destruct (rstrip_decompose (lstrip s)) as [r [Er Hr]].
  exists l, r. unfold strip. rewrite <- Er. auto.
Qed.

Lemma same_ignoring_case_lower a b :
  same_ignoring_case a b = true <-> lower a = lower b.
Proof.
  revert b. induction a as [|c a IH]; destruct b as [|d b]; simpl;
    try (split; [discriminate | discriminate]); [tauto|].
  rewrite andb_true_iff, Ascii.eqb_eq, IH. split.
  - intros [-> ->]. reflexivity.
  - intros H. injection H. auto.
Qed.

(** Stripping a padded word whose own ends are not white space. *)
Lemma strip_padded l w r :
  all_space l = true -> all_space r = true -> lstrip w = w -> w <> EmptyString ->
  strip (String.append l (String.append w r)) = rstrip w.
Proof.
  intros Hl Hr Hw Hne. unfold strip. rewrite lstrip_all_space by assumption.
  destruct w as [|c w]; [congruence|].
  assert (Hc : is_space c = false).
  { destruct (is_space c) eqn:Hc; [|reflexivity]. exfalso.
    simpl in Hw. rewrite Hc in Hw.
    destruct (lstrip_decompose w) as [l' [E _]].
    rewrite Hw in E. apply (f_equal String.length) in E.
    rewrite length_append in E. simpl in E. lia. }
  replace (lstrip (String.append (String c w) r))
    with (String.append (String c w) r) by (simpl; now rewrite Hc).
  now apply rstrip_app_space.
Qed.

(** [lower (strip s)] is the lower-case word [w] exactly when [s] is a
    case variant of [w] with white space around it. *)
Lemma lower_strip_word w s :
  lower w = w -> strip w = w -> lstrip w = w -> w <> EmptyString ->
  lower (strip s) = w <-> padded_variant w s.
Proof.
  intros Hlow Hstrip Hl Hne. split.
  - intros H. destruct (strip_decompose s) as [l [r [E [Al Ar]]]].
    exists l, (strip s), r. repeat split; try assumption.
    apply same_ignoring_case_lower. congruence.
  - intros [l [core [r [E [Al [Ar Hc]]]]]].
    apply same_ignoring_case_lower in Hc. rewrite Hlow in Hc.
    rewrite <- strip_lower, E, !lower_app, Hc.
    rewrite strip_padded; try assumption; try (now rewrite all_space_lower).
    unfold strip in Hstrip. now rewrite Hl in Hstrip.
Qed.

End PyStrFacts.

(** ** [JobConf.get_bool] *)

Lemma get_bool_true self key s default :
  PyDict.get key self = Some s -> PyStr.lower (PyStr.strip s) = "true" ->
  get_bool self key default = Ok (Some true).
Proof. intros Hs Hv. unfold get_bool. now rewrite Hs, Hv. Qed.

Lemma get_bool_false self key s default :
  PyDict.get key self = Some s -> PyStr.lower (PyStr.strip s) = "false" ->
  get_bool self key default = Ok (Some false).
Proof. intros Hs Hv. unfold get_bool. now rewrite Hs, Hv. Qed.

Lemma get_bool_other self key s default :
  PyDict.get key self = Some s ->
  PyStr.lower (PyStr.strip s) <> "true" -> PyStr.lower (PyStr.strip s) <> "false" ->
  get_bool self key default =
    match default with
    | Some d => Ok (Some d)
    | None => Raise (RuntimeError
                       (String.append "invalid bool string: " (PyStr.lower (PyStr.strip s))))
    end.
Proof.
  intros Hs Ht Hf. unfold get_bool. rewrite Hs.
  apply String.eqb_neq in Ht, Hf. now rewrite Ht, Hf.
Qed.

(** The five spellings the design document lists. *)
Example get_bool_spellings :
  forall d,
    get_bool [("k", "true")] "k" d = Ok (Some true)
    /\ get_bool [("k", "TRUE")] "k" d = Ok (Some true)
    /\ get_bool [("k", "True")] "k" d = Ok (Some true)
    /\ get_bool [("k", "false")] "k" d = Ok (Some false)
    /\ get_bool [("k", "FALSE")] "k" d = Ok (Some false).
Proof. intros d. repeat split. Qed.

(** A key that is not stored yields the default, also when there is
    none. *)
Lemma get_bool_missing self key default :
  PyDict.get key self = None -> get_bool self key default = Ok default.
Proof. intros H. unfold get_bool. now rewrite H. Qed.

(** C7, as stated, fails: [" true"] is not a case variant of ["true"] or
    ["false"], yet with the default [False] supplied [get_bool] answers
    [True], not the default. *)
Lemma get_bool_not_only_case_variants :
  PyStr.same_ignoring_case " true" "true" = false
  /\ PyStr.same_ignoring_case " true" "false" = false
  /\ get_bool [("k", " true")] "k" (Some false) = Ok (Some true)
  /\ get_bool [("k", " true")] "k" (Some false) <> Ok (Some false).
Proof. repeat split. discriminate. Qed.

(** C7, amended: a stored string that is a case variant of "true"
    (resp. "false") with white space around it maps to [True] (resp.
    [False]); every other stored string yields the supplied default, and a
    [RuntimeError] when no default was supplied. *)
Theorem get_bool_stored self key s default :
  PyDict.get key self = Some s ->
  (PyStr.padded_variant "true" s -> get_bool self key default = Ok (Some true))
  /\ (PyStr.padded_variant "false" s -> get_bool self key default = Ok (Some false))
  /\ (~ PyStr.padded_variant "true" s -> ~ PyStr.padded_variant "false" s ->
      get_bool self key default =
        match default with
        | Some d => Ok (Some d)
        | None => Raise (RuntimeError
                           (String.append "invalid bool string: "
                                          (PyStr.lower (PyStr.strip s))))
        end).
Proof.
  intros Hs.
  assert (Ht : PyStr.lower (PyStr.strip s) = "true" <-> PyStr.padded_variant "true" s)
    by (apply PyStrFacts.lower_strip_word; first [reflexivity | discriminate]).
  assert (Hf : PyStr.lower (PyStr.strip s) = "false" <-> PyStr.padded_variant "false" s)
    by (apply PyStrFacts.lower_strip_word; first [reflexivity | discriminate]).
  repeat split.
  - intros H. apply get_bool_true with s; tauto.
  - intros H. apply get_bool_false with s; tauto.
  - intros Hnt Hnf. apply get_bool_other; tauto.
Qed.

Lemma get_bool_stored_witness :
  PyDict.get "k" [("k", "  TrUe ")] = Some "  TrUe "
  /\ get_bool [("k", "  TrUe ")] "k" None = Ok (Some true).
Proof.
  split; [reflexivity|].
  apply (get_bool_stored [("k", "  TrUe ")] "k" "  TrUe " None eq_refl).
  exists "  ", "TrUe", " ". repeat split.
Defined.

(** ** Dictionaries *)

Module PyDictFacts.
Import PyDict.

Lemma mem_keys k d : mem k d = existsb (String.eqb k) (keys d).
Proof.
  unfold mem. induction d as [|[k' v] d IH]; simpl; [reflexivity|].
  destruct (String.eqb k k'); [reflexivity | exact IH].
Qed.

Lemma mem_In k d : mem k d = true <-> In k (keys d).
Proof.
  rewrite mem_keys, existsb_exists. split.
  - intros [x [Hx E]]. apply String.eqb_eq in E. now subst.
  - intros H. exists k. split; [assumption | apply String.eqb_refl].
Qed.

Lemma get_None k d : get k d = None <-> ~ In k (keys d).
Proof.
  rewrite <- mem_In. unfold mem. destruct (get k d); split; intros H;
    try discriminate; try reflexivity; try congruence.
Qed.

Lemma get_In k v d : get k d = Some v -> In (k, v) d.
Proof.
  induction d as [|[k' v'] d IH]; simpl; [discriminate|].
  destruct (String.eqb_spec k k') as [->|Hne].
  - intros [= ->]. now left.
  - intros H. right. auto.
Qed.

Lemma In_get k v d : NoDup (keys d) -> In (k, v) d -> get k d = Some v.
Proof.
  induction d as [|[k' v'] d IH]; simpl; [tauto|].
  intros Hnd [H|H].
  - injection H as -> ->. now rewrite String.eqb_refl.
  - inversion Hnd as [|? ? Hni Hnd']; subst.
    destruct (String.eqb_spec k k') as [->|Hne]; [|auto].
    exfalso. apply Hni. change (In (fst (k', v)) (map fst d)). now apply in_map.
Qed.

Lemma set_absent k v d : ~ In k (keys d) -> set k v d = d ++ [(k, v)].
Proof.
  induction d as [|[k' v'] d IH]; simpl; [reflexivity|].
  intros H. destruct (String.eqb_spec k k') as [->|Hne]; [tauto|].
  rewrite IH; [reflexivity | tauto].
Qed.

Lemma keys_set_present k v d : In k (keys d) -> keys (set k v d) = keys d.
Proof.
  induction d as [|[k' v'] d IH]; simpl; [tauto|].
  intros H. destruct (String.eqb_spec k k') as [->|Hne]; simpl; [reflexivity|].
  f_equal. apply IH. destruct H; [congruence | assumption].
Qed.

Lemma keys_set k v d :
  keys (set k v d) = if existsb (String.eqb k) (keys d) then keys d else keys d ++ [k].
Proof.
  rewrite <- mem_keys. destruct (mem k d) eqn:H.
  - apply keys_set_present. now apply mem_In.
  - rewrite set_absent.
    + unfold keys. now rewrite map_app.
    + rewrite <- mem_In. congruence.
Qed.

Lemma get_set_same k v d : get k (set k v d) = Some v.
Proof.
  induction d as [|[k' v'] d IH]; simpl.
  - now rewrite String.eqb_refl.
  - destruct (String.eqb_spec k k') as [->|Hne]; simpl.
    + now rewrite String.eqb_refl.
    + destruct (String.eqb_spec k k'); [congruence | exact IH].
Qed.

Lemma get_set_other k k' v d : k' <> k -> get k' (set k v d) = get k' d.
Proof.
  intros Hne. induction d as [|[k0 v0] d IH]; simpl.
  - destruct (String.eqb_spec k' k); [congruence | reflexivity].
  - destruct (String.eqb_spec k k0) as [->|Hk]; simpl.
    + destruct (String.eqb_spec k' k0); [congruence | reflexivity].
    + destruct (String.eqb k' k0); [reflexivity | exact IH].
Qed.

Lemma NoDup_keys_set k v d : NoDup (keys d) -> NoDup (keys (set k v d)).
Proof.
  intros H. rewrite keys_set. destruct (existsb (String.eqb k) (keys d)) eqn:E.
  - assumption.
  - apply NoDup_app; [assumption | repeat constructor; simpl; tauto |].
    intros x Hx [<-|[]]. rewrite <- mem_keys in E.
    apply mem_In in Hx. congruence.
Qed.

Lemma NoDup_keys_fold ps d :
  NoDup (keys d) ->
  NoDup (keys (fold_left (fun d kv => set (fst kv) (snd kv) d) ps d)).
Proof.
  revert d. induction ps as [|[k v] ps IH]; simpl; intros d H; [assumption|].
  apply IH. now apply NoDup_keys_set.
Qed.

Lemma NoDup_keys_of_pairs ps : NoDup (keys (of_pairs ps)).
Proof. apply NoDup_keys_fold. constructor. Qed.

(** Appending bindings whose keys are new and pairwise distinct. *)
Lemma fold_set_fresh ps d :
  NoDup (map fst ps) -> (forall k, In k (map fst ps) -> ~ In k (keys d)) ->
  fold_left (fun d kv => set (fst kv) (snd kv) d) ps d = d ++ ps.
Proof.
  revert d. induction ps as [|[k v] ps IH]; simpl; intros d Hnd Hfresh.
  - now rewrite app_nil_r.
  - inversion Hnd as [|? ? Hni Hnd']; subst.
    rewrite set_absent by (apply Hfresh; now left).
    rewrite IH; [now rewrite <- app_assoc | assumption |].
    intros k' Hk'. unfold keys. rewrite map_app, in_app_iff. simpl.
    intros [H|[H|[]]]; [apply (Hfresh k'); auto | congruence].
Qed.

(** The binding of [k] after a run of assignments is that of the last
    assignment to [k]. *)
Lemma get_fold_last p1 k v p2 d :
  ~ In k (map fst p2) ->
  get k (fold_left (fun d kv => set (fst kv) (snd kv) d) (p1 ++ (k, v) :: p2) d)
  = Some v.
Proof.
  intros Hni. rewrite fold_left_app. simpl.
  generalize (fold_left (fun d kv => set (fst kv) (snd kv) d) p1 d). intros d'.
  assert (H : get k (set k v d') = Some v) by apply get_set_same.
  revert H. generalize (set k v d'). clear d'.
  induction p2 as [|[k' v'] p2 IH]; simpl; intros d' H; [assumption|].
  simpl in Hni. apply IH; [tauto|].
  rewrite get_set_other; [assumption | intros ->; tauto].
Qed.

Lemma get_app_l k d e : In k (keys d) -> get k (d ++ e) = get k d.
Proof.
  induction d as [|[k' v'] d IH]; simpl; [tauto|].
  intros H. destruct (String.eqb_spec k k'); [reflexivity|].
  apply IH. destruct H; [congruence | assumption].
Qed.

Lemma keys_fold_incl ps d k :
  In k (keys (fold_left (fun d kv => set (fst kv) (snd kv) d) ps d)) <->
  In k (keys d) \/ In k (map fst ps).
Proof.
  revert d. induction ps as [|[k' v'] ps IH]; simpl; intros d; [tauto|].
  rewrite IH, keys_set. destruct (existsb (String.eqb k') (keys d)) eqn:E.
  - rewrite <- mem_keys in E. apply mem_In in E.
    split; [tauto|]. intros [H|[<-|H]]; auto.
  - rewrite in_app_iff. simpl. tauto.
Qed.

Lemma keys_of_pairs_In ps k : In k (keys (of_pairs ps)) <-> In k (map fst ps).
Proof. unfold of_pairs. rewrite keys_fold_incl. simpl. tauto. Qed.

End PyDictFacts.

(** ** [JobConf.__init__] *)

Lemma slice_step2_tl (A : Type) (r : list A) :
  match r with [] => [] | _ :: r' => slice_step2 r' end = slice_step2 (tl r).
Proof. destruct r; reflexivity. Qed.

Lemma flat_pairs_cons2 k v r : flat_pairs (k :: v :: r) = (k, v) :: flat_pairs r.
Proof. unfold flat_pairs. simpl. now rewrite slice_step2_tl. Qed.

(** [flat_pairs] reads a flat sequence back into its pairs. *)
Lemma flat_pairs_flatten ps : flat_pairs (flatten ps) = ps.
Proof.
  induction ps as [|[k v] ps IH]; [reflexivity|].
  simpl. now rewrite flat_pairs_cons2, IH.
Qed.

Lemma even_length_ind (P : list string -> Prop) :
  P [] -> (forall k v r, P r -> P (k :: v :: r)) ->
  forall l, Nat.even (List.length l) = true -> P l.
Proof.
  intros H0 H2. fix IH 1. intros [|k [|v r]] H.
  - exact H0.
  - discriminate.
  - apply H2, IH. exact H.
Qed.

(** Every even-length sequence is the flat sequence of its pairs. *)
Lemma flatten_flat_pairs values :
  Nat.even (List.length values) = true -> flatten (flat_pairs values) = values.
Proof.
  revert values. apply even_length_ind; [reflexivity|].
  intros k v r IH. rewrite flat_pairs_cons2. simpl. now rewrite IH.
Qed.

Section JobConfFacts.

Variables mrv1_to_mrv2 mrv2_to_mrv1 : PyDict.t.

Lemma In_set k v k' v' d :
  In (k, v) (PyDict.set k' v' d) -> (k, v) = (k', v') \/ In (k, v) d.
Proof.
  induction d as [|[k0 v0] d IH]; simpl.
  - intros [H|[]]. left. congruence.
  - destruct (String.eqb_spec k' k0) as [->|Hne]; simpl.
    + intros [H|H]; [left; congruence | tauto].
    + intros [H|H]; [tauto|]. destruct (IH H); tauto.
Qed.

Lemma ext_ok_set self ext k0 v k :
  ext_ok mrv1_to_mrv2 mrv2_to_mrv1 self ext -> In (k0, v) self ->
  PyDict.get k0 mrv1_to_mrv2 = Some k \/ PyDict.get k0 mrv2_to_mrv1 = Some k ->
  PyDict.mem k self = false ->
  ext_ok mrv1_to_mrv2 mrv2_to_mrv1 self (PyDict.set k v ext).
Proof.
  intros [Hnd Hal] Hin Htab Hmem. split.
  - now apply PyDictFacts.NoDup_keys_set.
  - intros k' v' H. apply In_set in H as [H|H]; [|auto].
    injection H as -> ->. split.
    + rewrite <- PyDictFacts.mem_In. congruence.
    + exists k0. auto.
Qed.

Lemma ext_ok_mirror_key self ext kv :
  ext_ok mrv1_to_mrv2 mrv2_to_mrv1 self ext -> In kv self -> ext_ok mrv1_to_mrv2 mrv2_to_mrv1 self (mirror_key mrv1_to_mrv2 mrv2_to_mrv1 self ext kv).
Proof.
  destruct kv as [k0 v]. intros Hok Hin. unfold mirror_key.
  assert (H1 : ext_ok mrv1_to_mrv2 mrv2_to_mrv1 self
            match PyDict.get k0 mrv1_to_mrv2 with
            | Some k2 => if negb (PyDict.mem k2 self) then PyDict.set k2 v ext else ext
            | None => ext
            end).
  { destruct (PyDict.get k0 mrv1_to_mrv2) as [k2|] eqn:E; [|assumption].
    destruct (PyDict.mem k2 self) eqn:M; simpl; [assumption|].
    apply ext_ok_set with k0; auto. }
  destruct (PyDict.get k0 mrv2_to_mrv1) as [k1|] eqn:E; [|assumption].
  destruct (PyDict.mem k1 self) eqn:M; simpl; [assumption|].
  apply ext_ok_set with k0; auto.
Qed.

Lemma ext_ok_fold self items ext :
  ext_ok mrv1_to_mrv2 mrv2_to_mrv1 self ext -> incl items self ->
  ext_ok mrv1_to_mrv2 mrv2_to_mrv1 self (fold_left (mirror_key mrv1_to_mrv2 mrv2_to_mrv1 self) items ext).
Proof.
  revert ext. induction items as [|kv items IH]; simpl; intros ext Hok Hincl.
  - assumption.
  - apply IH.
    + apply ext_ok_mirror_key; [assumption | apply Hincl; now left].
    + intros x Hx. apply Hincl. now right.
Qed.

Lemma ext_ok_mirror_ext self : ext_ok mrv1_to_mrv2 mrv2_to_mrv1 self (mirror_ext mrv1_to_mrv2 mrv2_to_mrv1 self).
Proof.
  apply ext_ok_fold; [|apply incl_refl].
  split; [constructor | intros k v []].
Qed.

(** Mirroring only appends: the stored pairs stay as they are. *)
Lemma mirror_conf_appends self :
  mirror_conf_across_versions mrv1_to_mrv2 mrv2_to_mrv1 self = self ++ mirror_ext mrv1_to_mrv2 mrv2_to_mrv1 self.
Proof.
  destruct (ext_ok_mirror_ext self) as [Hnd Hal].
  unfold mirror_conf_across_versions, PyDict.update.
  apply PyDictFacts.fold_set_fresh; [exact Hnd|].
  intros k Hk. apply in_map_iff in Hk as [[k' v] [E Hin]]. simpl in E. subst k'.
  now destruct (Hal k v Hin).
Qed.

Lemma JobConf_init_even values :
  Nat.even (List.length values) = true ->
  JobConf_init mrv1_to_mrv2 mrv2_to_mrv1 values
  = Ok (PyDict.of_pairs (flat_pairs values) ++ mirror_ext mrv1_to_mrv2 mrv2_to_mrv1 (PyDict.of_pairs (flat_pairs values))).
Proof.
  intros H. unfold JobConf_init.
  rewrite <- Nat.negb_even, H. simpl. now rewrite mirror_conf_appends.
Qed.

Lemma JobConf_init_odd values :
  Nat.odd (List.length values) = true ->
  JobConf_init mrv1_to_mrv2 mrv2_to_mrv1 values = Raise (PydoopError "JobConf.__init__: len(values) should be even").
Proof. intros H. unfold JobConf_init. now rewrite H. Qed.

(** C10: in an even-length flat sequence, a key is bound to the value
    paired with its last occurrence, and to no other value. *)
Theorem JobConf_init_last_wins (values : list string) p1 k v p2 :
  Nat.even (List.length values) = true ->
  flat_pairs values = p1 ++ (k, v) :: p2 ->
  ~ In k (map fst p2) ->
  exists jc,
    JobConf_init mrv1_to_mrv2 mrv2_to_mrv1 values = Ok jc
    /\ PyDict.get k jc = Some v
    /\ forall v', In (k, v') jc -> v' = v.
Proof.
  intros Heven Hps Hlast.
  pose (self := PyDict.of_pairs (flat_pairs values)).
  assert (Hget : PyDict.get k self = Some v).
  { unfold self, PyDict.of_pairs. rewrite Hps. now apply PyDictFacts.get_fold_last. }
  assert (Hk : In k (PyDict.keys self)).
  { apply PyDictFacts.get_In in Hget.
    change (In (fst (k, v)) (map fst self)). now apply in_map. }
  exists (self ++ mirror_ext mrv1_to_mrv2 mrv2_to_mrv1 self).
  split; [now apply JobConf_init_even|].
  split; [now rewrite PyDictFacts.get_app_l|].
  intros v' Hin. apply in_app_iff in Hin as [Hin|Hin].
  - apply PyDictFacts.In_get in Hin; [congruence|].
    apply PyDictFacts.NoDup_keys_of_pairs.
  - destruct (ext_ok_mirror_ext self) as [_ Hal].
    destruct (Hal k v' Hin) as [Hni _]. contradiction.
Qed.

End JobConfFacts.

Lemma JobConf_init_last_wins_witness :
  exists jc,
    JobConf_init sample_mrv1_to_mrv2 sample_mrv2_to_mrv1 ["a"; "1"; "b"; "x"; "a"; "2"]
    = Ok jc
    /\ PyDict.get "a" jc = Some "2"
    /\ forall v', In ("a", v') jc -> v' = "2".
Proof.
  apply (JobConf_init_last_wins sample_mrv1_to_mrv2 sample_mrv2_to_mrv1
           ["a"; "1"; "b"; "x"; "a"; "2"] [("a", "1"); ("b", "x")] "a" "2" []
           eq_refl eq_refl).
  simpl. tauto.
Defined.

(** ** [Context.close] *)

(** What [Context.close] does, in one equation: it closes the components
    of [closed_components], writes [DONE], and ends with the exception
    that teardown met, if any.  Nothing but the trace changes. *)
Lemma Context_close_run st :
  Context_close st =
    (match teardown_error (context st) teardown_order with
     | None => Val tt
     | Some e => Exc e
     end,
     with_trace st (trace st
                    ++ map EvClose (closed_components (context st) teardown_order)
                    ++ [EvUp DONE])).
Proof.
  destruct st as [str ctx pe au rs rk rv pw ad gk gv tr].
  destruct ctx as [f jc isp k v m p rr rw r n].
  destruct m as [[mm [e1|]]|], rr as [[recs [e2|]]|], rw as [[[e3|]]|],
           r as [[rf [e4|]]|];
    cbn; rewrite <- ?app_assoc; reflexivity.
Qed.

Lemma closed_components_prefix ctx order :
  exists later,
    filter (present ctx) order = closed_components ctx order ++ later
    /\ (teardown_error ctx order = None -> later = []).
Proof.
  induction order as [|c order [later [E Hnone]]]; simpl.
  - exists []. auto.
  - unfold present at 1. destruct (close_behaviour ctx c) as [[e|]|].
    + exists (filter (present ctx) order). split; [reflexivity | discriminate].
    + exists later. split; [now rewrite E | assumption].
    + exists later. auto.
Qed.

Lemma teardown_error_none ctx order :
  (forall c, In c order -> close_raises ctx c = false) -> teardown_error ctx order = None.
Proof.
  induction order as [|c order IH]; simpl; intros H; [reflexivity|].
  assert (Hc := H c (or_introl eq_refl)). unfold close_raises in Hc.
  destruct (close_behaviour ctx c) as [[e|]|]; try discriminate; apply IH; auto.
Qed.

(** C4: [Context.close] closes components in the order mapper, record
    reader, record writer, reducer, skipping the absent ones -- all the
    present ones when no [close] raises -- and writes [DONE] after that,
    once and as the last thing it does, whether or not a [close] raised. *)
Theorem Context_close_teardown st :
  exists closed later r,
    Context_close st
    = (r, with_trace st (trace st ++ map EvClose closed ++ [EvUp DONE]))
    /\ filter (present (context st)) teardown_order = closed ++ later
    /\ ((forall c, close_raises (context st) c = false) -> later = [] /\ r = Val tt).
Proof.
  destruct (closed_components_prefix (context st) teardown_order) as [later [E Hnone]].
  exists (closed_components (context st) teardown_order), later.
  eexists. split; [apply Context_close_run|]. split; [exact E|].
  intros Hok.
  assert (Hn : teardown_error (context st) teardown_order = None)
    by (apply teardown_error_none; auto).
  rewrite Hn. auto.
Qed.

Lemma closed_components_stop ctx before c after e :
  (forall b, In b before -> close_raises ctx b = false) ->
  close_behaviour ctx c = Some (Some e) ->
  closed_components ctx (before ++ c :: after) = filter (present ctx) before ++ [c]
  /\ teardown_error ctx (before ++ c :: after) = Some e.
Proof.
  intros Hb Hc. induction before as [|b before IH]; simpl.
  - now rewrite Hc.
  - assert (Hb0 := Hb b (or_introl eq_refl)). unfold close_raises in Hb0.
    destruct IH as [IH1 IH2]; [intros; apply Hb; now right|].
    unfold present at 1.
    destruct (close_behaviour ctx b) as [[e'|]|]; try discriminate;
      rewrite IH1, IH2; auto.
Qed.

Lemma NoDup_app_disjoint (A : Type) (l1 l2 : list A) a :
  NoDup (l1 ++ l2) -> In a l1 -> In a l2 -> False.
Proof.
  induction l1 as [|x l1 IH]; simpl; [tauto|].
  intros Hnd [->|H1] H2; inversion Hnd as [|? ? Hni Hnd']; subst.
  - apply Hni, in_or_app. now right.
  - now apply IH.
Qed.

(** C9: when the [close] of a component raises, [Context.close] closes
    none of the components that come later in the teardown order, still
    writes [DONE], and ends with that exception. *)
Theorem Context_close_stops_at_first_error st before c after e :
  teardown_order = before ++ c :: after ->
  (forall b, In b before -> close_raises (context st) b = false) ->
  close_behaviour (context st) c = Some (Some e) ->
  exists closed,
    Context_close st
    = (Exc e, with_trace st (trace st ++ map EvClose closed ++ [EvUp DONE]))
    /\ closed = filter (present (context st)) before ++ [c]
    /\ forall a, In a after -> ~ In a closed.
Proof.
  intros Horder Hb Hc.
  destruct (closed_components_stop (context st) before c after e Hb Hc) as [H1 H2].
  exists (filter (present (context st)) before ++ [c]).
  split; [|split; [reflexivity|]].
  - rewrite Context_close_run, Horder, H1, H2. reflexivity.
  - intros a Ha Hin.
    assert (Hnd : NoDup teardown_order)
      by (repeat constructor; simpl; intuition discriminate).
    rewrite Horder in Hnd.
    apply in_app_iff in Hin as [Hin|[<-|[]]].
    + apply filter_In in Hin as [Hin _].
      apply (NoDup_app_disjoint _ _ _ _ Hnd Hin). now right.
    + apply NoDup_app_remove_l in Hnd. inversion Hnd. contradiction.
Qed.

(** The reducer's [close] is skipped when the mapper's raises. *)
Lemma Context_close_stops_at_first_error_witness :
  let m := {| mapper_map := fun _ _ => None; mapper_close := Some (UserError "boom") |} in
  let r := {| reducer_reduce := fun _ _ _ => RReturn; reducer_close := None |} in
  let f := {| mclass := m; rclass := Some r; cclass := None; pclass := None;
              rwclass := None; rrclass := None |} in
  let ctx := ctx_with_reducer (ctx_with_mapper (Context_init f) (Some m)) (Some r) in
  let st := BinaryProtocol_init [] ctx default_kwargs None in
  exists closed,
    Context_close st
    = (Exc (UserError "boom"),
       with_trace st (trace st ++ map EvClose closed ++ [EvUp DONE]))
    /\ closed = [CMapper]
    /\ forall a, In a [CRecordReader; CRecordWriter; CReducer] -> ~ In a closed.
Proof.
  intros m r f ctx st.
  apply (Context_close_stops_at_first_error st [] CMapper
           [CRecordReader; CRecordWriter; CReducer] (UserError "boom") eq_refl).
  - intros b [].
  - reflexivity.
Defined.

(** ** The protocol engine *)

Section EngineFacts.

Variable create_digest : string -> string -> string.
Variables mrv1_to_mrv2 mrv2_to_mrv1 : PyDict.t.

(** *** Authentication *)

Lemma verify_digest_accepts st secret challenge :
  password st = Some secret ->
  verify_digest create_digest (create_digest secret challenge) challenge st
  = (Val tt,
     with_auth_done
       (with_trace st
          (trace st ++ [EvUp (AUTHENTICATION_RESP
                                (create_digest secret (create_digest secret challenge)))]))
       true).
Proof.
  intros Hpw. unfold verify_digest, bind, gets. rewrite Hpw.
  rewrite String.eqb_refl. reflexivity.
Qed.

Lemma verify_digest_rejects st secret digest challenge :
  password st = Some secret -> digest <> create_digest secret challenge ->
  verify_digest create_digest digest challenge st
  = (Exc (RuntimeError "server failed to authenticate"), st).
Proof.
  intros Hpw Hne. unfold verify_digest, bind, gets. rewrite Hpw.
  destruct (String.eqb_spec (create_digest secret challenge) digest); [congruence|].
  reflexivity.
Qed.

(** C3: with a secret configured, [AUTHENTICATION_REQ(digest, challenge)]
    is accepted exactly when [digest] is the digest of the challenge under
    the secret; the engine then writes one [AUTHENTICATION_RESP] with the
    digest of that digest, and on a mismatch it raises and writes
    nothing. *)
Theorem authentication st secret digest challenge rest n :
  stream st = AUTHENTICATION_REQ digest challenge :: rest ->
  password st = Some secret ->
  let read := with_trace (with_stream st rest)
                (trace st ++ [EvRead (AUTHENTICATION_REQ digest challenge)]) in
  (digest = create_digest secret challenge ->
   next_ create_digest mrv1_to_mrv2 mrv2_to_mrv1 (S n) st
   = (Val None,
      with_auth_done
        (with_trace read
           (trace read ++ [EvUp (AUTHENTICATION_RESP
                                   (create_digest secret
                                      (create_digest secret challenge)))]))
        true))
  /\ (digest <> create_digest secret challenge ->
      next_ create_digest mrv1_to_mrv2 mrv2_to_mrv1 (S n) st
      = (Exc (RuntimeError "server failed to authenticate"), read)).
Proof.
  intros Hs Hpw read.
  assert (Hread : read_command st
                  = (Val (AUTHENTICATION_REQ digest challenge), read))
    by (unfold read_command; now rewrite Hs).
  assert (Hpw' : password read = Some secret) by exact Hpw.
  split; intros Hd.
  - subst digest. simpl. unfold bind at 1. rewrite Hread.
    unfold bind at 1. unfold gets at 1. simpl.
    unfold bind at 1. rewrite (verify_digest_accepts read secret challenge Hpw').
    reflexivity.
  - simpl. unfold bind at 1. rewrite Hread.
    unfold bind at 1. unfold gets at 1. simpl.
    unfold bind at 1. rewrite (verify_digest_rejects read secret digest challenge Hpw' Hd).
    reflexivity.
Qed.

(** *** Reading one command *)

Lemma next_REDUCE_KEY n st k rest :
  stream st = REDUCE_KEY k :: rest -> auth_done st = true ->
  next_ create_digest mrv1_to_mrv2 mrv2_to_mrv1 (S n) st
  = (Val (Some (REDUCE_KEY_code, k)), after_read st (REDUCE_KEY k) rest).
Proof.
  intros Hs Ha. simpl. unfold bind, read_command, gets. rewrite Hs. simpl.
  rewrite Ha. reflexivity.
Qed.

Lemma next_REDUCE_VALUE n st v rest :
  stream st = REDUCE_VALUE v :: rest -> auth_done st = true ->
  next_ create_digest mrv1_to_mrv2 mrv2_to_mrv1 (S n) st
  = (Val (Some (REDUCE_VALUE_code, v)), after_read st (REDUCE_VALUE v) rest).
Proof.
  intros Hs Ha. simpl. unfold bind, read_command, gets. rewrite Hs. simpl.
  rewrite Ha. reflexivity.
Qed.

(** In a reduce task no mapper is active and [CLOSE] is passed on to the
    reduce loop. *)
Lemma next_CLOSE_no_mapper n st rest :
  stream st = CLOSE :: rest -> auth_done st = true -> mapper (context st) = None ->
  next_ create_digest mrv1_to_mrv2 mrv2_to_mrv1 (S n) st
  = (Val (Some (CLOSE_code, PyNone)), after_read st CLOSE rest).
Proof.
  intros Hs Ha Hm. simpl. unfold bind, read_command, gets. rewrite Hs. simpl.
  rewrite Ha. simpl. rewrite Hm. reflexivity.
Qed.

(** [ABORT] raises at once, whatever the state. *)
Lemma next_ABORT n st rest :
  stream st = ABORT :: rest ->
  exists msg,
    next_ create_digest mrv1_to_mrv2 mrv2_to_mrv1 (S n) st
    = (Exc (RuntimeError msg), after_read st ABORT rest).
Proof.
  intros Hs. simpl. unfold bind, read_command, gets. rewrite Hs. simpl.
  destruct (auth_done st); simpl; eexists; reflexivity.
Qed.

End EngineFacts.

(** *** Traces that end with a teardown *)

Lemma closed_components_same ctx ctx' order :
  same_components ctx ctx' ->
  closed_components ctx' order = closed_components ctx order.
Proof.
  intros [Hm [Hrr [Hrw Hr]]]. induction order as [|c order IH]; simpl; [reflexivity|].
  rewrite IH. destruct c; unfold close_behaviour; rewrite ?Hm, ?Hrr, ?Hrw, ?Hr; reflexivity.
Qed.

Lemma same_components_refl ctx : same_components ctx ctx.
Proof. repeat split. Qed.

Lemma values_handed_teardown cs : values_handed (map EvClose cs ++ [EvUp DONE]) = [].
Proof. induction cs; simpl; auto. Qed.

Lemma reduce_calls_teardown cs : reduce_calls (map EvClose cs ++ [EvUp DONE]) = [].
Proof. induction cs; simpl; auto. Qed.

Lemma map_calls_teardown cs : map_calls (map EvClose cs ++ [EvUp DONE]) = [].
Proof. induction cs; simpl; auto. Qed.

Lemma count_done_teardown cs : count_done (map EvClose cs ++ [EvUp DONE]) = 1.
Proof. unfold count_done. induction cs; simpl; auto. Qed.

Lemma filter_is_read_teardown cs : filter is_read (map EvClose cs ++ [EvUp DONE]) = [].
Proof. induction cs; simpl; auto. Qed.

(** *** The reduce loop on two groups *)

Section GroupingRun.

(** [next(self)] at work on the three commands of the reduce loop. *)
Variable next_self : M (option item).
Hypothesis next_key : forall st k rest,
  stream st = REDUCE_KEY k :: rest -> auth_done st = true ->
  next_self st = (Val (Some (REDUCE_KEY_code, k)), after_read st (REDUCE_KEY k) rest).
Hypothesis next_value : forall st v rest,
  stream st = REDUCE_VALUE v :: rest -> auth_done st = true ->
  next_self st = (Val (Some (REDUCE_VALUE_code, v)), after_read st (REDUCE_VALUE v) rest).
Hypothesis next_close : forall st rest,
  stream st = CLOSE :: rest -> auth_done st = true -> mapper (context st) = None ->
  next_self st = (Val (Some (CLOSE_code, PyNone)), after_read st CLOSE rest).

(** Run the left-hand side to its next call of [next_self], of the reducer
    or of [Context.close], and resolve that call. *)
Ltac head_normal :=
  match goal with
  | |- ?l = _ =>
      let l' := eval lazy head beta iota zeta delta
                  -[reducer_reduce mapper_map Context_close teardown_error
                    closed_components] in l in
      change l with l'
  end.

Ltac normal_state s :=
  eval lazy beta iota zeta delta
    -[app List.map closed_components teardown_error reducer_reduce mapper_map] in s.

Ltac step :=
  head_normal;
  match goal with
  | |- context [next_self ?s] =>
      let s' := normal_state s in
      change s with s';
      first [ rewrite (next_key s' _ _ eq_refl eq_refl)
            | rewrite (next_value s' _ _ eq_refl eq_refl)
            | rewrite (next_close s' _ eq_refl eq_refl eq_refl) ]
  | |- context [Context_close ?s] =>
      let s' := normal_state s in
      change s with s';
      rewrite (Context_close_run s')
  | H : reads_all_values ?r |- context [reducer_reduce ?r ?k ?seen false] =>
      let k' := normal_state k in
      let seen' := normal_state seen in
      change (reducer_reduce r k seen false) with (reducer_reduce r k' seen' false);
      rewrite (proj1 (H k' seen'))
  | H : reads_all_values ?r |- context [reducer_reduce ?r ?k ?seen true] =>
      let k' := normal_state k in
      let seen' := normal_state seen in
      change (reducer_reduce r k seen true) with (reducer_reduce r k' seen' true);
      rewrite (proj2 (H k' seen'))
  end.

Lemma reduce_loop_two_groups st r k1 v1 v2 k2 v3 rest n :
  stream st = REDUCE_KEY k1 :: REDUCE_VALUE v1 :: REDUCE_VALUE v2
              :: REDUCE_KEY k2 :: REDUCE_VALUE v3 :: CLOSE :: rest ->
  auth_done st = true ->
  mapper (context st) = None ->
  reducer (context st) = Some r ->
  reads_all_values r ->
  exists st',
    reduce_loop next_self (10 + n) groupby_init st = (Exc StopIteration, st')
    /\ stream st' = rest
    /\ same_components (context st) (context st')
    /\ trace st'
       = trace st
         ++ [EvRead (REDUCE_KEY k1); EvRead (REDUCE_VALUE v1);
             EvReduce k1; EvValue v1; EvRead (REDUCE_VALUE v2); EvValue v2;
             EvRead (REDUCE_KEY k2); EvRead (REDUCE_VALUE v3);
             EvReduce k2; EvValue v3; EvRead CLOSE]
         ++ map EvClose (closed_components (context st) teardown_order)
         ++ [EvUp DONE].
Proof.
  intros Hs Ha Hm Hr Hall.
  destruct st as [str ctx pe au rs rk rv pw ad gk gv tr].
  destruct ctx as [f jc isp k v m p rr rw rd nr].
  simpl in *. subst.
  eexists. split.
  - repeat step. head_normal.
    match goal with
    | |- context [teardown_error ?c ?o] => destruct (teardown_error c o)
    end; head_normal; reflexivity.
  - split; [reflexivity|]. split; [repeat split|].
    lazy beta iota zeta delta -[app List.map closed_components teardown_error].
    rewrite <- !app_assoc. reflexivity.
Qed.

End GroupingRun.

Lemma run_reduce_task_setup next_self n part piped_output st :
  is_some (rwclass (factory (context st))) = negb (truthy piped_output) ->
  run_reduce_task next_self n part piped_output st
  = bind (reduce_loop next_self n groupby_init) (fun _ => ret None) (reduce_ready st).
Proof.
  intros Hw.
  destruct st as [str ctx pe au rs rk rv pw ad gk gv tr].
  destruct ctx as [f jc isp k v m p rr rw rd nr].
  simpl in Hw.
  unfold run_reduce_task, reduce_ready, create_reducer, setup_record_writer,
    create_record_writer, modify_context, modify, gets, bind, ret, raise.
  simpl.
  destruct (truthy piped_output), (rwclass f) as [w|]; try discriminate;
    destruct pe; reflexivity.
Qed.

Section ReduceTask.

Variable create_digest : string -> string -> string.
Variables mrv1_to_mrv2 mrv2_to_mrv1 : PyDict.t.

(** C1: on [REDUCE_KEY(k1), REDUCE_VALUE(v1), REDUCE_VALUE(v2),
    REDUCE_KEY(k2), REDUCE_VALUE(v3), CLOSE] the loop of [RUN_REDUCE] calls
    [reduce] exactly twice, first at key [k1] with the values [v1, v2],
    then at key [k2] with the value [v3]; after [CLOSE] it tears down,
    writes exactly one [DONE] and stops the iteration, leaving the rest of
    the stream unread. *)
Theorem reduce_grouping st part piped_output k1 v1 v2 k2 v3 rest r n :
  stream st = RUN_REDUCE part piped_output
              :: REDUCE_KEY k1 :: REDUCE_VALUE v1 :: REDUCE_VALUE v2
              :: REDUCE_KEY k2 :: REDUCE_VALUE v3 :: CLOSE :: rest ->
  auth_done st = true ->
  mapper (context st) = None ->
  rclass (factory (context st)) = Some r ->
  reads_all_values r ->
  is_some (rwclass (factory (context st))) = negb (truthy piped_output) ->
  exists st' evs,
    next_ create_digest mrv1_to_mrv2 mrv2_to_mrv1 (12 + n) st
    = (Exc StopIteration, st')
    /\ stream st' = rest
    /\ trace st' = trace st ++ evs
    /\ evs = [EvRead (RUN_REDUCE part piped_output);
              EvRead (REDUCE_KEY k1); EvRead (REDUCE_VALUE v1);
              EvReduce k1; EvValue v1; EvRead (REDUCE_VALUE v2); EvValue v2;
              EvRead (REDUCE_KEY k2); EvRead (REDUCE_VALUE v3);
              EvReduce k2; EvValue v3; EvRead CLOSE]
             ++ map EvClose (closed_components (context st') teardown_order)
             ++ [EvUp DONE]
    /\ reduce_calls evs = [(k1, [v1; v2]); (k2, [v3])]
    /\ count_done evs = 1.
Proof.
  intros Hs Ha Hm Hr Hall Hw.
  pose (s0 := after_read st (RUN_REDUCE part piped_output)
                (REDUCE_KEY k1 :: REDUCE_VALUE v1 :: REDUCE_VALUE v2
                 :: REDUCE_KEY k2 :: REDUCE_VALUE v3 :: CLOSE :: rest)).
  assert (Hnext : next_ create_digest mrv1_to_mrv2 mrv2_to_mrv1 (12 + n) st
                  = run_reduce_task
                      (next_ create_digest mrv1_to_mrv2 mrv2_to_mrv1 (S (10 + n)))
                      (10 + S n) part piped_output s0).
  { change (12 + n) with (S (S (10 + n))).
    replace (10 + S n) with (S (10 + n)) by lia.
    cbn [next_]. unfold bind at 1. unfold read_command. rewrite Hs.
    unfold bind at 1. unfold gets at 1. cbn [auth_done with_trace with_stream].
    rewrite Ha. reflexivity. }
  assert (Hw0 : is_some (rwclass (factory (context s0))) = negb (truthy piped_output))
    by exact Hw.
  rewrite Hnext, (run_reduce_task_setup _ _ _ _ _ Hw0).
  assert (Hready : stream (reduce_ready s0)
                   = REDUCE_KEY k1 :: REDUCE_VALUE v1 :: REDUCE_VALUE v2
                     :: REDUCE_KEY k2 :: REDUCE_VALUE v3 :: CLOSE :: rest
                   /\ auth_done (reduce_ready s0) = true
                   /\ mapper (context (reduce_ready s0)) = None
                   /\ reducer (context (reduce_ready s0)) = Some r
                   /\ trace (reduce_ready s0)
                      = trace st ++ [EvRead (RUN_REDUCE part piped_output)]).
  { unfold reduce_ready. destruct (private_encoding s0); simpl; auto. }
  destruct Hready as [Hs1 [Ha1 [Hm1 [Hr1 Ht1]]]].
  destruct (reduce_loop_two_groups
              (next_ create_digest mrv1_to_mrv2 mrv2_to_mrv1 (S (10 + n)))
              (next_REDUCE_KEY create_digest mrv1_to_mrv2 mrv2_to_mrv1 (10 + n))
              (next_REDUCE_VALUE create_digest mrv1_to_mrv2 mrv2_to_mrv1 (10 + n))
              (next_CLOSE_no_mapper create_digest mrv1_to_mrv2 mrv2_to_mrv1 (10 + n))
              (reduce_ready s0) r k1 v1 v2 k2 v3 rest (S n) Hs1 Ha1 Hm1 Hr1 Hall)
    as [st' [Hrun [Hst [Hsame Htr]]]].
  exists st'. eexists. unfold bind. rewrite Hrun.
  split; [reflexivity|]. split; [exact Hst|].
  rewrite (closed_components_same _ _ teardown_order Hsame).
  split; [rewrite Htr, Ht1, <- app_assoc; reflexivity|].
  split; [reflexivity|]. split.
  - cbn [reduce_calls values_handed app].
    rewrite values_handed_teardown, reduce_calls_teardown. reflexivity.
  - unfold count_done.
    change (List.length (filter is_done (map EvClose
              (closed_components (context (reduce_ready s0)) teardown_order)
              ++ [EvUp DONE])) = 1).
    apply count_done_teardown.
Qed.

End ReduceTask.

(** *** The pull path of [RUN_MAP] *)

Lemma close_and_stop_run st :
  close_and_stop st
  = (Exc StopIteration,
     with_trace st (trace st
                    ++ map EvClose (closed_components (context st) teardown_order)
                    ++ [EvUp DONE])).
Proof.
  unfold close_and_stop, try_finally. rewrite Context_close_run.
  destruct (teardown_error (context st) teardown_order); reflexivity.
Qed.

Lemma map_records_run recs : forall st m,
  mapper (context st) = Some m ->
  (forall k v, In (k, v) recs -> mapper_map m k v = None) ->
  exists st',
    map_records recs st = (Val tt, st')
    /\ stream st' = stream st
    /\ same_components (context st) (context st')
    /\ trace st' = trace st ++ map EvMap_of recs.
Proof.
  induction recs as [|[k v] recs IH]; intros st m Hm Hok.
  - exists st. simpl. rewrite app_nil_r. repeat split.
  - pose (s1 := with_trace
                  (with_context st (ctx_with_value (ctx_with_key (context st) k) v))
                  (trace st ++ [EvMap k v])).
    destruct (IH s1 m Hm) as [st' [Hrun [Hs [Hc Ht]]]].
    { intros k' v' H. apply Hok. now right. }
    exists st'. split; [|split; [exact Hs|split]].
    + simpl. unfold bind at 1. unfold modify_context, modify. unfold bind at 1.
      unfold call_map. unfold bind at 1. unfold gets at 1.
      cbn [context with_context mapper ctx_with_value ctx_with_key].
      rewrite Hm. unfold bind, gets, log, modify, user_call.
      cbn [context with_context key value ctx_with_value ctx_with_key trace with_trace].
      rewrite (Hok k v (or_introl eq_refl)). exact Hrun.
    + destruct Hc as [H1 [H2 [H3 H4]]]. repeat split; assumption.
    + rewrite Ht. simpl. rewrite <- app_assoc. reflexivity.
Qed.

Lemma run_map_setup split n piped_input st :
  is_some (rrclass (factory (context st))) = negb (truthy piped_input) ->
  ((n < 1)%Z -> map_only_writer_ok (context st)) ->
  run_map split n piped_input st
  = match rrclass (factory (context st)) with
    | Some r =>
        bind (map_records (reader_records r))
             (fun _ => bind close_and_stop (fun _ => ret None))
    | None => ret None
    end (map_ready st split n).
Proof.
  intros Hr Hw.
  destruct st as [str ctx pe au rs rk rv pw ad gk gv tr].
  destruct ctx as [f jc isp k v m p rr rw rd nr].
  simpl in Hr, Hw.
  unfold run_map, run_map_with, map_ready, job_conf_get_bool, setup_record_writer,
    create_record_reader, create_record_writer, create_mapper, create_partitioner,
    modify_context, modify, gets, bind, ret, raise, lift.
  cbn -[get_bool IS_JAVA_RW map_records close_and_stop Z.ltb].
  destruct (rrclass f) as [reader|], (truthy piped_input); try discriminate;
    cbn -[get_bool IS_JAVA_RW map_records close_and_stop Z.ltb];
    (destruct (Z.ltb_spec n 1) as [Hlt|Hge];
     [ destruct (Hw Hlt) as [d [b [Hjc [Hb Hrw]]]]; simpl in Hjc, Hrw; subst jc;
       cbn -[get_bool IS_JAVA_RW map_records close_and_stop Z.ltb]; rewrite Hb;
       cbn -[get_bool IS_JAVA_RW map_records close_and_stop Z.ltb];
       destruct (rwclass f) as [w|], b as [[|]|]; try discriminate; reflexivity
     | reflexivity ]).
Qed.

Lemma map_calls_maps recs t : map_calls (map EvMap_of recs ++ t) = recs ++ map_calls t.
Proof.
  induction recs as [|[k v] recs IH]; simpl; [reflexivity | now rewrite IH].
Qed.

Lemma filter_is_done_maps recs t :
  filter is_done (map EvMap_of recs ++ t) = filter is_done t.
Proof. induction recs as [|[k v] recs IH]; simpl; auto. Qed.

Lemma filter_is_read_maps recs t :
  filter is_read (map EvMap_of recs ++ t) = filter is_read t.
Proof. induction recs as [|[k v] recs IH]; simpl; auto. Qed.

Section MapTask.

Variable create_digest : string -> string -> string.
Variables mrv1_to_mrv2 mrv2_to_mrv1 : PyDict.t.

Lemma next_RUN_MAP fuel st split n piped_input rest :
  stream st = RUN_MAP split n piped_input :: rest -> auth_done st = true ->
  next_ create_digest mrv1_to_mrv2 mrv2_to_mrv1 (S fuel) st
  = run_map split n piped_input (after_read st (RUN_MAP split n piped_input) rest).
Proof.
  intros Hs Ha. cbn [next_]. unfold bind at 1. unfold read_command. rewrite Hs.
  unfold bind at 1. unfold gets at 1. cbn [auth_done with_trace with_stream].
  rewrite Ha. reflexivity.
Qed.

(** C2: in the pull path of [RUN_MAP] the engine calls [map] once per
    record of the reader, in the reader's order and with that record as
    [context.key] and [context.value]; it then tears down, writes exactly
    one [DONE] and the downlink loop ends without reading any further
    command. *)
Theorem map_pull_path st split n piped_input rest reader fuel :
  stream st = RUN_MAP split n piped_input :: rest ->
  auth_done st = true ->
  rrclass (factory (context st)) = Some reader ->
  truthy piped_input = false ->
  ((n < 1)%Z -> map_only_writer_ok (context st)) ->
  (forall k v, In (k, v) (reader_records reader) ->
               mapper_map (mclass (factory (context st))) k v = None) ->
  exists st' evs,
    downlink_loop create_digest mrv1_to_mrv2 mrv2_to_mrv1 (2 + fuel) st = (Val tt, st')
    /\ stream st' = rest
    /\ trace st' = trace st ++ evs
    /\ evs = EvRead (RUN_MAP split n piped_input)
             :: map EvMap_of (reader_records reader)
             ++ map EvClose (closed_components (context st') teardown_order)
             ++ [EvUp DONE]
    /\ map_calls evs = reader_records reader
    /\ count_done evs = 1
    /\ filter is_read evs = [EvRead (RUN_MAP split n piped_input)].
Proof.
  intros Hs Ha Hrr Hp Hw Hmap.
  pose (s0 := after_read st (RUN_MAP split n piped_input) rest).
  assert (Hsetup : run_map split n piped_input s0
                   = bind (map_records (reader_records reader))
                          (fun _ => bind close_and_stop (fun _ => ret None))
                          (map_ready s0 split n)).
  { rewrite run_map_setup.
    - change (rrclass (factory (context s0))) with (rrclass (factory (context st))).
      now rewrite Hrr.
    - change (rrclass (factory (context s0))) with (rrclass (factory (context st))).
      now rewrite Hrr, Hp.
    - exact Hw. }
  assert (Hready : mapper (context (map_ready s0 split n))
                   = Some (mclass (factory (context st)))
                   /\ stream (map_ready s0 split n) = rest
                   /\ trace (map_ready s0 split n)
                      = trace st ++ [EvRead (RUN_MAP split n piped_input)]).
  { unfold map_ready. destruct (n <? 1)%Z; repeat split. }
  destruct Hready as [Hm [Hs1 Ht1]].
  destruct (map_records_run (reader_records reader) (map_ready s0 split n) _ Hm Hmap)
    as [s1 [Hrun [Hs2 [Hsame Ht2]]]].
  pose (s2 := with_trace s1
                (trace s1 ++ map EvClose (closed_components (context s1) teardown_order)
                 ++ [EvUp DONE])).
  exists s2. eexists.
  split.
  { change (2 + fuel) with (S (S fuel)). cbn [downlink_loop].
    unfold bind at 1. unfold catch_stop.
    rewrite (next_RUN_MAP fuel st split n piped_input rest Hs Ha).
    fold s0. rewrite Hsetup. unfold bind at 1. rewrite Hrun.
    unfold bind at 1. rewrite close_and_stop_run. reflexivity. }
  split; [simpl; congruence|].
  split; [|split; [reflexivity|]].
  - simpl. rewrite Ht2, Ht1, <- !app_assoc. reflexivity.
  - split; [|split].
    + simpl. rewrite map_calls_maps, map_calls_teardown. apply app_nil_r.
    + unfold count_done. simpl. rewrite filter_is_done_maps. apply count_done_teardown.
    + simpl. rewrite filter_is_read_maps, filter_is_read_teardown. reflexivity.
Qed.

End MapTask.

(** *** [ABORT] *)

Lemma adds_only_ret ok A (a : A) : adds_only ok (ret a).
Proof.
  intros s r s' [= <- <-]. exists []. rewrite app_nil_r. simpl. auto.
Qed.

Lemma adds_only_raise ok A e : adds_only ok (@raise A e).
Proof.
  intros s r s' [= <- <-]. exists []. rewrite app_nil_r. simpl. auto.
Qed.

Lemma adds_only_timeout ok A : adds_only ok (@timeout A).
Proof.
  intros s r s' [= <- <-]. exists []. rewrite app_nil_r. simpl. auto.
Qed.

Lemma adds_only_gets ok A (f : state -> A) : adds_only ok (gets f).
Proof.
  intros s r s' [= <- <-]. exists []. rewrite app_nil_r. simpl. auto.
Qed.

Lemma adds_only_modify ok f :
  (forall s, trace (f s) = trace s /\ factory (context (f s)) = factory (context s)) ->
  adds_only ok (modify f).
Proof.
  intros Hf s r s' [= <- <-]. exists []. rewrite app_nil_r.
  destruct (Hf s) as [H1 H2]. simpl. auto.
Qed.

Lemma adds_only_log (ok : event -> bool) e : ok e = true -> adds_only ok (log e).
Proof.
  intros He s r s' [= <- <-]. exists [e]. split; [reflexivity|]. split; [reflexivity|].
  intros x [<-|[]]. exact He.
Qed.

Lemma adds_only_bind ok A B (c : M A) (k : A -> M B) :
  adds_only ok c -> (forall a, adds_only ok (k a)) -> adds_only ok (bind c k).
Proof.
  intros Hc Hk s r s'. unfold bind. destruct (c s) as [[a|e|] s1] eqn:E.
  - intros H. destruct (Hc _ _ _ E) as [e1 [T1 [F1 N1]]].
    destruct (Hk a _ _ _ H) as [e2 [T2 [F2 N2]]].
    exists (e1 ++ e2). split; [now rewrite T2, T1, app_assoc|].
    split; [congruence|].
    intros x Hx. apply in_app_iff in Hx as [Hx|Hx]; auto.
  - intros [= <- <-]. exact (Hc _ _ _ E).
  - intros [= <- <-]. exact (Hc _ _ _ E).
Qed.

Lemma adds_only_try_finally ok A (c : M A) fin :
  adds_only ok c -> adds_only ok fin -> adds_only ok (try_finally c fin).
Proof.
  intros Hc Hf s r s'. unfold try_finally.
  destruct (c s) as [r1 s1] eqn:E. destruct (Hc _ _ _ E) as [e1 [T1 [F1 N1]]].
  assert (Hgo : (let (o, s'') := fin s1 in
                 match o with
                 | Val _ => (r1, s'')
                 | Exc e => (Exc e, s'')
                 | Timeout => (Timeout, s'')
                 end) = (r, s') ->
                exists evs, trace s' = trace s ++ evs
                  /\ factory (context s') = factory (context s)
                  /\ forall e, In e evs -> ok e = true).
  { destruct (fin s1) as [r2 s2] eqn:F. destruct (Hf _ _ _ F) as [e2 [T2 [F2 N2]]].
    intros H. exists (e1 ++ e2).
    assert (Hs : s' = s2) by (destruct r2; congruence). subst s'.
    split; [now rewrite T2, T1, app_assoc|]. split; [congruence|].
    intros x Hx. apply in_app_iff in Hx as [Hx|Hx]; auto. }
  destruct r1; try exact Hgo.
  intros [= <- <-]. exists e1. auto.
Qed.

Lemma adds_only_user_call ok r : adds_only ok (user_call r).
Proof.
  destruct r; [apply adds_only_raise | apply adds_only_ret].
Qed.

Lemma adds_only_lift ok A (r : result A) : adds_only ok (lift r).
Proof.
  destruct r; [apply adds_only_ret | apply adds_only_raise].
Qed.

(** A tactic for straight-line code. *)
Ltac quiet :=
  repeat first
    [ apply adds_only_ret
    | apply adds_only_raise
    | apply adds_only_timeout
    | apply adds_only_gets
    | apply adds_only_user_call
    | apply adds_only_lift
    | apply adds_only_modify; intros; split; reflexivity
    | apply adds_only_log; reflexivity
    | apply adds_only_bind; [|intros]
    | match goal with
      | |- adds_only _ (match ?x with _ => _ end) => destruct x
      end ].

Lemma adds_only_Context_close : adds_only not_read Context_close.
Proof.
  intros s r s' E. rewrite Context_close_run in E. injection E as <- <-.
  eexists. split; [reflexivity|]. split; [reflexivity|].
  intros x Hx. apply in_app_iff in Hx as [Hx|[<-|[]]]; [|reflexivity].
  apply in_map_iff in Hx as [c [<- _]]. reflexivity.
Qed.

Lemma adds_only_close_and_stop : adds_only not_read close_and_stop.
Proof.
  unfold close_and_stop. apply adds_only_try_finally;
    [apply adds_only_Context_close | apply adds_only_raise].
Qed.

Lemma adds_only_call_map ok : ok = not_read \/ ok = not_teardown -> adds_only ok call_map.
Proof. intros [->| ->]; unfold call_map; quiet. Qed.

Lemma adds_only_map_records ok recs :
  ok = not_read \/ ok = not_teardown -> adds_only ok (map_records recs).
Proof.
  intros Hok. induction recs as [|[k v] recs IH]; simpl; [quiet|].
  apply adds_only_bind; [unfold modify_context; quiet|intros _].
  apply adds_only_bind; [now apply adds_only_call_map | intros _; exact IH].
Qed.

Lemma adds_only_setup_record_writer ok b : adds_only ok (setup_record_writer b).
Proof. unfold setup_record_writer, create_record_writer, modify_context. quiet. Qed.

Lemma adds_only_run_map_with ok reader n piped_input :
  ok = not_read \/ (ok = not_teardown /\ reader = None) ->
  adds_only ok (run_map_with reader n piped_input).
Proof.
  intros Hok. unfold run_map_with.
  destruct (is_some reader && truthy piped_input); [quiet|].
  destruct (negb (is_some reader) && negb (truthy piped_input)); [quiet|].
  apply adds_only_bind; [|intros _].
  { destruct (n <? 1)%Z; [|quiet].
    apply adds_only_bind; [quiet | intros _].
    apply adds_only_bind; [unfold job_conf_get_bool; quiet | intros b].
    apply adds_only_setup_record_writer. }
  apply adds_only_bind; [unfold modify_context; quiet | intros _].
  apply adds_only_bind; [unfold create_mapper, modify_context; quiet | intros _].
  apply adds_only_bind; [unfold create_partitioner, modify_context; quiet | intros _].
  destruct reader as [r|]; [|quiet].
  destruct Hok as [->|[_ [=]]].
  apply adds_only_bind; [apply adds_only_map_records; now left | intros _].
  apply adds_only_bind; [apply adds_only_close_and_stop | intros _; quiet].
Qed.

Lemma adds_only_run_map split n piped_input :
  adds_only not_read (run_map split n piped_input).
Proof.
  unfold run_map.
  apply adds_only_bind; [unfold modify_context; quiet | intros _].
  apply adds_only_bind; [unfold create_record_reader, modify_context; quiet | intros reader].
  apply adds_only_run_map_with. now left.
Qed.

Lemma adds_only_set_input_types ok kt vt : adds_only ok (set_input_types kt vt).
Proof. unfold set_input_types. quiet. Qed.

Lemma adds_only_verify_digest ok cd d c :
  ok = not_read \/ ok = not_teardown -> adds_only ok (verify_digest cd d c).
Proof. intros [->| ->]; unfold verify_digest, CommandWriter_authenticate; quiet. Qed.

Lemma adds_only_read_job_conf ok t1 t2 items : adds_only ok (read_job_conf t1 t2 items).
Proof. unfold read_job_conf. quiet. Qed.

Lemma adds_only_abort_safe A (c : M A) : adds_only not_read c -> abort_safe c.
Proof.
  intros Hc s r s' E. destruct (Hc _ _ _ E) as [evs [T [_ N]]].
  exists evs. split; [exact T|]. intros H. apply N in H. discriminate.
Qed.

Lemma halts_at_abort_app A B (e1 e2 : list event) (a : A) (r : outcome B) :
  halts_at_abort e1 (Val a) -> halts_at_abort e2 r -> halts_at_abort (e1 ++ e2) r.
Proof.
  intros H1 H2 Hin.
  assert (Hn1 : ~ In (EvRead ABORT) e1).
  { intros H. destruct (H1 H) as [_ [msg Hmsg]]. discriminate. }
  apply in_app_iff in Hin as [Hin|Hin]; [contradiction|].
  destruct (H2 Hin) as [[pre [Hpre Hn]] Hr]. split; [|exact Hr].
  exists (e1 ++ pre). split; [now rewrite Hpre, app_assoc|].
  intros H. apply in_app_iff in H as [H|H]; contradiction.
Qed.

Lemma abort_safe_bind A B (c : M A) (k : A -> M B) :
  abort_safe c -> (forall a, abort_safe (k a)) -> abort_safe (bind c k).
Proof.
  intros Hc Hk s r s'. unfold bind. destruct (c s) as [[a|e|] s1] eqn:E.
  - intros H. destruct (Hc _ _ _ E) as [e1 [T1 N1]].
    destruct (Hk a _ _ _ H) as [e2 [T2 N2]].
    exists (e1 ++ e2). split; [now rewrite T2, T1, app_assoc|].
    eapply halts_at_abort_app; eassumption.
  - intros [= <- <-]. destruct (Hc _ _ _ E) as [e1 [T1 N1]].
    exists e1. split; [exact T1|]. intros Hin.
    destruct (N1 Hin) as [Hpre [msg Hmsg]]. split; [exact Hpre|].
    exists msg. congruence.
  - intros [= <- <-]. destruct (Hc _ _ _ E) as [e1 [T1 N1]].
    exists e1. split; [exact T1|]. intros Hin.
    destruct (N1 Hin) as [_ [msg Hmsg]]. discriminate.
Qed.

Lemma abort_safe_catch_stop A (c : M A) : abort_safe c -> abort_safe (catch_stop c).
Proof.
  intros Hc s r s'. unfold catch_stop. destruct (c s) as [r1 s1] eqn:E.
  destruct (Hc _ _ _ E) as [e1 [T1 N1]]. intros H.
  exists e1. assert (Hs : s' = s1) by (destruct r1 as [a|[]|]; congruence).
  subst s'. split; [exact T1|]. intros Hin.
  destruct (N1 Hin) as [Hpre [msg Hmsg]]. split; [exact Hpre|].
  exists msg. subst r1. congruence.
Qed.

Ltac quiet_calls :=
  repeat first
    [ apply adds_only_read_job_conf
    | apply adds_only_close_and_stop
    | apply adds_only_run_map
    | apply adds_only_setup_record_writer
    | apply adds_only_set_input_types
    | apply adds_only_verify_digest; auto; fail
    | apply adds_only_call_map; auto; fail
    | progress quiet ].

Ltac safe :=
  repeat first
    [ apply adds_only_abort_safe; quiet_calls; fail
    | apply abort_safe_bind; [|intros]
    | match goal with
      | |- abort_safe (match ?x with _ => _ end) => destruct x
      end ].

Section AbortGrouping.

Variable next_self : M (option item).
Hypothesis next_self_safe : abort_safe next_self.

Lemma abort_safe_groupby_step g : abort_safe (groupby_step next_self g).
Proof.
  unfold groupby_step. apply abort_safe_bind.
  - now apply abort_safe_catch_stop.
  - intros o. safe.
Qed.

Lemma abort_safe_groupby_next n : forall g, abort_safe (groupby_next next_self n g).
Proof.
  induction n as [|n IH]; intros g; simpl.
  - safe.
  - assert (Hskip : abort_safe
                      (o <- groupby_step next_self g;;
                       match o with
                       | Some g' => groupby_next next_self n g'
                       | None => ret None
                       end)).
    { apply abort_safe_bind; [apply abort_safe_groupby_step|].
      intros [g'|]; [apply IH | safe]. }
    destruct (currkey g) as [ck|]; [|exact Hskip].
    destruct (tgtkey g) as [tk|]; [|safe].
    destruct (tk =? ck)%Z; [exact Hskip | safe].
Qed.

Lemma abort_safe_grouper_next g : abort_safe (grouper_next next_self g).
Proof.
  unfold grouper_next. apply abort_safe_bind.
  - destruct (currvalue g); [safe | apply abort_safe_groupby_step].
  - intros o. safe.
Qed.

Lemma abort_safe_run_reduce n : forall r k seen ended g,
  abort_safe (run_reduce next_self n r k seen ended g).
Proof.
  induction n as [|n IH]; intros r k seen ended g; simpl.
  - destruct (reducer_reduce r k seen ended); safe.
  - destruct (reducer_reduce r k seen ended); [|safe|safe].
    destruct ended; [apply IH|].
    apply abort_safe_bind; [apply abort_safe_grouper_next|].
    intros og. destruct (fst og); [|apply IH].
    apply abort_safe_bind; [safe | intros _; apply IH].
Qed.

Lemma abort_safe_reduce_body n cmd g : abort_safe (reduce_body next_self n cmd g).
Proof.
  unfold reduce_body.
  apply abort_safe_bind.
  { destruct (cmd =? REDUCE_KEY_code)%Z; [|safe].
    apply abort_safe_bind; [apply abort_safe_grouper_next|].
    intros og. unfold modify_context. safe. }
  intros g1. apply abort_safe_bind.
  { destruct (cmd =? REDUCE_VALUE_code)%Z; [|safe].
    apply abort_safe_bind; [safe|]. intros [r|]; [|safe].
    apply abort_safe_bind; [safe|]. intros k.
    apply abort_safe_bind; [safe|]. intros _. apply abort_safe_run_reduce. }
  intros g2. apply abort_safe_bind; [|intros; safe].
  destruct (cmd =? CLOSE_code)%Z; safe.
Qed.

Lemma abort_safe_reduce_loop n : forall g, abort_safe (reduce_loop next_self n g).
Proof.
  induction n as [|n IH]; intros g; simpl; [safe|].
  apply abort_safe_bind; [apply abort_safe_groupby_next|].
  intros [[cmd g1]|]; [|safe].
  apply abort_safe_bind; [apply abort_safe_reduce_body | intros g2; apply IH].
Qed.

Lemma abort_safe_run_reduce_task n part piped_output :
  abort_safe (run_reduce_task next_self n part piped_output).
Proof.
  unfold run_reduce_task.
  apply abort_safe_bind; [unfold create_reducer, modify_context; safe | intros _].
  apply abort_safe_bind; [safe | intros _].
  apply abort_safe_bind; [safe | intros pe].
  apply abort_safe_bind; [safe | intros _].
  apply abort_safe_bind; [apply abort_safe_reduce_loop | intros _; safe].
Qed.

End AbortGrouping.

Section Abort.

Variable create_digest : string -> string -> string.
Variables mrv1_to_mrv2 mrv2_to_mrv1 : PyDict.t.

Lemma halts_at_abort_after_read A c evs (r : outcome A) :
  c <> ABORT -> halts_at_abort evs r -> halts_at_abort (EvRead c :: evs) r.
Proof.
  intros Hc H [Hin|Hin]; [congruence|].
  destruct (H Hin) as [[pre [Hpre Hn]] Hr]. split; [|exact Hr].
  exists (EvRead c :: pre). split; [now rewrite Hpre|].
  intros [H'|H']; [congruence | contradiction].
Qed.

Lemma after_read_safe A (h : M A) s c rest r s' :
  c <> ABORT -> abort_safe h -> h (after_read s c rest) = (r, s') ->
  exists evs, trace s' = trace s ++ evs /\ halts_at_abort evs r.
Proof.
  intros Hc Hh H. destruct (Hh _ _ _ H) as [evs [T N]].
  exists (EvRead c :: evs). split.
  - rewrite T. simpl. now rewrite <- app_assoc.
  - now apply halts_at_abort_after_read.
Qed.

Lemma raise_after_read A s c rest msg r s' :
  @raise A (RuntimeError msg) (after_read s c rest) = (r, s') ->
  exists evs, trace s' = trace s ++ evs /\ halts_at_abort evs r.
Proof.
  intros [= <- <-]. exists [EvRead c]. split; [reflexivity|].
  intros [Hin|[]]. split; [|eexists; reflexivity].
  exists []. split; [now rewrite Hin | intros []].
Qed.

Lemma abort_safe_next n : abort_safe (next_ create_digest mrv1_to_mrv2 mrv2_to_mrv1 n).
Proof.
  induction n as [|n IH]; [simpl; safe|].
  intros s r s'. cbn [next_]. unfold bind at 1. unfold read_command.
  destruct (stream s) as [|c rest] eqn:Hs.
  { intros [= <- <-]. exists []. rewrite app_nil_r. split; [reflexivity|]. intros []. }
  fold (after_read s c rest). unfold bind at 1. unfold gets at 1.
  destruct (negb (opcode c =? AUTHENTICATION_REQ_code)%Z
            && negb (auth_done (after_read s c rest))) eqn:Hauth.
  { intros H. eapply raise_after_read. exact H. }
  destruct c; intros H.
  all: try (eapply after_read_safe in H;
            [ exact H | discriminate
            | first [ apply abort_safe_run_reduce_task; exact IH
                    | unfold modify_context; safe ] ]).
  eapply raise_after_read. exact H.
Qed.

Lemma abort_safe_downlink_loop n :
  abort_safe (downlink_loop create_digest mrv1_to_mrv2 mrv2_to_mrv1 n).
Proof.
  induction n as [|n IH]; simpl; [safe|].
  apply abort_safe_bind; [apply abort_safe_catch_stop, abort_safe_next|].
  intros [o|]; [exact IH | safe].
Qed.

End Abort.

(** *** No teardown before [CLOSE] *)

Lemma close_read_ext s s' evs : trace s' = trace s ++ evs -> close_read s -> close_read s'.
Proof. unfold close_read. intros -> H. apply in_or_app. now left. Qed.

Lemma no_teardown_app e1 e2 : no_teardown e1 -> no_teardown e2 -> no_teardown (e1 ++ e2).
Proof. intros H1 H2 e He. apply in_app_iff in He as [He|He]; auto. Qed.

Lemma tg_plain A pre (c : M A) (post : A -> Prop) :
  adds_only not_teardown c -> (forall a, post a -> pre) -> teardown_guarded pre c post.
Proof.
  intros Hc Hpost s r s' E. destruct (Hc _ _ _ E) as [evs [T [F N]]].
  exists evs. split; [exact T|]. split; [exact F|]. intros _ Hpre. split.
  - intros _. exact N.
  - intros a _ Ha. apply (close_read_ext s s' evs T). eauto.
Qed.

(** Teardown is unguarded only where [CLOSE] is known to have been read. *)
Lemma tg_after_close A ok (c : M A) (post : A -> Prop) :
  adds_only ok c -> teardown_guarded True c post.
Proof.
  intros Hc s r s' E. destruct (Hc _ _ _ E) as [evs [T [F N]]].
  exists evs. split; [exact T|]. split; [exact F|]. intros _ Hpre.
  assert (Hcl : close_read s') by (apply (close_read_ext s s' evs T); auto).
  split; [contradiction | auto].
Qed.

Lemma tg_weaken A (pre pre' : Prop) (c : M A) (post post' : A -> Prop) :
  teardown_guarded pre c post -> (pre -> pre') -> (forall a, post' a -> post a) ->
  teardown_guarded pre' c post'.
Proof.
  intros Hc Hpre Hpost s r s' E. destruct (Hc _ _ _ E) as [evs [T [F G]]].
  exists evs. split; [exact T|]. split; [exact F|]. intros Hrr Hp.
  destruct (G Hrr) as [G1 G2]; [auto|]. split; [exact G1 | eauto].
Qed.

Lemma tg_bind A B pre (c : M A) (postc : A -> Prop) (k : A -> M B) (post : B -> Prop) :
  teardown_guarded pre c postc ->
  (forall a, teardown_guarded (pre \/ postc a) (k a) post) ->
  teardown_guarded pre (bind c k) post.
Proof.
  intros Hc Hk s r s'. unfold bind. destruct (c s) as [[a|e|] s1] eqn:E.
  - intros H. destruct (Hc _ _ _ E) as [e1 [T1 [F1 G1]]].
    destruct (Hk a _ _ _ H) as [e2 [T2 [F2 G2]]].
    exists (e1 ++ e2). split; [now rewrite T2, T1, app_assoc|].
    split; [congruence|]. intros Hrr Hpre.
    destruct (G1 Hrr Hpre) as [N1 P1].
    destruct G2 as [N2 P2]; [congruence | |].
    { intros [Hp|Hp]; [apply (close_read_ext s s1 e1 T1); auto | eauto]. }
    split; [|exact P2].
    intros Hn. apply no_teardown_app; [|auto].
    apply N1. intros Hc1. apply Hn. now apply (close_read_ext s1 s' e2 T2).
  - intros [= <- <-]. destruct (Hc _ _ _ E) as [e1 [T1 [F1 G1]]].
    exists e1. split; [exact T1|]. split; [exact F1|]. intros Hrr Hpre.
    destruct (G1 Hrr Hpre) as [N1 _]. split; [exact N1 | discriminate].
  - intros [= <- <-]. destruct (Hc _ _ _ E) as [e1 [T1 [F1 G1]]].
    exists e1. split; [exact T1|]. split; [exact F1|]. intros Hrr Hpre.
    destruct (G1 Hrr Hpre) as [N1 _]. split; [exact N1 | discriminate].
Qed.

(** Sequencing after a call that tears nothing down and tells nothing
    about [CLOSE]. *)
Lemma tg_bind_plain A B pre (c : M A) (k : A -> M B) (post : B -> Prop) :
  adds_only not_teardown c ->
  (forall a, teardown_guarded pre (k a) post) ->
  teardown_guarded pre (bind c k) post.
Proof.
  intros Hc Hk. apply tg_bind with (postc := fun _ => False).
  - apply tg_plain; [exact Hc | intros _ []].
  - intros a. apply tg_weaken with (pre := pre) (post := post); auto.
Qed.

Lemma tg_catch_stop A pre (c : M A) (post : A -> Prop) :
  teardown_guarded pre c post ->
  teardown_guarded pre (catch_stop c)
    (fun o => match o with Some a => post a | None => False end).
Proof.
  intros Hc s r s'. unfold catch_stop. destruct (c s) as [r1 s1] eqn:E.
  destruct (Hc _ _ _ E) as [e1 [T1 [F1 G1]]]. intros H.
  assert (Hs : s' = s1) by (destruct r1 as [a|[]|]; congruence). subst s'.
  exists e1. split; [exact T1|]. split; [exact F1|]. intros Hrr Hpre.
  destruct (G1 Hrr Hpre) as [N1 P1]. split; [exact N1|].
  intros [a|] Hr Hp; [|contradiction].
  apply (P1 a); [|exact Hp]. destruct r1 as [a'|[]|]; congruence.
Qed.

Lemma tg_ret A pre (a : A) (post : A -> Prop) :
  (post a -> pre) -> teardown_guarded pre (ret a) post.
Proof.
  intros Hp s r s' [= <- <-]. exists []. rewrite app_nil_r.
  split; [reflexivity|]. split; [reflexivity|]. intros _ Hpre. split.
  - intros _ e [].
  - intros a' [= <-] Ha. auto.
Qed.

Lemma tg_raise A pre e (post : A -> Prop) : teardown_guarded pre (raise e) post.
Proof.
  intros s r s' [= <- <-]. exists []. rewrite app_nil_r.
  split; [reflexivity|]. split; [reflexivity|]. intros _ Hpre. split.
  - intros _ x [].
  - discriminate.
Qed.

Lemma tg_timeout A pre (post : A -> Prop) : teardown_guarded pre timeout post.
Proof.
  intros s r s' [= <- <-]. exists []. rewrite app_nil_r.
  split; [reflexivity|]. split; [reflexivity|]. intros _ Hpre. split.
  - intros _ x [].
  - discriminate.
Qed.

Ltac plain_calls :=
  repeat first
    [ apply adds_only_read_job_conf
    | apply adds_only_setup_record_writer
    | apply adds_only_set_input_types
    | apply adds_only_verify_digest; auto; fail
    | apply adds_only_call_map; auto; fail
    | progress quiet ].

(** Straight-line code that tears nothing down. *)
Ltac guarded :=
  repeat first
    [ apply tg_raise
    | apply tg_timeout
    | apply tg_ret; simpl; first [tauto | discriminate | intros; lia]
    | apply tg_bind_plain; [plain_calls; fail | intros]
    | match goal with
      | |- teardown_guarded _ (match ?x with _ => _ end) _ => destruct x
      end ].

Section GuardedGrouping.

Variable next_self : M (option item).
Hypothesis next_self_guarded :
  teardown_guarded False next_self
    (fun o => match o with Some it => fst it = CLOSE_code | None => False end).

Lemma tg_groupby_step g :
  teardown_guarded False (groupby_step next_self g)
    (fun o => match o with Some g' => key_is_close g' | None => False end).
Proof.
  unfold groupby_step.
  eapply tg_bind; [apply tg_catch_stop, next_self_guarded|].
  intros [[it|]|]; guarded.
  apply tg_ret. unfold key_is_close. simpl. intros [= H]. now right.
Qed.

Lemma tg_groupby_next n : forall g,
  teardown_guarded (key_is_close g) (groupby_next next_self n g)
    (fun o => match o with
              | Some (ck, g') => ck = CLOSE_code \/ key_is_close g'
              | None => False
              end).
Proof.
  induction n as [|n IH]; intros g; simpl.
  - unfold key_is_close. destruct (currkey g) as [ck|]; [|guarded].
    destruct (tgtkey g) as [tk|]; [destruct (tk =? ck)%Z|]; guarded;
      apply tg_ret; simpl; intros [->|[= ->]]; reflexivity.
  - assert (Hskip : teardown_guarded (key_is_close g)
                      (o <- groupby_step next_self g;;
                       match o with
                       | Some g' => groupby_next next_self n g'
                       | None => ret None
                       end)
                      (fun o => match o with
                                | Some (ck, g') => ck = CLOSE_code \/ key_is_close g'
                                | None => False
                                end)).
    { eapply tg_bind.
      - eapply tg_weaken; [apply tg_groupby_step | intros [] | intros a H; exact H].
      - intros [g'|]; [|guarded].
        eapply tg_weaken; [apply IH | tauto | intros a H; exact H]. }
    unfold key_is_close in *. destruct (currkey g) as [ck|]; [|exact Hskip].
    destruct (tgtkey g) as [tk|]; [destruct (tk =? ck)%Z; [exact Hskip|]|];
      guarded; apply tg_ret; simpl; intros [->|[= ->]]; reflexivity.
Qed.

Lemma tg_grouper_next g :
  teardown_guarded (key_is_close g) (grouper_next next_self g)
    (fun og => key_is_close (snd og)).
Proof.
  unfold grouper_next.
  apply tg_bind with (postc := fun o => match o with
                                        | Some g' => key_is_close g'
                                        | None => False
                                        end).
  - destruct (currvalue g).
    + apply tg_ret. tauto.
    + eapply tg_weaken; [apply tg_groupby_step | intros [] | intros a H; exact H].
  - intros [g'|]; [|apply tg_ret; simpl; tauto].
    unfold key_is_close.
    destruct (tgtkey g') as [tk|]; [|apply tg_ret; simpl; tauto].
    destruct (currkey g') as [ck|] eqn:Hck; [|apply tg_ret; simpl; rewrite ?Hck; tauto].
    destruct (currvalue g') as [it|]; [|apply tg_ret; simpl; rewrite ?Hck; tauto].
    destruct (tk =? ck)%Z; apply tg_ret; simpl; rewrite ?Hck; tauto.
Qed.

Lemma tg_run_reduce n : forall r k seen ended g,
  teardown_guarded (key_is_close g) (run_reduce next_self n r k seen ended g) key_is_close.
Proof.
  induction n as [|n IH]; intros r k seen ended g; simpl.
  - destruct (reducer_reduce r k seen ended); guarded.
  - destruct (reducer_reduce r k seen ended); [|guarded|guarded].
    destruct ended; [apply IH|].
    eapply tg_bind; [apply tg_grouper_next|].
    intros og. destruct (fst og).
    + apply tg_bind_plain; [quiet | intros _].
      eapply tg_weaken; [apply IH | tauto | intros a H; exact H].
    + eapply tg_weaken; [apply IH | tauto | intros a H; exact H].
Qed.

Lemma tg_reduce_body n cmd g :
  teardown_guarded (cmd = CLOSE_code \/ key_is_close g)
    (reduce_body next_self n cmd g) key_is_close.
Proof.
  unfold reduce_body.
  apply tg_bind with (postc := key_is_close).
  { destruct (cmd =? REDUCE_KEY_code)%Z; [|apply tg_ret; tauto].
    eapply tg_bind.
    - eapply tg_weaken; [apply tg_grouper_next | tauto | intros a H; exact H].
    - intros og. destruct (fst og); [|guarded].
      apply tg_bind_plain; [unfold modify_context; quiet | intros _].
      apply tg_ret. tauto. }
  intros g1. apply tg_bind with (postc := key_is_close).
  { destruct (cmd =? REDUCE_VALUE_code)%Z; [|apply tg_ret; tauto].
    apply tg_bind_plain; [quiet | intros [r|]]; [|guarded].
    apply tg_bind_plain; [quiet | intros k].
    apply tg_bind_plain; [quiet | intros _].
    eapply tg_weaken; [apply tg_run_reduce | tauto | intros a H; exact H]. }
  intros g2. apply tg_bind with (postc := fun _ => False).
  - destruct (Z.eqb_spec cmd CLOSE_code) as [->|Hne]; [|guarded].
    eapply tg_weaken;
      [apply (tg_after_close _ _ _ (fun _ => False) adds_only_close_and_stop)
      | auto | intros a H; exact H].
  - intros _. apply tg_ret. tauto.
Qed.

Lemma tg_reduce_loop n : forall g,
  teardown_guarded (key_is_close g) (reduce_loop next_self n g) (fun _ => False).
Proof.
  induction n as [|n IH]; intros g; simpl; [guarded|].
  eapply tg_bind; [apply tg_groupby_next|].
  intros [[cmd g1]|]; [|guarded].
  eapply tg_bind.
  - eapply tg_weaken; [apply tg_reduce_body | tauto | intros a H; exact H].
  - intros g2. eapply tg_weaken; [apply IH | tauto | intros a H; exact H].
Qed.

Lemma tg_run_reduce_task n part piped_output :
  teardown_guarded False (run_reduce_task next_self n part piped_output)
    (fun o => match o with Some it => fst it = CLOSE_code | None => False end).
Proof.
  unfold run_reduce_task.
  apply tg_bind_plain; [unfold create_reducer, modify_context; quiet | intros _].
  apply tg_bind_plain; [apply adds_only_setup_record_writer | intros _].
  apply tg_bind_plain; [quiet | intros pe].
  apply tg_bind_plain; [quiet | intros _].
  apply tg_bind with (postc := fun _ => False).
  - eapply tg_weaken; [apply (tg_reduce_loop n groupby_init) | | intros a H; exact H].
    unfold key_is_close. discriminate.
  - intros _. guarded.
Qed.

End GuardedGrouping.

Section Guarded.

Variable create_digest : string -> string -> string.
Variables mrv1_to_mrv2 mrv2_to_mrv1 : PyDict.t.

Lemma tg_run_map_without_reader n piped_input :
  teardown_guarded False (run_map_with None n piped_input)
    (fun o => match o with Some it => fst it = CLOSE_code | None => False end).
Proof.
  unfold run_map_with.
  destruct (is_some None && truthy piped_input); [guarded|].
  destruct (negb (is_some None) && negb (truthy piped_input)); [guarded|].
  apply tg_bind_plain; [|intros _].
  { destruct (n <? 1)%Z; [|quiet].
    apply adds_only_bind; [quiet | intros _].
    apply adds_only_bind; [unfold job_conf_get_bool; quiet | intros b].
    apply adds_only_setup_record_writer. }
  apply tg_bind_plain; [unfold modify_context; quiet | intros _].
  apply tg_bind_plain; [unfold create_mapper, modify_context; quiet | intros _].
  apply tg_bind_plain; [unfold create_partitioner, modify_context; quiet | intros _].
  apply tg_ret. tauto.
Qed.

(** With no record reader class, [RUN_MAP] creates no reader and leaves
    the pull path alone. *)
Lemma tg_run_map split n piped_input :
  teardown_guarded False (run_map split n piped_input)
    (fun o => match o with Some it => fst it = CLOSE_code | None => False end).
Proof.
  intros s r s' E.
  destruct (adds_only_run_map split n piped_input _ _ _ E) as [evs [T [F _]]].
  exists evs. split; [exact T|]. split; [exact F|]. intros Hrr _.
  pose (s1 := with_context s
                (ctx_with_record_reader (ctx_with_input_split (context s) split)
                                        (rrclass (factory (context s))))).
  assert (E1 : run_map_with None n piped_input s1 = (r, s')).
  { rewrite <- E. unfold s1. rewrite <- Hrr at 1. reflexivity. }
  destruct (tg_run_map_without_reader n piped_input _ _ _ E1) as [evs1 [T1 [_ G1]]].
  assert (Hevs : evs1 = evs).
  { apply (app_inv_head (trace s)). rewrite <- T. symmetry. exact T1. }
  subst evs1. apply G1; [exact Hrr | intros []].
Qed.

Lemma tg_read_command :
  teardown_guarded False read_command (fun c => c = CLOSE).
Proof.
  intros s r s'. unfold read_command. destruct (stream s) as [|c rest].
  - intros [= <- <-]. exists []. rewrite app_nil_r.
    split; [reflexivity|]. split; [reflexivity|]. intros _ _.
    split; [intros _ e [] | discriminate].
  - intros [= <- <-]. exists [EvRead c].
    split; [reflexivity|]. split; [reflexivity|]. intros _ _. split.
    + intros _ e [<-|[]]. reflexivity.
    + intros a [= <-] ->. unfold close_read. simpl. apply in_or_app. right. now left.
Qed.

Lemma tg_next n :
  teardown_guarded False (next_ create_digest mrv1_to_mrv2 mrv2_to_mrv1 n)
    (fun o => match o with Some it => fst it = CLOSE_code | None => False end).
Proof.
  induction n as [|n IH]; [simpl; guarded|].
  cbn [next_]. eapply tg_bind; [apply tg_read_command|].
  intros c. apply tg_bind_plain; [quiet | intros authenticated].
  destruct (negb (opcode c =? AUTHENTICATION_REQ_code)%Z && negb authenticated);
    [guarded|].
  destruct c.
  - guarded.
  - guarded. 
  - guarded.
  - eapply tg_weaken; [apply tg_run_map | tauto | intros a H; exact H].
  - unfold modify_context. guarded.
  - eapply tg_weaken;
      [apply (tg_run_reduce_task _ IH) | tauto | intros a H; exact H].
  - apply tg_ret. simpl. discriminate.
  - apply tg_ret. simpl. discriminate.
  - apply tg_bind_plain; [quiet | intros m].
    destruct (is_some m).
    + apply tg_bind with (postc := fun _ => False); [|intros _; guarded].
      eapply tg_weaken;
        [apply (tg_after_close _ _ _ (fun _ => False) adds_only_close_and_stop)
        | auto | intros a H; exact H].
    + apply tg_ret. auto.
  - guarded.
  - guarded.
  - guarded.
Qed.

Lemma tg_downlink_loop n :
  teardown_guarded False (downlink_loop create_digest mrv1_to_mrv2 mrv2_to_mrv1 n)
    (fun _ => False).
Proof.
  induction n as [|n IH]; simpl; [guarded|].
  eapply tg_bind; [apply tg_catch_stop, tg_next|].
  intros [o|]; [|guarded].
  eapply tg_weaken; [apply IH | tauto | intros a H; exact H].
Qed.


End Guarded.

(** ** Concrete runs *)

Lemma reduce_grouping_witness :
  exists st' evs,
    next_ sample_digest sample_mrv1_to_mrv2 sample_mrv2_to_mrv1 12
      (sample_state sample_factory None
         [RUN_REDUCE 0 1; REDUCE_KEY (PyBytes "k1"); REDUCE_VALUE (PyBytes "v1");
          REDUCE_VALUE (PyBytes "v2"); REDUCE_KEY (PyBytes "k2");
          REDUCE_VALUE (PyBytes "v3"); CLOSE])
    = (Exc StopIteration, st')
    /\ stream st' = []
    /\ trace st' = [] ++ evs
    /\ evs = [EvRead (RUN_REDUCE 0 1);
              EvRead (REDUCE_KEY (PyBytes "k1")); EvRead (REDUCE_VALUE (PyBytes "v1"));
              EvReduce (PyBytes "k1"); EvValue (PyBytes "v1");
              EvRead (REDUCE_VALUE (PyBytes "v2")); EvValue (PyBytes "v2");
              EvRead (REDUCE_KEY (PyBytes "k2")); EvRead (REDUCE_VALUE (PyBytes "v3"));
              EvReduce (PyBytes "k2"); EvValue (PyBytes "v3"); EvRead CLOSE]
             ++ map EvClose (closed_components (context st') teardown_order)
             ++ [EvUp DONE]
    /\ reduce_calls evs
       = [(PyBytes "k1", [PyBytes "v1"; PyBytes "v2"]); (PyBytes "k2", [PyBytes "v3"])]
    /\ count_done evs = 1.
Proof.
  apply (reduce_grouping sample_digest sample_mrv1_to_mrv2 sample_mrv2_to_mrv1
           (sample_state sample_factory None
              [RUN_REDUCE 0 1; REDUCE_KEY (PyBytes "k1"); REDUCE_VALUE (PyBytes "v1");
               REDUCE_VALUE (PyBytes "v2"); REDUCE_KEY (PyBytes "k2");
               REDUCE_VALUE (PyBytes "v3"); CLOSE])
           0%Z 1%Z (PyBytes "k1") (PyBytes "v1") (PyBytes "v2") (PyBytes "k2")
           (PyBytes "v3") [] sample_reducer 0);
    try reflexivity.
  intros k seen. split; reflexivity.
Defined.

Lemma map_pull_path_witness :
  exists st' evs,
    downlink_loop sample_digest sample_mrv1_to_mrv2 sample_mrv2_to_mrv1 2
      (sample_state sample_factory_reader None [RUN_MAP PyNone 2 0; CLOSE])
    = (Val tt, st')
    /\ stream st' = [CLOSE]
    /\ trace st' = [] ++ evs
    /\ evs = EvRead (RUN_MAP PyNone 2 0)
             :: map EvMap_of (reader_records sample_reader)
             ++ map EvClose (closed_components (context st') teardown_order)
             ++ [EvUp DONE]
    /\ map_calls evs = reader_records sample_reader
    /\ count_done evs = 1
    /\ filter is_read evs = [EvRead (RUN_MAP PyNone 2 0)].
Proof.
  apply (map_pull_path sample_digest sample_mrv1_to_mrv2 sample_mrv2_to_mrv1
           (sample_state sample_factory_reader None [RUN_MAP PyNone 2 0; CLOSE])
           PyNone 2%Z 0%Z [CLOSE] sample_reader 0);
    try reflexivity.
  - intros H. discriminate H.
Defined.

Lemma authentication_witness :
  let digest := sample_digest "secret" "challenge" in
  let st := BinaryProtocol_init [AUTHENTICATION_REQ digest "challenge"]
              (Context_init sample_factory) default_kwargs (Some "secret") in
  let read := with_trace (with_stream st [])
                (trace st ++ [EvRead (AUTHENTICATION_REQ digest "challenge")]) in
  next_ sample_digest sample_mrv1_to_mrv2 sample_mrv2_to_mrv1 1 st
  = (Val None,
     with_auth_done
       (with_trace read
          (trace read ++ [EvUp (AUTHENTICATION_RESP (sample_digest "secret" digest))]))
       true).
Proof.
  intros digest st read.
  exact (proj1 (authentication sample_digest sample_mrv1_to_mrv2 sample_mrv2_to_mrv1
                  st "secret" digest "challenge" [] 0 eq_refl eq_refl) eq_refl).
Defined.

(** A wrong digest is refused and nothing is written. *)
Example authentication_refused :
  let st := BinaryProtocol_init [AUTHENTICATION_REQ "forged" "challenge"]
              (Context_init sample_factory) default_kwargs (Some "secret") in
  next_ sample_digest sample_mrv1_to_mrv2 sample_mrv2_to_mrv1 1 st
  = (Exc (RuntimeError "server failed to authenticate"),
     with_trace (with_stream st [])
       [EvRead (AUTHENTICATION_REQ "forged" "challenge")]).
Proof. reflexivity. Qed.

Lemma Context_close_teardown_witness :
  exists closed later r,
    Context_close (sample_state sample_factory None [])
    = (r, with_trace (sample_state sample_factory None [])
            ([] ++ map EvClose closed ++ [EvUp DONE]))
    /\ filter (present (context (sample_state sample_factory None [])))
              teardown_order = closed ++ later.
Proof.
  destruct (Context_close_teardown (sample_state sample_factory None []))
    as [closed [later [r [H1 [H2 _]]]]].
  exists closed, later, r. split; assumption.
Defined.


(** The values of a group are read off the stream only as the reducer
    asks for them: a reducer that reads none is still called once per key,
    and the loop skips what it left. *)
Example reduce_without_reading :
  let res := downlink_loop sample_digest sample_mrv1_to_mrv2 sample_mrv2_to_mrv1 20
               (sample_state sample_factory_idle None
                  [RUN_REDUCE 0 1; REDUCE_KEY (PyBytes "k1");
                   REDUCE_VALUE (PyBytes "v1"); REDUCE_VALUE (PyBytes "v2");
                   REDUCE_KEY (PyBytes "k2"); REDUCE_VALUE (PyBytes "v3"); CLOSE]) in
  fst res = Val tt
  /\ trace (snd res)
     = [EvRead (RUN_REDUCE 0 1); EvRead (REDUCE_KEY (PyBytes "k1"));
        EvRead (REDUCE_VALUE (PyBytes "v1")); EvReduce (PyBytes "k1");
        EvRead (REDUCE_VALUE (PyBytes "v2")); EvRead (REDUCE_KEY (PyBytes "k2"));
        EvRead (REDUCE_VALUE (PyBytes "v3")); EvReduce (PyBytes "k2");
        EvRead CLOSE; EvClose CReducer; EvUp DONE].
Proof. vm_compute. split; reflexivity. Qed.

(** [ABORT] met while the reducer reads its values ends the run there. *)
Example abort_inside_a_group :
  let res := downlink_loop sample_digest sample_mrv1_to_mrv2 sample_mrv2_to_mrv1 20
               (sample_state sample_factory None
                  [RUN_REDUCE 0 1; REDUCE_KEY (PyBytes "k1");
                   REDUCE_VALUE (PyBytes "v1"); ABORT; CLOSE]) in
  fst res = Exc (RuntimeError "received ABORT command")
  /\ trace (snd res)
     = [EvRead (RUN_REDUCE 0 1); EvRead (REDUCE_KEY (PyBytes "k1"));
        EvRead (REDUCE_VALUE (PyBytes "v1")); EvReduce (PyBytes "k1");
        EvValue (PyBytes "v1"); EvRead ABORT]
  /\ stream (snd res) = [CLOSE].
Proof. vm_compute. repeat split; reflexivity. Qed.

(** [SET_JOB_CONF] as these sources have it: [read_job_conf] hands
    [JobConf] a generator, and [JobConf.__init__] asks for its length. *)
Lemma set_job_conf_raises create_digest mrv1_to_mrv2 mrv2_to_mrv1 n st items rest :
  stream st = SET_JOB_CONF items :: rest -> auth_done st = true ->
  exists e,
    next_ create_digest mrv1_to_mrv2 mrv2_to_mrv1 (S n) st
    = (Exc e, after_read st (SET_JOB_CONF items) rest).
Proof.
  intros Hs Ha. cbn [next_]. unfold bind at 1. unfold read_command. rewrite Hs.
  unfold bind at 1. unfold gets at 1. cbn [auth_done with_trace with_stream].
  rewrite Ha. cbn [negb andb opcode Z.eqb AUTHENTICATION_REQ_code].
  unfold bind at 1. unfold read_job_conf.
  destruct (Nat.odd (List.length items)); eexists; reflexivity.
Qed.

(* ===================================================================== *)
(** * Further properties of the code *)
(* ===================================================================== *)

(** ** The reduce loop on any input *)

Section GroupingGeneral.

Variable next_self : M (option item).
Hypothesis next_item : forall st c rest it,
  stream st = c :: rest -> auth_done st = true -> mapper (context st) = None ->
  item_of c = Some it ->
  next_self st = (Val (Some it), after_read st c rest).

Lemma groupby_step_item g st c rest it :
  stream st = c :: rest -> auth_done st = true -> mapper (context st) = None ->
  item_of c = Some it ->
  groupby_step next_self g st
  = (Val (Some {| tgtkey := tgtkey g; currkey := Some (fst it); currvalue := Some it |}),
     after_read st c rest).
Proof.
  intros Hs Ha Hm Hi. unfold groupby_step, bind, catch_stop.
  rewrite (next_item st c rest it Hs Ha Hm Hi). reflexivity.
Qed.

Lemma groupby_next_pending n tgt it st :
  tgt <> Some (fst it) ->
  groupby_next next_self n (pending tgt it) st
  = (Val (Some (fst it, pending (Some (fst it)) it)), st).
Proof.
  intros Hne. destruct n; cbn [groupby_next pending tgtkey currkey currvalue];
    (destruct tgt as [tk|]; [|reflexivity]);
    (destruct (Z.eqb_spec tk (fst it)) as [->|_]; [congruence | reflexivity]).
Qed.

Lemma after_read_again st c cs rest evs :
  with_trace (with_stream (after_read st c (cs ++ rest)) rest)
    (trace (after_read st c (cs ++ rest)) ++ evs)
  = with_trace (with_stream st rest) (trace st ++ EvRead c :: evs).
Proof.
  destruct st. unfold after_read. simpl. rewrite <- app_assoc. reflexivity.
Qed.

(** Skipping what is left of the group of key [tk]. *)
Lemma groupby_next_skip tk cs : forall n g st c it rest,
  tgtkey g = Some tk -> currkey g = Some tk ->
  Forall (fun c' => exists p, item_of c' = Some (tk, p)) cs ->
  stream st = cs ++ c :: rest ->
  auth_done st = true -> mapper (context st) = None ->
  item_of c = Some it -> fst it <> tk ->
  List.length cs < n ->
  groupby_next next_self n g st
  = (Val (Some (fst it, pending (Some (fst it)) it)),
     with_trace (with_stream st rest) (trace st ++ map EvRead cs ++ [EvRead c])).
Proof.
  induction cs as [|c' cs IH]; intros n g st c it rest Ht Hc Hall Hs Ha Hm Hi Hne Hn;
    (destruct n as [|n]; [simpl in Hn; lia|]).
  - destruct g as [tg cg vg]. simpl in Ht, Hc. subst tg cg.
    cbn [groupby_next tgtkey currkey currvalue]. rewrite Z.eqb_refl.
    unfold bind at 1.
    rewrite (groupby_step_item _ st c rest it Hs Ha Hm Hi).
    cbn [tgtkey].
    change {| tgtkey := Some tk; currkey := Some (fst it); currvalue := Some it |}
      with (pending (Some tk) it).
    rewrite groupby_next_pending by congruence. reflexivity.
  - destruct g as [tg cg vg]. simpl in Ht, Hc. subst tg cg.
    inversion Hall as [|? ? [p Hp] Hall']; subst.
    cbn [groupby_next tgtkey currkey currvalue]. rewrite Z.eqb_refl.
    unfold bind at 1.
    rewrite (groupby_step_item _ st c' (cs ++ c :: rest) (tk, p) Hs Ha Hm Hp).
    cbn [tgtkey fst].
    rewrite (IH n _ (after_read st c' (cs ++ c :: rest)) c it rest);
      try assumption; try reflexivity; [|simpl in Hn; lia].
    f_equal.
    change (cs ++ c :: rest) with (cs ++ [c] ++ rest). rewrite app_assoc.
    rewrite after_read_again. reflexivity.
Qed.

Variable r : Reducer.
Hypothesis r_reads_all : reads_all_values r.

(** A reducer that reads every value takes the rest of the run and the
    item after it, which ends the group. *)
Lemma run_reduce_drain k vs : forall n seen st c it rest,
  stream st = map REDUCE_VALUE vs ++ c :: rest ->
  auth_done st = true -> mapper (context st) = None ->
  item_of c = Some it -> fst it <> REDUCE_VALUE_code ->
  List.length vs < n ->
  run_reduce next_self n r k seen false
    {| tgtkey := Some REDUCE_VALUE_code; currkey := Some REDUCE_VALUE_code;
       currvalue := None |} st
  = (Val (pending (Some REDUCE_VALUE_code) it),
     with_trace (with_stream st rest)
       (trace st ++ flat_map read_and_hand vs ++ [EvRead c])).
Proof.
  induction vs as [|v vs IH]; intros n seen st c it rest Hs Ha Hm Hi Hne Hn;
    (destruct n as [|n]; [simpl in Hn; lia|]).
  - cbn [run_reduce]. rewrite (proj1 (r_reads_all k seen)).
    unfold bind at 1. unfold grouper_next. cbn [currvalue]. unfold bind at 1.
    rewrite (groupby_step_item _ st c rest it Hs Ha Hm Hi).
    cbn [tgtkey currkey currvalue fst snd].
    destruct (Z.eqb_spec REDUCE_VALUE_code (fst it)) as [E|_]; [congruence|].
    unfold ret at 1. cbn [fst snd].
    destruct n; cbn [run_reduce]; rewrite (proj2 (r_reads_all k seen)); reflexivity.
  - cbn [run_reduce]. rewrite (proj1 (r_reads_all k seen)).
    unfold bind at 1. unfold grouper_next. cbn [currvalue]. unfold bind at 1.
    rewrite (groupby_step_item _ st (REDUCE_VALUE v) (map REDUCE_VALUE vs ++ c :: rest)
               (REDUCE_VALUE_code, v) Hs Ha Hm eq_refl).
    cbn [tgtkey currkey currvalue fst snd]. rewrite Z.eqb_refl.
    unfold ret at 1. cbn [fst snd]. unfold bind at 1. unfold log, modify.
    rewrite (IH n (seen ++ [v]) _ c it rest);
      try assumption; try reflexivity; [|simpl in Hn; lia].
    f_equal. destruct st. unfold after_read. simpl.
    rewrite <- !app_assoc. reflexivity.
Qed.

Lemma reduce_loop_S n g st :
  reduce_loop next_self (S n) g st
  = match groupby_next next_self n g st with
    | (Val (Some (cmd, g1)), s1) =>
        match reduce_body next_self n cmd g1 s1 with
        | (Val g2, s2) => reduce_loop next_self n g2 s2
        | (Exc e, s2) => (Exc e, s2)
        | (Timeout, s2) => (Timeout, s2)
        end
    | (Val None, s1) => (Val tt, s1)
    | (Exc e, s1) => (Exc e, s1)
    | (Timeout, s1) => (Timeout, s1)
    end.
Proof.
  cbn [reduce_loop]. unfold bind at 1.
  destruct (groupby_next next_self n g st) as [[[[cmd g1]|]|e|] s1]; reflexivity.
Qed.

(** The body of the loop for a group of keys: the first key is stored. *)
Lemma reduce_body_key n k st :
  reduce_body next_self n REDUCE_KEY_code (pending (Some REDUCE_KEY_code) (REDUCE_KEY_code, k)) st
  = (Val {| tgtkey := Some REDUCE_KEY_code; currkey := Some REDUCE_KEY_code;
            currvalue := None |},
     with_context st (ctx_with_key (context st) k)).
Proof. reflexivity. Qed.

(** The body of the loop for a group of values: one [reduce] call that
    takes the whole run. *)
Lemma reduce_body_values n v vs st c it rest :
  stream st = map REDUCE_VALUE vs ++ c :: rest ->
  auth_done st = true -> mapper (context st) = None ->
  reducer (context st) = Some r ->
  item_of c = Some it -> fst it <> REDUCE_VALUE_code ->
  List.length vs < n ->
  reduce_body next_self (S n) REDUCE_VALUE_code
    (pending (Some REDUCE_VALUE_code) (REDUCE_VALUE_code, v)) st
  = (Val (pending (Some REDUCE_VALUE_code) it),
     with_trace (with_stream st rest)
       (trace st ++ EvReduce (key (context st)) :: EvValue v
        :: flat_map read_and_hand vs ++ [EvRead c])).
Proof.
  intros Hs Ha Hm Hr Hi Hne Hn.
  unfold reduce_body.
  change (REDUCE_VALUE_code =? REDUCE_KEY_code)%Z with false.
  change (REDUCE_VALUE_code =? REDUCE_VALUE_code)%Z with true.
  change (REDUCE_VALUE_code =? CLOSE_code)%Z with false.
  cbv iota. unfold bind at 1. unfold ret at 1. unfold bind at 1. unfold bind at 1.
  unfold gets at 1. rewrite Hr. unfold bind at 1. unfold gets at 1.
  unfold bind at 1. unfold log at 1, modify at 1.
  cbn [run_reduce]. rewrite (proj1 (r_reads_all _ [])).
  unfold bind at 1. unfold grouper_next. unfold bind at 1.
  cbn [pending currvalue tgtkey currkey fst snd]. unfold ret at 1.
  cbn [pending currvalue tgtkey currkey fst snd]. rewrite Z.eqb_refl.
  unfold ret at 1. cbn [fst snd]. unfold bind at 1. unfold log at 1, modify at 1.
  rewrite (run_reduce_drain _ vs n _ _ c it rest);
    try assumption; try reflexivity.
  unfold bind, ret. f_equal. destruct st. simpl. rewrite <- !app_assoc. reflexivity.
Qed.

Lemma reduce_body_close n g st :
  reduce_body next_self n CLOSE_code g st
  = (Exc StopIteration,
     with_trace st (trace st
                    ++ map EvClose (closed_components (context st) teardown_order)
                    ++ [EvUp DONE])).
Proof.
  unfold reduce_body.
  change (CLOSE_code =? REDUCE_KEY_code)%Z with false.
  change (CLOSE_code =? REDUCE_VALUE_code)%Z with false.
  change (CLOSE_code =? CLOSE_code)%Z with true.
  cbv iota. unfold bind at 1. unfold ret at 1. unfold bind at 1. unfold ret at 1.
  unfold bind at 1. rewrite close_and_stop_run. reflexivity.
Qed.

Lemma reduce_loop_skip tk cs n g st c it rest :
  tgtkey g = Some tk -> currkey g = Some tk ->
  Forall (fun c' => exists p, item_of c' = Some (tk, p)) cs ->
  stream st = cs ++ c :: rest ->
  auth_done st = true -> mapper (context st) = None ->
  item_of c = Some it -> fst it <> tk ->
  List.length cs < n ->
  reduce_loop next_self (S n) g st
  = reduce_loop next_self (S n) (pending (Some tk) it)
      (with_trace (with_stream st rest) (trace st ++ map EvRead cs ++ [EvRead c])).
Proof.
  intros Ht Hc Hall Hs Ha Hm Hi Hne Hn.
  rewrite !reduce_loop_S.
  rewrite (groupby_next_skip tk cs n g st c it rest Ht Hc Hall Hs Ha Hm Hi Hne Hn).
  rewrite groupby_next_pending by congruence. reflexivity.
Qed.

Lemma item_of_first rs : item_of (first_command rs) = Some (first_item rs).
Proof. destruct rs as [|[] rs]; reflexivity. Qed.

Lemma alternating_tail x rs : alternating (x :: rs) = true -> alternating rs = true.
Proof. cbn [alternating]. intros H. apply andb_prop in H. tauto. Qed.

Lemma alternating_keys k more rs :
  alternating (Keys k more :: rs) = true -> fst (first_item rs) <> REDUCE_KEY_code.
Proof. destruct rs as [|[] rs]; simpl; intros H; discriminate. Qed.

Lemma alternating_values v more rs :
  alternating (Values v more :: rs) = true -> fst (first_item rs) <> REDUCE_VALUE_code.
Proof. destruct rs as [|[] rs]; simpl; intros H; discriminate. Qed.

Lemma Forall_keys more :
  Forall (fun c' => exists p, item_of c' = Some (REDUCE_KEY_code, p)) (map REDUCE_KEY more).
Proof. induction more; constructor; [eexists; reflexivity | assumption]. Qed.

(** The loop from the point where the first command has been read. *)
Lemma reduce_loop_runs rs : forall n tgt st rest,
  alternating rs = true ->
  tgt <> Some (fst (first_item rs)) ->
  stream st = rest_commands rs ++ rest ->
  auth_done st = true -> mapper (context st) = None ->
  reducer (context st) = Some r ->
  2 * List.length (rest_commands rs) + 3 <= n ->
  reduce_loop next_self n (pending tgt (first_item rs)) st
  = (Exc StopIteration,
     with_trace
       (with_stream
          (with_context st (ctx_with_key (context st) (last_key (key (context st)) rs)))
          rest)
       (trace st ++ events_after_first (key (context st)) rs
        ++ map EvClose (closed_components (context st) teardown_order)
        ++ [EvUp DONE])).
Proof.
  induction rs as [|[k more|v more] rs IH]; intros n tgt st rest Halt Htgt Hs Ha Hm Hr Hn.
  - destruct n as [|n]; [lia|]. rewrite reduce_loop_S.
    rewrite groupby_next_pending by exact Htgt.
    cbn [first_item fst]. rewrite reduce_body_close.
    destruct st as [str ctx pe au rs rk rv pw ad gk gv tr].
    destruct ctx as [f jc isp k v m p rr rw rd nr].
    simpl in Hs. subst str. reflexivity.
  - cbn [rest_commands] in Hs, Hn. rewrite length_app in Hn. cbn [List.length] in Hn.
    rewrite length_map in Hn.
    destruct n as [|[|n]]; [lia|lia|]. rewrite reduce_loop_S.
    rewrite groupby_next_pending by exact Htgt.
    cbn [first_item fst]. rewrite reduce_body_key.
    rewrite <- app_assoc in Hs.
    rewrite (reduce_loop_skip REDUCE_KEY_code (map REDUCE_KEY more) n _ _
               (first_command rs) (first_item rs) (rest_commands rs ++ rest));
      try reflexivity; try assumption;
      [ | apply Forall_keys | apply item_of_first
        | apply (alternating_keys k more rs Halt) | rewrite length_map; lia ].
    rewrite (IH (S n) (Some REDUCE_KEY_code) _ rest);
      try reflexivity; try assumption;
      [ | apply (alternating_tail _ _ Halt)
        | intros [= E]; apply (alternating_keys k more rs Halt); symmetry; exact E
        | lia ].
    f_equal.
    destruct st as [str ctx pe au rs0 rk rv pw ad gk gv tr].
    destruct ctx as [f jc isp k0 v m p rr rw rd nr].
    simpl. rewrite <- !app_assoc. reflexivity.
  - cbn [rest_commands] in Hs, Hn. rewrite length_app in Hn. cbn [List.length] in Hn.
    rewrite length_map in Hn.
    destruct n as [|[|n]]; [lia|lia|]. rewrite reduce_loop_S.
    rewrite groupby_next_pending by exact Htgt.
    cbn [first_item fst].
    rewrite <- app_assoc in Hs.
    rewrite (reduce_body_values n v more st (first_command rs) (first_item rs)
               (rest_commands rs ++ rest) Hs Ha Hm Hr (item_of_first rs)
               (alternating_values v more rs Halt));
      [|lia].
    rewrite (IH (S n) (Some REDUCE_VALUE_code) _ rest);
      try reflexivity; try assumption;
      [ | apply (alternating_tail _ _ Halt)
        | intros [= E]; apply (alternating_values v more rs Halt); symmetry; exact E
        | lia ].
    f_equal.
    destruct st as [str ctx pe au rs0 rk rv pw ad gk gv tr].
    destruct ctx as [f jc isp k0 v0 m p rr rw rd nr].
    cbn -[closed_components flat_map]. rewrite <- !app_assoc.
    cbn -[closed_components flat_map]. rewrite <- !app_assoc. reflexivity.
Qed.

(** The first round of the loop reads the first command. *)
Lemma reduce_loop_start n st c it rest :
  stream st = c :: rest ->
  auth_done st = true -> mapper (context st) = None ->
  item_of c = Some it ->
  reduce_loop next_self (S (S n)) groupby_init st
  = reduce_loop next_self (S (S n)) (pending None it) (after_read st c rest).
Proof.
  intros Hs Ha Hm Hi. rewrite !reduce_loop_S.
  rewrite (groupby_next_pending (S n) None it) by discriminate.
  cbn [groupby_next groupby_init tgtkey currkey currvalue].
  unfold bind at 1. rewrite (groupby_step_item _ st c rest it Hs Ha Hm Hi).
  cbn [tgtkey groupby_init].
  change {| tgtkey := None; currkey := Some (fst it); currvalue := Some it |}
    with (pending None it).
  rewrite groupby_next_pending by discriminate. reflexivity.
Qed.

End GroupingGeneral.

Lemma commands_first_rest rs :
  List.concat (map run_commands rs) ++ [CLOSE] = first_command rs :: rest_commands rs.
Proof.
  induction rs as [|[k more|v more] rs IH]; [reflexivity| |];
    cbn [map List.concat run_commands rest_commands first_command app];
    rewrite <- app_assoc, IH; reflexivity.
Qed.

Lemma events_first_rest key rs :
  reduce_events key rs ++ [EvRead CLOSE]
  = EvRead (first_command rs) :: events_after_first key rs.
Proof.
  revert key. induction rs as [|[k more|v more] rs IH]; intros key; [reflexivity| |];
    cbn [reduce_events events_after_first first_command app];
    rewrite <- ?app_assoc, IH; reflexivity.
Qed.

Lemma values_handed_reads cs t :
  values_handed (map EvRead cs ++ t) = values_handed t.
Proof. induction cs; simpl; auto. Qed.

Lemma reduce_calls_reads cs t :
  reduce_calls (map EvRead cs ++ t) = reduce_calls t.
Proof. induction cs; simpl; auto. Qed.

Lemma values_handed_hand vs t :
  values_handed (flat_map read_and_hand vs ++ t) = vs ++ values_handed t.
Proof. induction vs as [|v vs IH]; simpl; [reflexivity | now rewrite IH]. Qed.

Lemma reduce_calls_hand vs t :
  reduce_calls (flat_map read_and_hand vs ++ t) = reduce_calls t.
Proof. induction vs as [|v vs IH]; simpl; auto. Qed.

Lemma values_handed_reduce_events rs : forall key t,
  values_handed t = [] ->
  values_handed (reduce_events key rs ++ t) = [].
Proof.
  induction rs as [|[k more|v more] rs IH]; intros key t Ht; [exact Ht| |reflexivity].
  cbn [reduce_events app values_handed]. rewrite <- app_assoc, values_handed_reads.
  apply IH, Ht.
Qed.

Lemma reduce_calls_reduce_events rs : forall key t,
  values_handed t = [] -> reduce_calls t = [] ->
  reduce_calls (reduce_events key rs ++ t) = expected_reduce_calls key rs.
Proof.
  induction rs as [|[k more|v more] rs IH]; intros key t Hv Hc; [exact Hc| |].
  - cbn [reduce_events app reduce_calls expected_reduce_calls].
    rewrite <- app_assoc, reduce_calls_reads. apply IH; assumption.
  - cbn [reduce_events app reduce_calls values_handed expected_reduce_calls].
    rewrite <- !app_assoc, values_handed_hand, reduce_calls_hand.
    rewrite values_handed_reduce_events by exact Hv.
    rewrite app_nil_r, IH by assumption. reflexivity.
Qed.

Lemma filter_is_done_reduce_events rs : forall key t,
  filter is_done (reduce_events key rs ++ t) = filter is_done t.
Proof.
  induction rs as [|[k more|v more] rs IH]; intros key t; [reflexivity| |].
  - cbn [reduce_events app filter is_done]. rewrite <- app_assoc, filter_app.
    rewrite IH. replace (filter is_done (map EvRead (map REDUCE_KEY more))) with (@nil event);
      [reflexivity|]. induction more; simpl; auto.
  - cbn [reduce_events app filter is_done]. rewrite <- app_assoc, filter_app.
    rewrite IH. replace (filter is_done (flat_map read_and_hand more)) with (@nil event);
      [reflexivity|]. induction more; simpl; auto.
Qed.

Section ReduceTaskGeneral.

Variable create_digest : string -> string -> string.
Variables mrv1_to_mrv2 mrv2_to_mrv1 : PyDict.t.

Lemma next_item n st c rest it :
  stream st = c :: rest -> auth_done st = true -> mapper (context st) = None ->
  item_of c = Some it ->
  next_ create_digest mrv1_to_mrv2 mrv2_to_mrv1 (S n) st
  = (Val (Some it), after_read st c rest).
Proof.
  intros Hs Ha Hm Hi. destruct c; try discriminate Hi; injection Hi as <-.
  - apply next_REDUCE_KEY; assumption.
  - apply next_REDUCE_VALUE; assumption.
  - apply next_CLOSE_no_mapper; assumption.
Qed.

Lemma next_RUN_REDUCE n st part piped_output rest :
  stream st = RUN_REDUCE part piped_output :: rest -> auth_done st = true ->
  next_ create_digest mrv1_to_mrv2 mrv2_to_mrv1 (S n) st
  = run_reduce_task (next_ create_digest mrv1_to_mrv2 mrv2_to_mrv1 n) n part piped_output
      (after_read st (RUN_REDUCE part piped_output) rest).
Proof.
  intros Hs Ha. cbn [next_]. unfold bind at 1. unfold read_command. rewrite Hs.
  unfold bind at 1. unfold gets at 1. cbn [auth_done with_trace with_stream].
  rewrite Ha. reflexivity.
Qed.

Lemma commands_split rs rest :
  List.concat (map run_commands rs) ++ CLOSE :: rest
  = first_command rs :: rest_commands rs ++ rest.
Proof.
  change (CLOSE :: rest) with ([CLOSE] ++ rest).
  rewrite app_assoc, commands_first_rest. reflexivity.
Qed.

Lemma commands_length rs :
  List.length (List.concat (map run_commands rs)) = List.length (rest_commands rs).
Proof.
  pose proof (f_equal (@List.length command) (commands_first_rest rs)) as H.
  rewrite length_app in H. simpl in H. lia.
Qed.

(** [RUN_REDUCE] up to the point where its loop has read the first
    command. *)
Lemma reduce_task_enter st part piped_output c it rest r n :
  stream st = RUN_REDUCE part piped_output :: c :: rest ->
  auth_done st = true ->
  mapper (context st) = None ->
  rclass (factory (context st)) = Some r ->
  is_some (rwclass (factory (context st))) = negb (truthy piped_output) ->
  item_of c = Some it ->
  exists s2,
    next_ create_digest mrv1_to_mrv2 mrv2_to_mrv1 (S (S (S n))) st
    = bind (reduce_loop (next_ create_digest mrv1_to_mrv2 mrv2_to_mrv1 (S (S n)))
              (S (S n)) (pending None it))
           (fun _ => ret None) s2
    /\ stream s2 = rest
    /\ auth_done s2 = true
    /\ mapper (context s2) = None
    /\ reducer (context s2) = Some r
    /\ key (context s2) = key (context st)
    /\ trace s2 = trace st ++ [EvRead (RUN_REDUCE part piped_output); EvRead c].
Proof.
  intros Hs Ha Hm Hr Hw Hi.
  rewrite (next_RUN_REDUCE _ st part piped_output _ Hs Ha).
  set (s0 := after_read st (RUN_REDUCE part piped_output) (c :: rest)).
  assert (Hw0 : is_some (rwclass (factory (context s0))) = negb (truthy piped_output))
    by exact Hw.
  rewrite (run_reduce_task_setup _ _ _ _ _ Hw0).
  assert (Hready : stream (reduce_ready s0) = c :: rest
                   /\ auth_done (reduce_ready s0) = true
                   /\ mapper (context (reduce_ready s0)) = None
                   /\ reducer (context (reduce_ready s0)) = Some r
                   /\ key (context (reduce_ready s0)) = key (context st)
                   /\ trace (reduce_ready s0)
                      = trace st ++ [EvRead (RUN_REDUCE part piped_output)]).
  { unfold reduce_ready. destruct (private_encoding s0); simpl; auto 10. }
  destruct Hready as [Hs1 [Ha1 [Hm1 [Hr1 [Hk1 Ht1]]]]].
  exists (after_read (reduce_ready s0) c rest).
  split.
  { unfold bind.
    rewrite (reduce_loop_start _ (next_item (S n)) n (reduce_ready s0) c it rest
               Hs1 Ha1 Hm1 Hi).
    reflexivity. }
  unfold after_read at 1 2 3 4 5 6.
  cbn [stream auth_done context trace with_trace with_stream].
  rewrite Ht1, <- app_assoc. auto 10.
Qed.

(** A reduce task over a sequence of runs. *)
Lemma reduce_task_runs st part piped_output rs rest r n :
  stream st = RUN_REDUCE part piped_output
              :: List.concat (map run_commands rs) ++ CLOSE :: rest ->
  alternating rs = true ->
  auth_done st = true ->
  mapper (context st) = None ->
  rclass (factory (context st)) = Some r ->
  reads_all_values r ->
  is_some (rwclass (factory (context st))) = negb (truthy piped_output) ->
  2 * List.length (List.concat (map run_commands rs)) + 4 <= n ->
  exists st' evs,
    next_ create_digest mrv1_to_mrv2 mrv2_to_mrv1 n st = (Exc StopIteration, st')
    /\ stream st' = rest
    /\ key (context st') = last_key (key (context st)) rs
    /\ trace st' = trace st ++ evs
    /\ evs = EvRead (RUN_REDUCE part piped_output)
             :: reduce_events (key (context st)) rs
             ++ EvRead CLOSE
             :: map EvClose (closed_components (context st') teardown_order)
             ++ [EvUp DONE]
    /\ reduce_calls evs = expected_reduce_calls (key (context st)) rs
    /\ count_done evs = 1.
Proof.
  intros Hs Halt Ha Hm Hr Hall Hw Hn.
  rewrite commands_length in Hn. rewrite commands_split in Hs.
  destruct n as [|[|[|n]]]; try lia.
  destruct (reduce_task_enter st part piped_output (first_command rs) (first_item rs)
              (rest_commands rs ++ rest) r n Hs Ha Hm Hr Hw (item_of_first rs))
    as [s2 [Hrun [Hs2 [Ha2 [Hm2 [Hr2 [Hk2 Ht2]]]]]]].
  rewrite Hrun. unfold bind at 1.
  rewrite (reduce_loop_runs _ (next_item (S n)) r Hall rs (S (S n)) None s2 rest Halt);
    try assumption; try discriminate; [|lia].
  eexists. eexists. split; [reflexivity|].
  split; [reflexivity|].
  split; [cbn [context with_trace with_stream with_context key ctx_with_key];
          rewrite Hk2; reflexivity|].
  assert (Hcc : forall c k0, closed_components
                  (ctx_with_key c k0) teardown_order
                = closed_components c teardown_order) by reflexivity.
  cbn [context with_trace with_stream with_context trace].
  rewrite Hcc, Hk2, Ht2.
  assert (Hevs : (trace st ++ [EvRead (RUN_REDUCE part piped_output);
                               EvRead (first_command rs)])
                 ++ events_after_first (key (context st)) rs
                 ++ map EvClose (closed_components (context s2) teardown_order)
                 ++ [EvUp DONE]
                 = trace st
                   ++ EvRead (RUN_REDUCE part piped_output)
                   :: reduce_events (key (context st)) rs
                   ++ EvRead CLOSE
                   :: map EvClose (closed_components (context s2) teardown_order)
                   ++ [EvUp DONE]).
  { rewrite <- !app_assoc. cbn [app]. rewrite app_comm_cons, <- events_first_rest.
    rewrite <- !app_assoc. reflexivity. }
  rewrite Hevs.
  split; [reflexivity|].
  split; [reflexivity|].
  split.
  - cbn [reduce_calls]. apply reduce_calls_reduce_events.
    + cbn [values_handed]. apply values_handed_teardown.
    + cbn [reduce_calls]. apply reduce_calls_teardown.
  - unfold count_done. cbn [filter is_done].
    rewrite filter_is_done_reduce_events. cbn [filter is_done].
    apply count_done_teardown.
Qed.

End ReduceTaskGeneral.

Lemma runs_of_commands cs :
  List.concat (map run_commands (runs_of cs)) = map input_command cs.
Proof.
  induction cs as [|[k|v] cs IH]; [reflexivity| |];
    cbn [runs_of map input_command]; rewrite <- IH;
    destruct (runs_of cs) as [|[k' more|v' more] rs]; reflexivity.
Qed.

Lemma alternating_runs_of cs : alternating (runs_of cs) = true.
Proof.
  induction cs as [|[k|v] cs IH]; [reflexivity| |];
    cbn [runs_of]; destruct (runs_of cs) as [|[k' more|v' more] rs];
    try reflexivity; exact IH.
Qed.

Lemma group_runs_commands gs :
  List.concat (map run_commands (flat_map group_runs gs))
  = List.concat (map group_commands gs).
Proof.
  induction gs as [|[[k v] vs] gs IH]; [reflexivity|].
  cbn [flat_map group_runs map List.concat app run_commands group_commands].
  rewrite IH. reflexivity.
Qed.

Lemma alternating_group_runs gs : alternating (flat_map group_runs gs) = true.
Proof.
  induction gs as [|[[k v] vs] gs IH]; [reflexivity|].
  cbn [flat_map group_runs app alternating is_keys]. rewrite IH.
  destruct gs as [|[[k' v'] vs'] gs]; reflexivity.
Qed.

Lemma expected_group_calls gs key :
  expected_reduce_calls key (flat_map group_runs gs) = map group_call gs.
Proof.
  revert key. induction gs as [|[[k v] vs] gs IH]; intros key; [reflexivity|].
  cbn [flat_map group_runs app expected_reduce_calls map group_call].
  rewrite IH. reflexivity.
Qed.

Section ReduceTaskTheorems.

Variable create_digest : string -> string -> string.
Variables mrv1_to_mrv2 mrv2_to_mrv1 : PyDict.t.

(** X1: a reduce task over any sequence of [REDUCE_KEY] and
    [REDUCE_VALUE] commands closed by [CLOSE], with a reducer that reads
    all its values: [reduce] is called once per maximal run of values, with
    all the values of the run; its key is the first key of the run of keys
    before it (later keys of that run are dropped) or, before any key, the
    key the context held; values are read off the stream as the reducer
    asks for them; then one teardown, one [DONE], and the iteration
    stops. *)
Theorem reduce_task_any_input st part piped_output cs rest r n :
  stream st = RUN_REDUCE part piped_output :: map input_command cs ++ CLOSE :: rest ->
  auth_done st = true ->
  mapper (context st) = None ->
  rclass (factory (context st)) = Some r ->
  reads_all_values r ->
  is_some (rwclass (factory (context st))) = negb (truthy piped_output) ->
  2 * List.length cs + 4 <= n ->
  exists st' evs,
    next_ create_digest mrv1_to_mrv2 mrv2_to_mrv1 n st = (Exc StopIteration, st')
    /\ stream st' = rest
    /\ trace st' = trace st ++ evs
    /\ evs = EvRead (RUN_REDUCE part piped_output)
             :: reduce_events (key (context st)) (runs_of cs)
             ++ EvRead CLOSE
             :: map EvClose (closed_components (context st') teardown_order)
             ++ [EvUp DONE]
    /\ reduce_calls evs = expected_reduce_calls (key (context st)) (runs_of cs)
    /\ count_done evs = 1
    /\ key (context st') = last_key (key (context st)) (runs_of cs).
Proof.
  intros Hs Ha Hm Hr Hall Hw Hn.
  rewrite <- runs_of_commands in Hs.
  destruct (reduce_task_runs create_digest mrv1_to_mrv2 mrv2_to_mrv1
              st part piped_output (runs_of cs) rest r n Hs
              (alternating_runs_of cs) Ha Hm Hr Hall Hw)
    as [st' [evs [H1 [H2 [H3 [H4 [H5 [H6 H7]]]]]]]].
  { rewrite runs_of_commands, length_map. exact Hn. }
  exists st', evs. auto 10.
Qed.

(** X2: for a well-formed reduce input -- groups of one key followed by
    one or more values -- [reduce] is called exactly once per group, in
    order, at the group's key and with exactly the group's values; after
    [CLOSE] exactly one [DONE] is written. *)
Theorem reduce_task_groups st part piped_output gs rest r n :
  stream st = RUN_REDUCE part piped_output
              :: List.concat (map group_commands gs) ++ CLOSE :: rest ->
  auth_done st = true ->
  mapper (context st) = None ->
  rclass (factory (context st)) = Some r ->
  reads_all_values r ->
  is_some (rwclass (factory (context st))) = negb (truthy piped_output) ->
  2 * List.length (List.concat (map group_commands gs)) + 4 <= n ->
  exists st' evs,
    next_ create_digest mrv1_to_mrv2 mrv2_to_mrv1 n st = (Exc StopIteration, st')
    /\ stream st' = rest
    /\ trace st' = trace st ++ evs
    /\ reduce_calls evs = map group_call gs
    /\ count_done evs = 1.
Proof.
  intros Hs Ha Hm Hr Hall Hw Hn.
  rewrite <- group_runs_commands in Hs, Hn.
  destruct (reduce_task_runs create_digest mrv1_to_mrv2 mrv2_to_mrv1
              st part piped_output (flat_map group_runs gs) rest r n Hs
              (alternating_group_runs gs) Ha Hm Hr Hall Hw Hn)
    as [st' [evs [H1 [H2 [_ [H4 [_ [H6 H7]]]]]]]].
  exists st', evs. rewrite expected_group_calls in H6. auto 10.
Qed.

End ReduceTaskTheorems.

Lemma reduce_task_any_input_witness :
  exists st' evs,
    next_ sample_digest sample_mrv1_to_mrv2 sample_mrv2_to_mrv1 12
      (sample_state sample_factory None
         [RUN_REDUCE 0 1; REDUCE_VALUE (PyBytes "v0"); REDUCE_KEY (PyBytes "k1");
          REDUCE_KEY (PyBytes "k2"); REDUCE_VALUE (PyBytes "v1"); CLOSE])
    = (Exc StopIteration, st')
    /\ stream st' = []
    /\ trace st' = [] ++ evs
    /\ evs = EvRead (RUN_REDUCE 0 1)
             :: [EvRead (REDUCE_VALUE (PyBytes "v0")); EvReduce PyNone;
                 EvValue (PyBytes "v0"); EvRead (REDUCE_KEY (PyBytes "k1"));
                 EvRead (REDUCE_KEY (PyBytes "k2"));
                 EvRead (REDUCE_VALUE (PyBytes "v1")); EvReduce (PyBytes "k1");
                 EvValue (PyBytes "v1")]
             ++ EvRead CLOSE
             :: map EvClose (closed_components (context st') teardown_order)
             ++ [EvUp DONE]
    /\ reduce_calls evs = [(PyNone, [PyBytes "v0"]); (PyBytes "k1", [PyBytes "v1"])]
    /\ count_done evs = 1
    /\ key (context st') = PyBytes "k1".
Proof.
  apply (reduce_task_any_input sample_digest sample_mrv1_to_mrv2 sample_mrv2_to_mrv1
           (sample_state sample_factory None
              [RUN_REDUCE 0 1; REDUCE_VALUE (PyBytes "v0"); REDUCE_KEY (PyBytes "k1");
               REDUCE_KEY (PyBytes "k2"); REDUCE_VALUE (PyBytes "v1"); CLOSE])
           0%Z 1%Z
           [RValue (PyBytes "v0"); RKey (PyBytes "k1"); RKey (PyBytes "k2");
            RValue (PyBytes "v1")]
           [] sample_reducer 12);
    try reflexivity.
  intros k seen. split; reflexivity.
Defined.

(** ** More of the protocol engine *)

Ltac read_first Hs Ha :=
  cbn [next_]; unfold bind at 1; unfold read_command; rewrite Hs;
  unfold bind at 1; unfold gets at 1; cbn [auth_done with_trace with_stream];
  rewrite Ha; cbn [negb andb opcode Z.eqb AUTHENTICATION_REQ_code Pos.eqb].

Lemma call_map_at st k v m :
  mapper (context st) = Some m ->
  bind (modify_context (fun c => ctx_with_value (ctx_with_key c k) v))
       (fun _ => call_map) st
  = (match mapper_map m k v with None => Val tt | Some e => Exc e end,
     at_record st k v).
Proof.
  intros Hm. unfold bind at 1. unfold modify_context, modify.
  unfold call_map. unfold bind at 1. unfold gets at 1.
  cbn [context with_context mapper ctx_with_value ctx_with_key].
  rewrite Hm. unfold bind, gets, log, modify, user_call.
  cbn [context with_context key value ctx_with_value ctx_with_key trace with_trace].
  destruct (mapper_map m k v); reflexivity.
Qed.

Lemma map_records_app a b st :
  map_records (a ++ b) st = bind (map_records a) (fun _ => map_records b) st.
Proof.
  revert st. induction a as [|[k v] a IH]; intros st; [reflexivity|].
  cbn [app map_records]. unfold bind.
  destruct (modify_context (fun c => ctx_with_value (ctx_with_key c k) v) st)
    as [[[]|e|] s1]; try reflexivity.
  destruct (call_map s1) as [[[]|e|] s2]; try reflexivity.
  rewrite IH. reflexivity.
Qed.

(** The mapper raises on the record after [pre]: the records after it are
    not mapped. *)
Lemma map_records_fails pre k v post st m e :
  mapper (context st) = Some m ->
  (forall k' v', In (k', v') pre -> mapper_map m k' v' = None) ->
  mapper_map m k v = Some e ->
  exists st',
    map_records (pre ++ (k, v) :: post) st = (Exc e, st')
    /\ stream st' = stream st
    /\ trace st' = trace st ++ map EvMap_of pre ++ [EvMap k v].
Proof.
  intros Hm Hok He.
  destruct (map_records_run pre st m Hm Hok) as [s1 [Hrun [Hs [Hc Ht]]]].
  assert (Hm1 : mapper (context s1) = Some m).
  { destruct Hc as [H _]. now rewrite H. }
  exists (at_record s1 k v). split; [|split].
  - rewrite map_records_app. unfold bind at 1. rewrite Hrun.
    cbn [map_records].
    pose proof (call_map_at s1 k v m Hm1) as H. rewrite He in H.
    unfold bind at 1. unfold bind at 1 in H.
    destruct (modify_context (fun c => ctx_with_value (ctx_with_key c k) v) s1)
      as [[[]|e'|] s2]; try exact H.
    unfold bind at 1. rewrite H. reflexivity.
  - exact Hs.
  - unfold at_record. cbn [trace with_trace]. rewrite Ht, <- app_assoc. reflexivity.
Qed.

Lemma no_teardown_maps recs : no_teardown (map EvMap_of recs).
Proof.
  intros e H. apply in_map_iff in H. destruct H as [[k v] [<- _]]. reflexivity.
Qed.

Lemma no_teardown_read_and_map items : no_teardown (flat_map read_and_map items).
Proof.
  intros e H. apply in_flat_map in H. destruct H as [[k v] [_ [<-|[<-|[]]]]]; reflexivity.
Qed.

Lemma no_teardown_cons e evs :
  not_teardown e = true -> no_teardown evs -> no_teardown (e :: evs).
Proof. intros He H e' [<-|H']; [exact He | now apply H]. Qed.

Section MoreEngineFacts.

Variable create_digest : string -> string -> string.
Variables mrv1_to_mrv2 mrv2_to_mrv1 : PyDict.t.

Lemma next_MAP_ITEM n st k v rest m :
  stream st = MAP_ITEM k v :: rest -> auth_done st = true ->
  mapper (context st) = Some m ->
  next_ create_digest mrv1_to_mrv2 mrv2_to_mrv1 (S n) st
  = (match mapper_map m k v with None => Val None | Some e => Exc e end,
     at_record (after_read st (MAP_ITEM k v) rest) k v).
Proof.
  intros Hs Ha Hm. read_first Hs Ha.
  unfold bind at 1. unfold modify_context, modify.
  unfold bind at 1. unfold call_map. unfold bind at 1. unfold gets at 1.
  cbn [context with_context with_trace with_stream mapper ctx_with_value ctx_with_key].
  rewrite Hm. unfold bind, gets, log, modify, user_call, at_record, after_read.
  cbn [context with_context with_trace with_stream key value ctx_with_value ctx_with_key
       trace].
  destruct (mapper_map m k v); reflexivity.
Qed.

Lemma next_CLOSE_mapper n st rest m :
  stream st = CLOSE :: rest -> auth_done st = true ->
  mapper (context st) = Some m ->
  next_ create_digest mrv1_to_mrv2 mrv2_to_mrv1 (S n) st
  = (Exc StopIteration,
     with_trace (with_stream st rest)
       (trace st ++ EvRead CLOSE
        :: map EvClose (closed_components (context st) teardown_order)
        ++ [EvUp DONE])).
Proof.
  intros Hs Ha Hm. read_first Hs Ha.
  unfold bind at 1. unfold gets at 1.
  cbn [context with_trace with_stream]. rewrite Hm. cbn [is_some].
  unfold bind at 1. rewrite close_and_stop_run.
  cbn [context with_trace with_stream trace]. rewrite <- app_assoc. reflexivity.
Qed.

Lemma downlink_loop_S n st :
  downlink_loop create_digest mrv1_to_mrv2 mrv2_to_mrv1 (S n) st
  = match next_ create_digest mrv1_to_mrv2 mrv2_to_mrv1 n st with
    | (Val _, s1) => downlink_loop create_digest mrv1_to_mrv2 mrv2_to_mrv1 n s1
    | (Exc StopIteration, s1) => (Val tt, s1)
    | (Exc e, s1) => (Exc e, s1)
    | (Timeout, s1) => (Timeout, s1)
    end.
Proof.
  cbn [downlink_loop]. unfold bind, catch_stop.
  destruct (next_ create_digest mrv1_to_mrv2 mrv2_to_mrv1 n st) as [[o|e|] s1];
    try reflexivity.
  destruct e; reflexivity.
Qed.

(** The downlink loop over a run of [MAP_ITEM]s that the mapper takes. *)
Lemma downlink_loop_items items : forall n st rest m,
  stream st = map MAP_ITEM_of items ++ rest ->
  auth_done st = true ->
  mapper (context st) = Some m ->
  (forall k v, In (k, v) items -> mapper_map m k v = None) ->
  exists st',
    downlink_loop create_digest mrv1_to_mrv2 mrv2_to_mrv1 (List.length items + S n) st
    = downlink_loop create_digest mrv1_to_mrv2 mrv2_to_mrv1 (S n) st'
    /\ stream st' = rest
    /\ auth_done st' = true
    /\ same_components (context st) (context st')
    /\ trace st' = trace st ++ flat_map read_and_map items.
Proof.
  induction items as [|[k v] items IH]; intros n st rest m Hs Ha Hm Hok.
  - exists st. simpl. rewrite app_nil_r. repeat split. exact Hs. exact Ha.
  - cbn [map app MAP_ITEM_of fst snd] in Hs.
    pose (s1 := at_record (after_read st (MAP_ITEM k v) (map MAP_ITEM_of items ++ rest)) k v).
    destruct (IH n s1 rest m eq_refl Ha Hm) as [st' [Hrun [Hs' [Ha' [Hc Ht]]]]].
    { intros k' v' H. apply Hok. now right. }
    exists st'. split; [|split; [exact Hs'|split; [exact Ha'|split]]].
    + cbn [List.length Nat.add]. rewrite downlink_loop_S.
      replace (List.length items + S n) with (S (List.length items + n)) by lia.
      rewrite (next_MAP_ITEM _ st k v _ m Hs Ha Hm).
      rewrite (Hok k v (or_introl eq_refl)).
      replace (S (List.length items + n)) with (List.length items + S n) by lia.
      exact Hrun.
    + destruct Hc as [H1 [H2 [H3 H4]]]. repeat split; assumption.
    + rewrite Ht. cbn [flat_map read_and_map app]. unfold s1, at_record, after_read.
      cbn [trace with_trace with_stream with_context]. rewrite <- !app_assoc. reflexivity.
Qed.

Lemma map_calls_read_and_map items t :
  map_calls (flat_map read_and_map items ++ t) = items ++ map_calls t.
Proof.
  induction items as [|[k v] items IH]; simpl; [reflexivity | now rewrite IH].
Qed.

Lemma filter_is_done_read_and_map items t :
  filter is_done (flat_map read_and_map items ++ t) = filter is_done t.
Proof. induction items as [|[k v] items IH]; simpl; auto. Qed.

Lemma filter_is_read_read_and_map items t :
  filter is_read (flat_map read_and_map items ++ t)
  = map EvRead (map MAP_ITEM_of items) ++ filter is_read t.
Proof.
  induction items as [|[k v] items IH]; simpl; [reflexivity | now rewrite IH].
Qed.

(** A whole map task on the push path. *)
Lemma downlink_loop_map_task st split n piped_input items rest fuel :
  stream st = RUN_MAP split n piped_input :: map MAP_ITEM_of items ++ CLOSE :: rest ->
  auth_done st = true ->
  rrclass (factory (context st)) = None ->
  truthy piped_input = true ->
  ((n < 1)%Z -> map_only_writer_ok (context st)) ->
  (forall k v, In (k, v) items -> mapper_map (mclass (factory (context st))) k v = None) ->
  exists st' evs,
    downlink_loop create_digest mrv1_to_mrv2 mrv2_to_mrv1 (List.length items + 3 + fuel) st
    = (Val tt, st')
    /\ stream st' = rest
    /\ trace st' = trace st ++ evs
    /\ evs = EvRead (RUN_MAP split n piped_input)
             :: flat_map read_and_map items
             ++ EvRead CLOSE
             :: map EvClose (closed_components (context st') teardown_order)
             ++ [EvUp DONE]
    /\ map_calls evs = items
    /\ count_done evs = 1.
Proof.
  intros Hs Ha Hrr Hp Hw Hmap.
  pose (s0 := after_read st (RUN_MAP split n piped_input)
                (map MAP_ITEM_of items ++ CLOSE :: rest)).
  assert (Hsetup : run_map split n piped_input s0 = (Val None, map_ready s0 split n)).
  { rewrite run_map_setup.
    - change (rrclass (factory (context s0))) with (rrclass (factory (context st))).
      now rewrite Hrr.
    - change (rrclass (factory (context s0))) with (rrclass (factory (context st))).
      now rewrite Hrr, Hp.
    - exact Hw. }
  assert (Hready : mapper (context (map_ready s0 split n))
                   = Some (mclass (factory (context st)))
                   /\ stream (map_ready s0 split n) = map MAP_ITEM_of items ++ CLOSE :: rest
                   /\ auth_done (map_ready s0 split n) = true
                   /\ trace (map_ready s0 split n)
                      = trace st ++ [EvRead (RUN_MAP split n piped_input)]).
  { unfold map_ready. destruct (n <? 1)%Z; repeat split; exact Ha. }
  destruct Hready as [Hm [Hs1 [Ha1 Ht1]]].
  destruct (downlink_loop_items items (S fuel) (map_ready s0 split n) (CLOSE :: rest) _
              Hs1 Ha1 Hm Hmap)
    as [s1 [Hrun [Hs2 [Ha2 [Hsame Ht2]]]]].
  assert (Hm2 : mapper (context s1) = Some (mclass (factory (context st)))).
  { destruct Hsame as [H _]. now rewrite H. }
  eexists. eexists. split.
  { replace (List.length items + 3 + fuel) with (S (S (List.length items + S fuel)))
      by lia.
    rewrite downlink_loop_S.
    rewrite (next_RUN_MAP create_digest mrv1_to_mrv2 mrv2_to_mrv1 _ st split n
               piped_input _ Hs Ha).
    fold s0. rewrite Hsetup.
    replace (S (List.length items + S fuel)) with (List.length items + S (S fuel)) by lia.
    rewrite Hrun, downlink_loop_S.
    rewrite (next_CLOSE_mapper _ s1 rest _ Hs2 Ha2 Hm2). reflexivity. }
  split; [reflexivity|].
  cbn [trace with_trace with_stream context].
  rewrite Ht2, Ht1, <- !app_assoc. cbn [app].
  split; [reflexivity|]. split; [reflexivity|]. split.
  - cbn [map_calls]. rewrite map_calls_read_and_map. cbn [map_calls].
    rewrite map_calls_teardown. apply app_nil_r.
  - unfold count_done. cbn [filter is_done]. rewrite filter_is_done_read_and_map.
    cbn [filter is_done]. apply count_done_teardown.
Qed.

(** X6: the push path of a map task.  After [RUN_MAP] with host-piped
    input, [map] is called once per [MAP_ITEM], in stream order, at that
    item's key and value; [CLOSE] then tears down, writes exactly one
    [DONE] and ends the downlink loop, leaving the rest unread. *)
Theorem map_push_path st split n piped_input items rest fuel :
  stream st = RUN_MAP split n piped_input :: map MAP_ITEM_of items ++ CLOSE :: rest ->
  auth_done st = true ->
  rrclass (factory (context st)) = None ->
  truthy piped_input = true ->
  ((n < 1)%Z -> map_only_writer_ok (context st)) ->
  (forall k v, In (k, v) items -> mapper_map (mclass (factory (context st))) k v = None) ->
  exists st' evs,
    downlink_loop create_digest mrv1_to_mrv2 mrv2_to_mrv1 (List.length items + 3 + fuel) st
    = (Val tt, st')
    /\ stream st' = rest
    /\ trace st' = trace st ++ evs
    /\ evs = EvRead (RUN_MAP split n piped_input)
             :: flat_map read_and_map items
             ++ EvRead CLOSE
             :: map EvClose (closed_components (context st') teardown_order)
             ++ [EvUp DONE]
    /\ map_calls evs = items
    /\ count_done evs = 1.
Proof.
  exact (downlink_loop_map_task st split n piped_input items rest fuel).
Qed.

(** X7: in the pull path, an exception of [map] (other than
    [StopIteration]) ends the run with that exception: the records after
    the failing one are not mapped, no [close] is called and no [DONE] is
    written. *)
Theorem map_failure_pull_path st split n piped_input rest reader pre k v post e fuel :
  stream st = RUN_MAP split n piped_input :: rest ->
  auth_done st = true ->
  rrclass (factory (context st)) = Some reader ->
  truthy piped_input = false ->
  ((n < 1)%Z -> map_only_writer_ok (context st)) ->
  reader_records reader = pre ++ (k, v) :: post ->
  (forall k' v', In (k', v') pre ->
                 mapper_map (mclass (factory (context st))) k' v' = None) ->
  mapper_map (mclass (factory (context st))) k v = Some e ->
  e <> StopIteration ->
  exists st' evs,
    downlink_loop create_digest mrv1_to_mrv2 mrv2_to_mrv1 (2 + fuel) st = (Exc e, st')
    /\ stream st' = rest
    /\ trace st' = trace st ++ evs
    /\ map_calls evs = pre ++ [(k, v)]
    /\ no_teardown evs.
Proof.
  intros Hs Ha Hrr Hp Hw Hrec Hok He Hne.
  pose (s0 := after_read st (RUN_MAP split n piped_input) rest).
  assert (Hsetup : run_map split n piped_input s0
                   = bind (map_records (reader_records reader))
                          (fun _ => bind close_and_stop (fun _ => ret None))
                          (map_ready s0 split n)).
  { rewrite run_map_setup.
    - change (rrclass (factory (context s0))) with (rrclass (factory (context st))).
      now rewrite Hrr.
    - change (rrclass (factory (context s0))) with (rrclass (factory (context st))).
      now rewrite Hrr, Hp.
    - exact Hw. }
  assert (Hready : mapper (context (map_ready s0 split n))
                   = Some (mclass (factory (context st)))
                   /\ stream (map_ready s0 split n) = rest
                   /\ trace (map_ready s0 split n)
                      = trace st ++ [EvRead (RUN_MAP split n piped_input)]).
  { unfold map_ready. destruct (n <? 1)%Z; repeat split. }
  destruct Hready as [Hm [Hs1 Ht1]].
  destruct (map_records_fails pre k v post (map_ready s0 split n) _ e Hm Hok He)
    as [s1 [Hrun [Hs2 Ht2]]].
  exists s1. eexists. split.
  { change (2 + fuel) with (S (S fuel)). rewrite downlink_loop_S.
    rewrite (next_RUN_MAP create_digest mrv1_to_mrv2 mrv2_to_mrv1 _ st split n
               piped_input _ Hs Ha).
    fold s0. rewrite Hsetup, Hrec. unfold bind at 1. rewrite Hrun.
    destruct e; try reflexivity. congruence. }
  split; [congruence|].
  split; [rewrite Ht2, Ht1, <- app_assoc; reflexivity|].
  split.
  - cbn [app map_calls]. rewrite map_calls_maps. reflexivity.
  - cbn [app]. apply no_teardown_cons; [reflexivity|].
    apply no_teardown_app; [apply no_teardown_maps|].
    apply no_teardown_cons; [reflexivity | intros ? []].
Qed.

(** X8: in the push path, an exception of [map] (other than
    [StopIteration]) on a [MAP_ITEM] ends the run with that exception: the
    commands after it stay unread, no [close] is called and no [DONE] is
    written. *)
Theorem map_failure_push_path st split n piped_input pre k v rest e fuel :
  stream st = RUN_MAP split n piped_input
              :: map MAP_ITEM_of pre ++ MAP_ITEM k v :: rest ->
  auth_done st = true ->
  rrclass (factory (context st)) = None ->
  truthy piped_input = true ->
  ((n < 1)%Z -> map_only_writer_ok (context st)) ->
  (forall k' v', In (k', v') pre ->
                 mapper_map (mclass (factory (context st))) k' v' = None) ->
  mapper_map (mclass (factory (context st))) k v = Some e ->
  e <> StopIteration ->
  exists st' evs,
    downlink_loop create_digest mrv1_to_mrv2 mrv2_to_mrv1 (List.length pre + 3 + fuel) st
    = (Exc e, st')
    /\ stream st' = rest
    /\ trace st' = trace st ++ evs
    /\ map_calls evs = pre ++ [(k, v)]
    /\ no_teardown evs.
Proof.
  intros Hs Ha Hrr Hp Hw Hok He Hne.
  pose (s0 := after_read st (RUN_MAP split n piped_input)
                (map MAP_ITEM_of pre ++ MAP_ITEM k v :: rest)).
  assert (Hsetup : run_map split n piped_input s0 = (Val None, map_ready s0 split n)).
  { rewrite run_map_setup.
    - change (rrclass (factory (context s0))) with (rrclass (factory (context st))).
      now rewrite Hrr.
    - change (rrclass (factory (context s0))) with (rrclass (factory (context st))).
      now rewrite Hrr, Hp.
    - exact Hw. }
  assert (Hready : mapper (context (map_ready s0 split n))
                   = Some (mclass (factory (context st)))
                   /\ stream (map_ready s0 split n)
                      = map MAP_ITEM_of pre ++ MAP_ITEM k v :: rest
                   /\ auth_done (map_ready s0 split n) = true
                   /\ trace (map_ready s0 split n)
                      = trace st ++ [EvRead (RUN_MAP split n piped_input)]).
  { unfold map_ready. destruct (n <? 1)%Z; repeat split; exact Ha. }
  destruct Hready as [Hm [Hs1 [Ha1 Ht1]]].
  destruct (downlink_loop_items pre (S fuel) (map_ready s0 split n)
              (MAP_ITEM k v :: rest) _ Hs1 Ha1 Hm Hok)
    as [s1 [Hrun [Hs2 [Ha2 [Hsame Ht2]]]]].
  assert (Hm2 : mapper (context s1) = Some (mclass (factory (context st)))).
  { destruct Hsame as [H _]. now rewrite H. }
  eexists. eexists. split.
  { replace (List.length pre + 3 + fuel) with (S (S (List.length pre + S fuel)))
      by lia.
    rewrite downlink_loop_S.
    rewrite (next_RUN_MAP create_digest mrv1_to_mrv2 mrv2_to_mrv1 _ st split n
               piped_input _ Hs Ha).
    fold s0. rewrite Hsetup.
    replace (S (List.length pre + S fuel)) with (List.length pre + S (S fuel)) by lia.
    rewrite Hrun, downlink_loop_S.
    rewrite (next_MAP_ITEM _ s1 k v rest _ Hs2 Ha2 Hm2), He.
    destruct e; try reflexivity. congruence. }
  split; [reflexivity|].
  unfold at_record, after_read. cbn [trace with_trace with_stream with_context].
  rewrite Ht2, Ht1, <- !app_assoc. cbn [app].
  split; [reflexivity|]. split.
  - cbn [map_calls]. rewrite map_calls_read_and_map. reflexivity.
  - apply no_teardown_cons; [reflexivity|].
    apply no_teardown_app; [apply no_teardown_read_and_map|].
    apply no_teardown_cons; [reflexivity|].
    apply no_teardown_cons; [reflexivity | intros ? []].
Qed.

(** X11: [run_task] starts unauthenticated: a first command other than
    [AUTHENTICATION_REQ] is refused with a [RuntimeError] as soon as its
    opcode is read; no component is created and nothing is written. *)
Theorem unauthenticated_command_refused n f kw pw c rest :
  opcode c <> AUTHENTICATION_REQ_code ->
  exists msg,
    run_task create_digest mrv1_to_mrv2 mrv2_to_mrv1 (S (S n)) f kw pw (c :: rest)
    = (Exc (RuntimeError msg),
       with_trace (BinaryProtocol_init rest (Context_init f) kw pw) [EvRead c]).
Proof.
  intros Hc. unfold run_task. rewrite downlink_loop_S.
  cbn [next_]. unfold bind at 1. unfold read_command.
  cbn [stream BinaryProtocol_init]. unfold bind at 1. unfold gets at 1.
  cbn [auth_done with_trace with_stream].
  destruct (Z.eqb_spec (opcode c) AUTHENTICATION_REQ_code) as [E|_]; [contradiction|].
  eexists. reflexivity.
Qed.

(** X12: with no shared secret configured, [AUTHENTICATION_REQ] is
    accepted whatever its digest and challenge: the engine becomes
    authenticated and writes no [AUTHENTICATION_RESP]. *)
Theorem authentication_without_password st digest challenge rest n :
  stream st = AUTHENTICATION_REQ digest challenge :: rest ->
  password st = None ->
  next_ create_digest mrv1_to_mrv2 mrv2_to_mrv1 (S n) st
  = (Val None,
     with_auth_done (after_read st (AUTHENTICATION_REQ digest challenge) rest) true).
Proof.
  intros Hs Hpw. cbn [next_]. unfold bind at 1. unfold read_command. rewrite Hs.
  unfold bind at 1. unfold gets at 1.
  cbn [negb andb opcode Z.eqb AUTHENTICATION_REQ_code Pos.eqb].
  unfold bind at 1. unfold verify_digest. unfold bind at 1. unfold bind at 1.
  unfold gets at 1. cbn [password with_trace with_stream]. rewrite Hpw. reflexivity.
Qed.

(** X13: [START] goes through exactly for protocol version 0; any other
    version raises a [RuntimeError], and either way nothing but the read
    happens. *)
Theorem start_checks_version st v rest n :
  stream st = START v :: rest ->
  auth_done st = true ->
  (v = 0%Z ->
   next_ create_digest mrv1_to_mrv2 mrv2_to_mrv1 (S n) st
   = (Val None, after_read st (START v) rest))
  /\ (v <> 0%Z ->
      exists msg,
        next_ create_digest mrv1_to_mrv2 mrv2_to_mrv1 (S n) st
        = (Exc (RuntimeError msg), after_read st (START v) rest)).
Proof.
  intros Hs Ha.
  assert (H : next_ create_digest mrv1_to_mrv2 mrv2_to_mrv1 (S n) st
              = (if (v =? 0)%Z then Val None
                 else Exc (RuntimeError "Unknown protocol id"),
                 after_read st (START v) rest)).
  { read_first Hs Ha. unfold PROTOCOL_VERSION. destruct (v =? 0)%Z; reflexivity. }
  rewrite H. split; intros Hv.
  - subst v. reflexivity.
  - destruct (Z.eqb_spec v 0) as [E|_]; [contradiction|]. eexists. reflexivity.
Qed.


(** X9: [RUN_MAP] with a record reader class and host-piped input, or
    with neither, raises a [RuntimeError] right after storing the split
    and the reader: no mapper or partitioner is created, the reduce-task
    count is not stored and nothing is written. *)
Theorem run_map_reader_mismatch st split n piped_input rest fuel :
  stream st = RUN_MAP split n piped_input :: rest ->
  auth_done st = true ->
  is_some (rrclass (factory (context st))) = truthy piped_input ->
  exists msg,
    next_ create_digest mrv1_to_mrv2 mrv2_to_mrv1 (S fuel) st
    = (Exc (RuntimeError msg),
       with_context (after_read st (RUN_MAP split n piped_input) rest)
         (ctx_with_record_reader (ctx_with_input_split (context st) split)
            (rrclass (factory (context st))))).
Proof.
  intros Hs Ha Hr.
  rewrite (next_RUN_MAP create_digest mrv1_to_mrv2 mrv2_to_mrv1 fuel st split n
             piped_input rest Hs Ha).
  unfold run_map. unfold bind at 1. unfold modify_context, modify.
  unfold bind at 1. unfold create_record_reader. unfold bind at 1.
  unfold modify_context, modify, gets.
  cbn [context with_context after_read with_trace with_stream record_reader
       ctx_with_record_reader ctx_with_input_split factory].
  unfold run_map_with.
  destruct (rrclass (factory (context st))) as [rd|], (truthy piped_input);
    try discriminate Hr; eexists; reflexivity.
Qed.

(** X5: [RUN_REDUCE] with a record writer class and host-piped output,
    or with neither, raises a [RuntimeError] right after creating reducer
    and writer: the reduce loop is not entered and no further command is
    read. *)
Theorem run_reduce_writer_mismatch st part piped_output rest fuel :
  stream st = RUN_REDUCE part piped_output :: rest ->
  auth_done st = true ->
  is_some (rwclass (factory (context st))) = truthy piped_output ->
  exists msg,
    next_ create_digest mrv1_to_mrv2 mrv2_to_mrv1 (S fuel) st
    = (Exc (RuntimeError msg),
       with_context (after_read st (RUN_REDUCE part piped_output) rest)
         (ctx_with_record_writer
            (ctx_with_reducer (context st) (rclass (factory (context st))))
            (rwclass (factory (context st))))).
Proof.
  intros Hs Ha Hw.
  rewrite (next_RUN_REDUCE create_digest mrv1_to_mrv2 mrv2_to_mrv1 fuel st part
             piped_output rest Hs Ha).
  unfold run_reduce_task. unfold bind at 1. unfold create_reducer. unfold bind at 1.
  unfold modify_context, modify, gets. unfold bind at 1. unfold setup_record_writer.
  unfold bind at 1. unfold create_record_writer. unfold bind at 1.
  unfold modify_context, modify, gets.
  cbn [context with_context after_read with_trace with_stream record_writer
       ctx_with_record_writer ctx_with_reducer factory].
  destruct (rwclass (factory (context st))) as [w|], (truthy piped_output);
    try discriminate Hw; eexists; reflexivity.
Qed.


(** X17: in every run of [run_task] whose input is host-piped (no record
    reader class), as long as [CLOSE] has not been read no [close] is
    called and no [DONE] is written. *)
Theorem no_teardown_before_close n f kw pw istream r st' :
  run_task create_digest mrv1_to_mrv2 mrv2_to_mrv1 n f kw pw istream = (r, st') ->
  rrclass f = None ->
  ~ In (EvRead CLOSE) (trace st') ->
  no_teardown (trace st').
Proof.
  unfold run_task. intros E Hrr Hnc.
  destruct (tg_downlink_loop create_digest mrv1_to_mrv2 mrv2_to_mrv1 n _ _ _ E)
    as [evs [T [_ G]]].
  simpl in T. destruct G as [G _]; [exact Hrr | intros [] |].
  rewrite T. apply G. exact Hnc.
Qed.

End MoreEngineFacts.

(** ** A reducer that reads no value *)

Section GroupingIdle.

Variable next_self : M (option item).
Hypothesis next_item : forall st c rest it,
  stream st = c :: rest -> auth_done st = true -> mapper (context st) = None ->
  item_of c = Some it ->
  next_self st = (Val (Some it), after_read st c rest).

Variable r : Reducer.
Hypothesis r_idle : reads_no_value r.

Lemma reduce_body_values_idle n v tgt st :
  reducer (context st) = Some r ->
  reduce_body next_self n REDUCE_VALUE_code (pending tgt (REDUCE_VALUE_code, v)) st
  = (Val (pending tgt (REDUCE_VALUE_code, v)),
     with_trace st (trace st ++ [EvReduce (key (context st))])).
Proof.
  intros Hr. unfold reduce_body.
  change (REDUCE_VALUE_code =? REDUCE_KEY_code)%Z with false.
  change (REDUCE_VALUE_code =? REDUCE_VALUE_code)%Z with true.
  change (REDUCE_VALUE_code =? CLOSE_code)%Z with false.
  cbv iota. unfold bind at 1. unfold ret at 1. unfold bind at 1. unfold bind at 1.
  unfold gets at 1. rewrite Hr. unfold bind at 1. unfold gets at 1.
  unfold bind at 1. unfold log at 1, modify at 1.
  destruct n; cbn [run_reduce]; rewrite r_idle; reflexivity.
Qed.

Lemma Forall_values more :
  Forall (fun c' => exists p, item_of c' = Some (REDUCE_VALUE_code, p))
         (map REDUCE_VALUE more).
Proof. induction more; constructor; [eexists; reflexivity | assumption]. Qed.

Lemma reduce_loop_runs_idle rs : forall n tgt st rest,
  alternating rs = true ->
  tgt <> Some (fst (first_item rs)) ->
  stream st = rest_commands rs ++ rest ->
  auth_done st = true -> mapper (context st) = None ->
  reducer (context st) = Some r ->
  2 * List.length (rest_commands rs) + 3 <= n ->
  reduce_loop next_self n (pending tgt (first_item rs)) st
  = (Exc StopIteration,
     with_trace
       (with_stream
          (with_context st (ctx_with_key (context st) (last_key (key (context st)) rs)))
          rest)
       (trace st ++ idle_events_after_first (key (context st)) rs
        ++ map EvClose (closed_components (context st) teardown_order)
        ++ [EvUp DONE])).
Proof.
  induction rs as [|[k more|v more] rs IH]; intros n tgt st rest Halt Htgt Hs Ha Hm Hr Hn.
  - destruct n as [|n]; [lia|]. rewrite reduce_loop_S.
    rewrite groupby_next_pending by exact Htgt.
    cbn [first_item fst]. rewrite reduce_body_close.
    destruct st as [str ctx pe au rs rk rv pw ad gk gv tr].
    destruct ctx as [f jc isp k v m p rr rw rd nr].
    simpl in Hs. subst str. reflexivity.
  - cbn [rest_commands] in Hs, Hn. rewrite length_app in Hn. cbn [List.length] in Hn.
    rewrite length_map in Hn.
    destruct n as [|[|n]]; [lia|lia|]. rewrite reduce_loop_S.
    rewrite groupby_next_pending by exact Htgt.
    cbn [first_item fst]. rewrite reduce_body_key.
    rewrite <- app_assoc in Hs.
    rewrite (reduce_loop_skip next_self next_item REDUCE_KEY_code (map REDUCE_KEY more)
               n _ _ (first_command rs) (first_item rs) (rest_commands rs ++ rest));
      try reflexivity; try assumption;
      [ | apply Forall_keys | apply item_of_first
        | apply (alternating_keys k more rs Halt) | rewrite length_map; lia ].
    rewrite (IH (S n) (Some REDUCE_KEY_code) _ rest);
      try reflexivity; try assumption;
      [ | apply (alternating_tail _ _ Halt)
        | intros [= E]; apply (alternating_keys k more rs Halt); symmetry; exact E
        | lia ].
    f_equal.
    destruct st as [str ctx pe au rs0 rk rv pw ad gk gv tr].
    destruct ctx as [f jc isp k0 v m p rr rw rd nr].
    simpl. rewrite <- !app_assoc. reflexivity.
  - cbn [rest_commands] in Hs, Hn. rewrite length_app in Hn. cbn [List.length] in Hn.
    rewrite length_map in Hn.
    destruct n as [|[|n]]; [lia|lia|]. rewrite reduce_loop_S.
    rewrite groupby_next_pending by exact Htgt.
    cbn [first_item fst].
    rewrite (reduce_body_values_idle (S n) v (Some REDUCE_VALUE_code) st Hr).
    rewrite <- app_assoc in Hs.
    rewrite (reduce_loop_skip next_self next_item REDUCE_VALUE_code
               (map REDUCE_VALUE more) n _ _
               (first_command rs) (first_item rs) (rest_commands rs ++ rest));
      try reflexivity; try assumption;
      [ | apply Forall_values | apply item_of_first
        | apply (alternating_values v more rs Halt) | rewrite length_map; lia ].
    rewrite (IH (S n) (Some REDUCE_VALUE_code) _ rest);
      try reflexivity; try assumption;
      [ | apply (alternating_tail _ _ Halt)
        | intros [= E]; apply (alternating_values v more rs Halt); symmetry; exact E
        | lia ].
    f_equal.
    destruct st as [str ctx pe au rs0 rk rv pw ad gk gv tr].
    destruct ctx as [f jc isp k0 v0 m p rr rw rd nr].
    cbn -[closed_components]. rewrite <- ?app_assoc.
    cbn -[closed_components]. rewrite <- ?app_assoc. reflexivity.
Qed.

End GroupingIdle.

Lemma values_handed_idle rs : forall key t,
  values_handed t = [] ->
  values_handed (idle_events_after_first key rs ++ t) = [].
Proof.
  induction rs as [|[k more|v more] rs IH]; intros key t Ht; [exact Ht| |reflexivity].
  cbn [idle_events_after_first]. rewrite <- app_assoc, values_handed_reads.
  cbn [app values_handed]. apply IH, Ht.
Qed.

Lemma reduce_calls_idle rs : forall key t,
  values_handed t = [] -> reduce_calls t = [] ->
  reduce_calls (idle_events_after_first key rs ++ t) = idle_reduce_calls key rs.
Proof.
  induction rs as [|[k more|v more] rs IH]; intros key t Hv Hc; [exact Hc| |].
  - cbn [idle_events_after_first idle_reduce_calls].
    rewrite <- app_assoc, reduce_calls_reads. cbn [app reduce_calls].
    apply IH; assumption.
  - cbn [idle_events_after_first idle_reduce_calls app reduce_calls].
    rewrite <- !app_assoc, values_handed_reads, reduce_calls_reads.
    cbn [app values_handed reduce_calls].
    rewrite values_handed_idle by exact Hv. rewrite IH by assumption. reflexivity.
Qed.

Lemma filter_is_done_reads cs : filter is_done (map EvRead cs) = [].
Proof. induction cs; simpl; auto. Qed.

Lemma filter_is_done_idle rs : forall key t,
  filter is_done (idle_events_after_first key rs ++ t) = filter is_done t.
Proof.
  induction rs as [|[k more|v more] rs IH]; intros key t; [reflexivity| |];
    cbn [idle_events_after_first app filter is_done];
    rewrite <- app_assoc, filter_app, filter_is_done_reads;
    cbn [app filter is_done]; apply IH.
Qed.

Lemma filter_is_read_reads cs : filter is_read (map EvRead cs) = map EvRead cs.
Proof. induction cs; simpl; [reflexivity | now f_equal]. Qed.

Lemma filter_is_read_idle rs : forall key t,
  EvRead (first_command rs) :: filter is_read (idle_events_after_first key rs ++ t)
  = map EvRead (List.concat (map run_commands rs)) ++ EvRead CLOSE :: filter is_read t.
Proof.
  induction rs as [|[k more|v more] rs IH]; intros key t; [reflexivity| |].
  - cbn [idle_events_after_first first_command map List.concat run_commands].
    rewrite <- !app_assoc, filter_app, filter_is_read_reads.
    cbn [app filter is_read]. rewrite IH. cbn [map app].
    rewrite map_app, <- app_assoc. reflexivity.
  - cbn [idle_events_after_first first_command map List.concat run_commands].
    cbn [app filter is_read].
    rewrite <- !app_assoc, filter_app, filter_is_read_reads.
    cbn [app filter is_read]. rewrite IH. cbn [map app].
    rewrite map_app, <- app_assoc. reflexivity.
Qed.

Lemma idle_group_calls gs key :
  idle_reduce_calls key (flat_map group_runs gs) = map group_key_only gs.
Proof.
  revert key. induction gs as [|[[k v] vs] gs IH]; intros key; [reflexivity|].
  cbn [flat_map group_runs app idle_reduce_calls map group_key_only].
  rewrite IH. reflexivity.
Qed.

Section ReduceTaskIdle.

Variable create_digest : string -> string -> string.
Variables mrv1_to_mrv2 mrv2_to_mrv1 : PyDict.t.

(** X3: values a reducer does not read are skipped, not kept for a later
    call: with a reducer that returns without reading, [reduce] is still
    called once per group, no value is handed to any call, and every
    command up to [CLOSE] is read off the stream before the one [DONE]. *)
Theorem reduce_task_unread_values st part piped_output gs rest r n :
  stream st = RUN_REDUCE part piped_output
              :: List.concat (map group_commands gs) ++ CLOSE :: rest ->
  auth_done st = true ->
  mapper (context st) = None ->
  rclass (factory (context st)) = Some r ->
  reads_no_value r ->
  is_some (rwclass (factory (context st))) = negb (truthy piped_output) ->
  2 * List.length (List.concat (map group_commands gs)) + 4 <= n ->
  exists st' evs,
    next_ create_digest mrv1_to_mrv2 mrv2_to_mrv1 n st = (Exc StopIteration, st')
    /\ stream st' = rest
    /\ trace st' = trace st ++ evs
    /\ reduce_calls evs = map group_key_only gs
    /\ filter is_read evs
       = EvRead (RUN_REDUCE part piped_output)
         :: map EvRead (List.concat (map group_commands gs)) ++ [EvRead CLOSE]
    /\ count_done evs = 1.
Proof.
  intros Hs Ha Hm Hr Hidle Hw Hn.
  rewrite <- group_runs_commands in Hs, Hn |- *.
  set (rs := flat_map group_runs gs) in *.
  rewrite commands_length in Hn. rewrite commands_split in Hs.
  destruct n as [|[|[|n]]]; try lia.
  destruct (reduce_task_enter create_digest mrv1_to_mrv2 mrv2_to_mrv1
              st part piped_output (first_command rs) (first_item rs)
              (rest_commands rs ++ rest) r n Hs Ha Hm Hr Hw (item_of_first rs))
    as [s2 [Hrun [Hs2 [Ha2 [Hm2 [Hr2 [Hk2 Ht2]]]]]]].
  rewrite Hrun. unfold bind at 1.
  rewrite (reduce_loop_runs_idle _
             (next_item create_digest mrv1_to_mrv2 mrv2_to_mrv1 (S n)) r Hidle
             rs (S (S n)) None s2 rest (alternating_group_runs gs));
    try assumption; try discriminate; [|lia].
  eexists. eexists. split; [reflexivity|].
  split; [reflexivity|].
  cbn [context with_trace with_stream with_context trace].
  rewrite Hk2, Ht2, <- app_assoc. cbn [app].
  split; [reflexivity|].
  split; [|split].
  - cbn [reduce_calls]. rewrite reduce_calls_idle.
    + apply idle_group_calls.
    + apply values_handed_teardown.
    + apply reduce_calls_teardown.
  - cbn [filter is_read]. rewrite filter_is_read_idle, filter_is_read_teardown.
    reflexivity.
  - unfold count_done. cbn [filter is_done]. rewrite filter_is_done_idle.
    apply count_done_teardown.
Qed.

End ReduceTaskIdle.

(** ** The job configuration of the context *)

Lemma keeps_ret A (a : A) : keeps_job_conf (ret a).
Proof. intros s r s' [= <- <-]. reflexivity. Qed.

Lemma keeps_raise A e : keeps_job_conf (@raise A e).
Proof. intros s r s' [= <- <-]. reflexivity. Qed.

Lemma keeps_timeout A : keeps_job_conf (@timeout A).
Proof. intros s r s' [= <- <-]. reflexivity. Qed.

Lemma keeps_gets A (f : state -> A) : keeps_job_conf (gets f).
Proof. intros s r s' [= <- <-]. reflexivity. Qed.

Lemma keeps_modify f :
  (forall s, job_conf (context (f s)) = job_conf (context s)) ->
  keeps_job_conf (modify f).
Proof. intros Hf s r s' [= <- <-]. apply Hf. Qed.

Lemma keeps_bind A B (c : M A) (k : A -> M B) :
  keeps_job_conf c -> (forall a, keeps_job_conf (k a)) -> keeps_job_conf (bind c k).
Proof.
  intros Hc Hk s r s'. unfold bind. destruct (c s) as [[a|e|] s1] eqn:E.
  - intros H. rewrite (Hk a _ _ _ H). exact (Hc _ _ _ E).
  - intros [= <- <-]. exact (Hc _ _ _ E).
  - intros [= <- <-]. exact (Hc _ _ _ E).
Qed.

Lemma keeps_try_finally A (c : M A) fin :
  keeps_job_conf c -> keeps_job_conf fin -> keeps_job_conf (try_finally c fin).
Proof.
  intros Hc Hf s r s'. unfold try_finally.
  destruct (c s) as [r1 s1] eqn:E. pose proof (Hc _ _ _ E) as H1.
  destruct (fin s1) as [r2 s2] eqn:F. pose proof (Hf _ _ _ F) as H2.
  destruct r1, r2; intros [= <- <-]; congruence.
Qed.

Lemma keeps_catch_stop A (c : M A) : keeps_job_conf c -> keeps_job_conf (catch_stop c).
Proof.
  intros Hc s r s'. unfold catch_stop. destruct (c s) as [r1 s1] eqn:E.
  pose proof (Hc _ _ _ E) as H1.
  destruct r1 as [a|[]|]; intros [= <- <-]; exact H1.
Qed.

Lemma keeps_user_call r : keeps_job_conf (user_call r).
Proof. destruct r; [apply keeps_raise | apply keeps_ret]. Qed.

Lemma keeps_lift A (r : result A) : keeps_job_conf (lift r).
Proof. destruct r; [apply keeps_ret | apply keeps_raise]. Qed.

Ltac steady :=
  repeat first
    [ apply keeps_ret
    | apply keeps_raise
    | apply keeps_timeout
    | apply keeps_gets
    | apply keeps_user_call
    | apply keeps_lift
    | apply keeps_modify; intros; reflexivity
    | apply keeps_bind; [|intros]
    | apply keeps_try_finally
    | match goal with
      | |- keeps_job_conf (match ?x with _ => _ end) => destruct x
      | |- keeps_job_conf (if ?x then _ else _) => destruct x
      end ].

Lemma keeps_Context_close : keeps_job_conf Context_close.
Proof.
  unfold Context_close, close_if_present, CommandWriter_done, log. steady.
Qed.

Lemma keeps_close_and_stop : keeps_job_conf close_and_stop.
Proof. unfold close_and_stop. apply keeps_try_finally; [apply keeps_Context_close | steady]. Qed.

Lemma keeps_call_map : keeps_job_conf call_map.
Proof. unfold call_map, log. steady. Qed.

Lemma keeps_map_records recs : keeps_job_conf (map_records recs).
Proof.
  induction recs as [|[k v] recs IH]; simpl; [steady|].
  apply keeps_bind; [unfold modify_context; steady | intros _].
  apply keeps_bind; [apply keeps_call_map | intros _; exact IH].
Qed.

Lemma keeps_setup_record_writer b : keeps_job_conf (setup_record_writer b).
Proof. unfold setup_record_writer, create_record_writer, modify_context. steady. Qed.

Lemma keeps_run_map split n piped_input : keeps_job_conf (run_map split n piped_input).
Proof.
  unfold run_map, run_map_with, create_record_reader, create_mapper, create_partitioner,
    job_conf_get_bool, modify_context.
  apply keeps_bind; [steady | intros _].
  apply keeps_bind; [steady | intros reader].
  destruct (is_some reader && truthy piped_input); [steady|].
  destruct (negb (is_some reader) && negb (truthy piped_input)); [steady|].
  apply keeps_bind; [|intros _].
  { destruct (n <? 1)%Z; [|steady].
    apply keeps_bind; [steady | intros _].
    apply keeps_bind; [steady | intros b].
    apply keeps_setup_record_writer. }
  apply keeps_bind; [steady | intros _].
  apply keeps_bind; [steady | intros _].
  apply keeps_bind; [steady | intros _].
  destruct reader as [r|]; [|steady].
  apply keeps_bind; [apply keeps_map_records | intros _].
  apply keeps_bind; [apply keeps_close_and_stop | intros _; steady].
Qed.

Lemma keeps_set_input_types kt vt : keeps_job_conf (set_input_types kt vt).
Proof. unfold set_input_types. steady. Qed.

Lemma keeps_verify_digest cd d c : keeps_job_conf (verify_digest cd d c).
Proof. unfold verify_digest, CommandWriter_authenticate, log. steady. Qed.

(** [read_job_conf] hands [JobConf] a generator, and [JobConf.__init__]
    asks for its length: the call never returns. *)
Lemma read_job_conf_raises t1 t2 items s :
  read_job_conf t1 t2 items s
  = (Exc (if Nat.odd (List.length items)
          then RuntimeError "number of items is not even"
          else TypeError "object of type 'generator' has no len()"), s).
Proof. unfold read_job_conf. destruct (Nat.odd (List.length items)); reflexivity. Qed.

Section KeepsGrouping.

Variable next_self : M (option item).
Hypothesis next_self_keeps : keeps_job_conf next_self.

Lemma keeps_groupby_step g : keeps_job_conf (groupby_step next_self g).
Proof.
  unfold groupby_step. apply keeps_bind.
  - now apply keeps_catch_stop.
  - intros o. steady.
Qed.

Lemma keeps_groupby_next n : forall g, keeps_job_conf (groupby_next next_self n g).
Proof.
  induction n as [|n IH]; intros g; simpl.
  - steady.
  - assert (Hskip : keeps_job_conf
                      (o <- groupby_step next_self g;;
                       match o with
                       | Some g' => groupby_next next_self n g'
                       | None => ret None
                       end)).
    { apply keeps_bind; [apply keeps_groupby_step|].
      intros [g'|]; [apply IH | steady]. }
    destruct (currkey g) as [ck|]; [|exact Hskip].
    destruct (tgtkey g) as [tk|]; [|steady].
    destruct (tk =? ck)%Z; [exact Hskip | steady].
Qed.

Lemma keeps_grouper_next g : keeps_job_conf (grouper_next next_self g).
Proof.
  unfold grouper_next. apply keeps_bind.
  - destruct (currvalue g); [steady | apply keeps_groupby_step].
  - intros o. steady.
Qed.

Lemma keeps_run_reduce n : forall r k seen ended g,
  keeps_job_conf (run_reduce next_self n r k seen ended g).
Proof.
  induction n as [|n IH]; intros r k seen ended g; simpl.
  - destruct (reducer_reduce r k seen ended); steady.
  - destruct (reducer_reduce r k seen ended); [|steady|steady].
    destruct ended; [apply IH|].
    apply keeps_bind; [apply keeps_grouper_next|].
    intros og. destruct (fst og); [|apply IH].
    apply keeps_bind; [unfold log; steady | intros _; apply IH].
Qed.

Lemma keeps_reduce_body n cmd g : keeps_job_conf (reduce_body next_self n cmd g).
Proof.
  unfold reduce_body.
  apply keeps_bind.
  { destruct (cmd =? REDUCE_KEY_code)%Z; [|steady].
    apply keeps_bind; [apply keeps_grouper_next|].
    intros og. unfold modify_context. steady. }
  intros g1. apply keeps_bind.
  { destruct (cmd =? REDUCE_VALUE_code)%Z; [|steady].
    apply keeps_bind; [steady|]. intros [r|]; [|steady].
    apply keeps_bind; [steady|]. intros k.
    apply keeps_bind; [unfold log; steady|]. intros _. apply keeps_run_reduce. }
  intros g2. apply keeps_bind; [|intros; steady].
  destruct (cmd =? CLOSE_code)%Z; [apply keeps_close_and_stop | steady].
Qed.

Lemma keeps_reduce_loop n : forall g, keeps_job_conf (reduce_loop next_self n g).
Proof.
  induction n as [|n IH]; intros g; simpl; [steady|].
  apply keeps_bind; [apply keeps_groupby_next|].
  intros [[cmd g1]|]; [|steady].
  apply keeps_bind; [apply keeps_reduce_body | intros g2; apply IH].
Qed.

Lemma keeps_run_reduce_task n part piped_output :
  keeps_job_conf (run_reduce_task next_self n part piped_output).
Proof.
  unfold run_reduce_task.
  apply keeps_bind; [unfold create_reducer, modify_context; steady | intros _].
  apply keeps_bind; [apply keeps_setup_record_writer | intros _].
  apply keeps_bind; [steady | intros pe].
  apply keeps_bind; [steady | intros _].
  apply keeps_bind; [apply keeps_reduce_loop | intros _; steady].
Qed.

End KeepsGrouping.

Section Keeps.

Variable create_digest : string -> string -> string.
Variables mrv1_to_mrv2 mrv2_to_mrv1 : PyDict.t.

Lemma keeps_read_command : keeps_job_conf read_command.
Proof.
  intros s r s'. unfold read_command. destruct (stream s); intros [= <- <-]; reflexivity.
Qed.

Lemma keeps_next n : keeps_job_conf (next_ create_digest mrv1_to_mrv2 mrv2_to_mrv1 n).
Proof.
  induction n as [|n IH]; [simpl; steady|].
  cbn [next_]. apply keeps_bind; [apply keeps_read_command | intros c].
  apply keeps_bind; [steady | intros authenticated].
  destruct (negb (opcode c =? AUTHENTICATION_REQ_code)%Z && negb authenticated);
    [steady|].
  destruct c.
  - steady.
  - intros s r s'. unfold bind at 1. rewrite read_job_conf_raises.
    intros [= <- <-]. reflexivity.
  - apply keeps_bind; [apply keeps_set_input_types | intros; steady].
  - apply keeps_run_map.
  - unfold modify_context.
    apply keeps_bind; [steady | intros _].
    apply keeps_bind; [apply keeps_call_map | intros; steady].
  - apply keeps_run_reduce_task. exact IH.
  - steady.
  - steady.
  - apply keeps_bind; [steady | intros m].
    destruct (is_some m); [|steady].
    apply keeps_bind; [apply keeps_close_and_stop | intros; steady].
  - steady.
  - apply keeps_bind; [apply keeps_verify_digest | intros; steady].
  - steady.
Qed.

Lemma keeps_downlink_loop n :
  keeps_job_conf (downlink_loop create_digest mrv1_to_mrv2 mrv2_to_mrv1 n).
Proof.
  induction n as [|n IH]; simpl; [steady|].
  apply keeps_bind; [apply keeps_catch_stop, keeps_next|].
  intros [o|]; [exact IH | steady].
Qed.

(** X16: no run of [run_task] ever changes [context.job_conf]: at the
    end it is still the empty [dict] that [Context.__init__] stored. *)
Theorem job_conf_never_set n f kw pw istream r st' :
  run_task create_digest mrv1_to_mrv2 mrv2_to_mrv1 n f kw pw istream = (r, st') ->
  job_conf (context st') = None.
Proof.
  unfold run_task. intros E.
  exact (keeps_downlink_loop n _ _ _ E).
Qed.

(** X15: [SET_JOB_CONF] ends the run: with an odd number of items
    [read_job_conf] raises a [RuntimeError]; with an even number it hands
    [JobConf] a generator, whose length [JobConf.__init__] asks for, which
    is a [TypeError].  The job configuration is not stored. *)
Theorem set_job_conf_is_fatal st items rest n :
  stream st = SET_JOB_CONF items :: rest ->
  auth_done st = true ->
  downlink_loop create_digest mrv1_to_mrv2 mrv2_to_mrv1 (S (S n)) st
  = (Exc (if Nat.odd (List.length items)
          then RuntimeError "number of items is not even"
          else TypeError "object of type 'generator' has no len()"),
     after_read st (SET_JOB_CONF items) rest).
Proof.
  intros Hs Ha. rewrite downlink_loop_S. read_first Hs Ha.
  unfold bind at 1. rewrite read_job_conf_raises.
  destruct (Nat.odd (List.length items)); reflexivity.
Qed.

(** X10: a map-only [RUN_MAP] (fewer than one reduce task) reads
    [isjavarecordwriter] off [context.job_conf]; while that is still the
    [dict] of [Context.__init__] the command fails -- with an
    [AttributeError] once the record reader check has passed -- before a
    mapper is created. *)
Theorem map_only_needs_job_conf st split n piped_input rest fuel :
  stream st = RUN_MAP split n piped_input :: rest ->
  auth_done st = true ->
  (n < 1)%Z ->
  job_conf (context st) = None ->
  exists e st',
    next_ create_digest mrv1_to_mrv2 mrv2_to_mrv1 (S fuel) st = (Exc e, st')
    /\ mapper (context st') = mapper (context st)
    /\ trace st' = trace st ++ [EvRead (RUN_MAP split n piped_input)]
    /\ (is_some (rrclass (factory (context st))) = negb (truthy piped_input) ->
        e = AttributeError "'dict' object has no attribute 'get_bool'").
Proof.
  intros Hs Ha Hn Hjc.
  rewrite (next_RUN_MAP create_digest mrv1_to_mrv2 mrv2_to_mrv1 fuel st split n
             piped_input rest Hs Ha).
  destruct st as [str ctx pe au rs rk rv pw ad gk gv tr].
  destruct ctx as [f jc isp k v m p rr rw rd nr].
  cbn [context job_conf factory mapper trace] in Hjc |- *. subst jc.
  unfold run_map, run_map_with, job_conf_get_bool, create_record_reader,
    modify_context, modify, gets, bind, ret, raise, after_read.
  cbn [context with_context with_trace with_stream record_reader ctx_with_record_reader
       ctx_with_input_split factory job_conf trace].
  destruct (Z.ltb_spec n 1) as [_|H]; [|lia].
  destruct (rrclass f) as [reader|], (truthy piped_input);
    cbn [is_some andb negb];
    eexists; eexists; (split; [reflexivity|]); (split; [reflexivity|]);
    (split; [reflexivity|]); intros H; try discriminate H; reflexivity.
Qed.

End Keeps.

(** ** The partitioner and the number of reducers *)

Lemma guard_ret A (a : A) : keeps_guard (ret a).
Proof. intros s r s' [= <- <-] H. exact H. Qed.

Lemma guard_raise A e : keeps_guard (@raise A e).
Proof. intros s r s' [= <- <-] H. exact H. Qed.

Lemma guard_timeout A : keeps_guard (@timeout A).
Proof. intros s r s' [= <- <-] H. exact H. Qed.

Lemma guard_gets A (f : state -> A) : keeps_guard (gets f).
Proof. intros s r s' [= <- <-] H. exact H. Qed.

Lemma guard_modify f :
  (forall s, partitioner_guarded s -> partitioner_guarded (f s)) ->
  keeps_guard (modify f).
Proof. intros Hf s r s' [= <- <-] H. apply Hf, H. Qed.

Lemma guard_bind A B (c : M A) (k : A -> M B) :
  keeps_guard c -> (forall a, keeps_guard (k a)) -> keeps_guard (bind c k).
Proof.
  intros Hc Hk s r s'. unfold bind. destruct (c s) as [[a|e|] s1] eqn:E.
  - intros H H0. exact (Hk a _ _ _ H (Hc _ _ _ E H0)).
  - intros [= <- <-]. exact (Hc _ _ _ E).
  - intros [= <- <-]. exact (Hc _ _ _ E).
Qed.

Lemma guard_try_finally A (c : M A) fin :
  keeps_guard c -> keeps_guard fin -> keeps_guard (try_finally c fin).
Proof.
  intros Hc Hf s r s'. unfold try_finally.
  destruct (c s) as [r1 s1] eqn:E. pose proof (Hc _ _ _ E) as H1.
  destruct (fin s1) as [r2 s2] eqn:F. pose proof (Hf _ _ _ F) as H2.
  destruct r1, r2; intros [= <- <-]; auto.
Qed.

Lemma guard_catch_stop A (c : M A) : keeps_guard c -> keeps_guard (catch_stop c).
Proof.
  intros Hc s r s'. unfold catch_stop. destruct (c s) as [r1 s1] eqn:E.
  pose proof (Hc _ _ _ E) as H1.
  destruct r1 as [a|[]|]; intros [= <- <-]; exact H1.
Qed.

Lemma guard_user_call r : keeps_guard (user_call r).
Proof. destruct r; [apply guard_raise | apply guard_ret]. Qed.

Lemma guard_lift A (r : result A) : keeps_guard (lift r).
Proof. destruct r; [apply guard_ret | apply guard_raise]. Qed.

(** Whatever leaves the job configuration, the partitioner and the number
    of reducers alone keeps the guard. *)
Ltac orderly :=
  repeat first
    [ apply guard_ret
    | apply guard_raise
    | apply guard_timeout
    | apply guard_gets
    | apply guard_user_call
    | apply guard_lift
    | apply guard_modify; intros ? H; exact H
    | apply guard_bind; [|intros]
    | apply guard_try_finally
    | match goal with
      | |- keeps_guard (match ?x with _ => _ end) => destruct x
      | |- keeps_guard (if ?x then _ else _) => destruct x
      end ].

Lemma guard_Context_close : keeps_guard Context_close.
Proof.
  unfold Context_close, close_if_present, CommandWriter_done, log. orderly.
Qed.

Lemma guard_close_and_stop : keeps_guard close_and_stop.
Proof.
  unfold close_and_stop. apply guard_try_finally; [apply guard_Context_close | orderly].
Qed.

Lemma guard_call_map : keeps_guard call_map.
Proof. unfold call_map, log. orderly. Qed.

Lemma guard_map_records recs : keeps_guard (map_records recs).
Proof.
  induction recs as [|[k v] recs IH]; simpl; [orderly|].
  apply guard_bind; [unfold modify_context; orderly | intros _].
  apply guard_bind; [apply guard_call_map | intros _; exact IH].
Qed.

Lemma guard_setup_record_writer b : keeps_guard (setup_record_writer b).
Proof. unfold setup_record_writer, create_record_writer, modify_context. orderly. Qed.

(** With fewer than one reducer, [RUN_MAP] asks the job configuration for
    [isjavarecordwriter]; the [dict] of [Context.__init__] has no
    [get_bool], so the handler stops there, before the number of reducers
    is stored and before a partitioner is created. *)
Lemma map_only_stops A (k : unit -> M A) s :
  job_conf (context s) = None ->
  bind (modify (fun s => with_private_encoding s false) ;;
        piped_output <- job_conf_get_bool IS_JAVA_RW ;;
        setup_record_writer
          (match piped_output with Some b => b | None => false end)) k s
  = (Exc (AttributeError "'dict' object has no attribute 'get_bool'"),
     with_private_encoding s false).
Proof.
  intros Hjc. destruct s as [str ctx pe au rs rk rv pw ad gk gv tr].
  cbn [context] in Hjc.
  unfold bind at 1. unfold bind at 1. unfold modify at 1.
  unfold bind at 1. unfold job_conf_get_bool, bind at 1. unfold gets.
  cbn [context with_private_encoding]. rewrite Hjc. reflexivity.
Qed.

(** With at least one reducer, the number is stored before the
    partitioner is created. *)
Lemma guard_store_then_create A n (rest : M A) :
  (1 <= n)%Z ->
  keeps_guard rest ->
  keeps_guard (modify_context (fun c => ctx_with_nred c (Some n)) ;;
               create_mapper ;;
               create_partitioner ;;
               rest).
Proof.
  intros Hn Hrest s r s' E [Hjc _].
  unfold bind, modify_context, create_mapper, create_partitioner, modify, gets in E.
  apply (Hrest _ _ _ E). split.
  - exact Hjc.
  - intros _. exists n. split; [reflexivity | exact Hn].
Qed.

Lemma guard_run_map split n piped_input : keeps_guard (run_map split n piped_input).
Proof.
  unfold run_map, run_map_with.
  apply guard_bind; [unfold modify_context; orderly | intros _].
  apply guard_bind; [unfold create_record_reader, modify_context; orderly | intros reader].
  destruct (is_some reader && truthy piped_input); [orderly|].
  destruct (negb (is_some reader) && negb (truthy piped_input)); [orderly|].
  destruct (Z.ltb_spec n 1) as [Hn|Hn].
  - intros s r s' E H. rewrite (map_only_stops _ _ s (proj1 H)) in E.
    injection E as <- <-. exact H.
  - apply guard_bind; [orderly | intros _].
    apply guard_store_then_create; [exact Hn|].
    destruct reader as [rd|]; [|orderly].
    apply guard_bind; [apply guard_map_records | intros _].
    apply guard_bind; [apply guard_close_and_stop | intros _; orderly].
Qed.

Lemma guard_set_input_types kt vt : keeps_guard (set_input_types kt vt).
Proof. unfold set_input_types. orderly. Qed.

Lemma guard_verify_digest cd d c : keeps_guard (verify_digest cd d c).
Proof. unfold verify_digest, CommandWriter_authenticate, log. orderly. Qed.

Section GuardGrouping.

Variable next_self : M (option item).
Hypothesis next_self_guard : keeps_guard next_self.

Lemma guard_groupby_step g : keeps_guard (groupby_step next_self g).
Proof.
  unfold groupby_step. apply guard_bind.
  - now apply guard_catch_stop.
  - intros o. orderly.
Qed.

Lemma guard_groupby_next n : forall g, keeps_guard (groupby_next next_self n g).
Proof.
  induction n as [|n IH]; intros g; simpl.
  - orderly.
  - assert (Hskip : keeps_guard
                      (o <- groupby_step next_self g;;
                       match o with
                       | Some g' => groupby_next next_self n g'
                       | None => ret None
                       end)).
    { apply guard_bind; [apply guard_groupby_step|].
      intros [g'|]; [apply IH | orderly]. }
    destruct (currkey g) as [ck|]; [|exact Hskip].
    destruct (tgtkey g) as [tk|]; [|orderly].
    destruct (tk =? ck)%Z; [exact Hskip | orderly].
Qed.

Lemma guard_grouper_next g : keeps_guard (grouper_next next_self g).
Proof.
  unfold grouper_next. apply guard_bind.
  - destruct (currvalue g); [orderly | apply guard_groupby_step].
  - intros o. orderly.
Qed.

Lemma guard_run_reduce n : forall r k seen ended g,
  keeps_guard (run_reduce next_self n r k seen ended g).
Proof.
  induction n as [|n IH]; intros r k seen ended g; simpl.
  - destruct (reducer_reduce r k seen ended); orderly.
  - destruct (reducer_reduce r k seen ended); [|orderly|orderly].
    destruct ended; [apply IH|].
    apply guard_bind; [apply guard_grouper_next|].
    intros og. destruct (fst og); [|apply IH].
    apply guard_bind; [unfold log; orderly | intros _; apply IH].
Qed.

Lemma guard_reduce_body n cmd g : keeps_guard (reduce_body next_self n cmd g).
Proof.
  unfold reduce_body.
  apply guard_bind.
  { destruct (cmd =? REDUCE_KEY_code)%Z; [|orderly].
    apply guard_bind; [apply guard_grouper_next|].
    intros og. unfold modify_context. orderly. }
  intros g1. apply guard_bind.
  { destruct (cmd =? REDUCE_VALUE_code)%Z; [|orderly].
    apply guard_bind; [orderly|]. intros [r|]; [|orderly].
    apply guard_bind; [orderly|]. intros k.
    apply guard_bind; [unfold log; orderly|]. intros _. apply guard_run_reduce. }
  intros g2. apply guard_bind; [|intros; orderly].
  destruct (cmd =? CLOSE_code)%Z; [apply guard_close_and_stop | orderly].
Qed.

Lemma guard_reduce_loop n : forall g, keeps_guard (reduce_loop next_self n g).
Proof.
  induction n as [|n IH]; intros g; simpl; [orderly|].
  apply guard_bind; [apply guard_groupby_next|].
  intros [[cmd g1]|]; [|orderly].
  apply guard_bind; [apply guard_reduce_body | intros g2; apply IH].
Qed.

Lemma guard_run_reduce_task n part piped_output :
  keeps_guard (run_reduce_task next_self n part piped_output).
Proof.
  unfold run_reduce_task.
  apply guard_bind; [unfold create_reducer, modify_context; orderly | intros _].
  apply guard_bind; [apply guard_setup_record_writer | intros _].
  apply guard_bind; [orderly | intros pe].
  apply guard_bind; [orderly | intros _].
  apply guard_bind; [apply guard_reduce_loop | intros _; orderly].
Qed.

End GuardGrouping.

Section Guard.

Variable create_digest : string -> string -> string.
Variables mrv1_to_mrv2 mrv2_to_mrv1 : PyDict.t.

Lemma guard_read_command : keeps_guard read_command.
Proof.
  intros s r s'. unfold read_command.
  destruct (stream s); intros [= <- <-] H; exact H.
Qed.

Lemma guard_next n : keeps_guard (next_ create_digest mrv1_to_mrv2 mrv2_to_mrv1 n).
Proof.
  induction n as [|n IH]; [simpl; orderly|].
  cbn [next_]. apply guard_bind; [apply guard_read_command | intros c].
  apply guard_bind; [orderly | intros authenticated].
  destruct (negb (opcode c =? AUTHENTICATION_REQ_code)%Z && negb authenticated);
    [orderly|].
  destruct c.
  - orderly.
  - intros s r s'. unfold bind at 1. rewrite read_job_conf_raises.
    intros [= <- <-] H. exact H.
  - apply guard_bind; [apply guard_set_input_types | intros; orderly].
  - apply guard_run_map.
  - unfold modify_context.
    apply guard_bind; [orderly | intros _].
    apply guard_bind; [apply guard_call_map | intros; orderly].
  - apply guard_run_reduce_task. exact IH.
  - orderly.
  - orderly.
  - apply guard_bind; [orderly | intros m].
    destruct (is_some m); [|orderly].
    apply guard_bind; [apply guard_close_and_stop | intros; orderly].
  - orderly.
  - apply guard_bind; [apply guard_verify_digest | intros; orderly].
  - orderly.
Qed.

Lemma guard_downlink_loop n :
  keeps_guard (downlink_loop create_digest mrv1_to_mrv2 mrv2_to_mrv1 n).
Proof.
  induction n as [|n IH]; simpl; [orderly|].
  apply guard_bind; [apply guard_catch_stop, guard_next|].
  intros [o|]; [exact IH | orderly].
Qed.

(** C6: in every state a run of [run_task] can end in -- whatever the
    commands on the downlink, the components of the factory and the way
    the run ends, the step budget running out included -- a partitioner
    is present only when the stored number of reducers is at least 1.
    The [RUN_MAP] handler does create the partitioner without looking at
    the number, but with fewer than one reducer it never gets that far:
    it stops at [job_conf.get_bool], before the number is stored. *)
Theorem partitioner_needs_reducers n f kw pw istream r st' :
  run_task create_digest mrv1_to_mrv2 mrv2_to_mrv1 n f kw pw istream = (r, st') ->
  partitioner (context st') <> None ->
  exists k, nred (context st') = Some k /\ (1 <= k)%Z.
Proof.
  unfold run_task. intros E.
  apply (guard_downlink_loop n _ _ _ E).
  split; [reflexivity|]. intros H. exfalso. apply H. reflexivity.
Qed.

End Guard.

Lemma partitioner_needs_reducers_witness :
  let run :=
    run_task sample_digest sample_mrv1_to_mrv2 sample_mrv2_to_mrv1 6
      sample_factory default_kwargs (Some "secret")
      [AUTHENTICATION_REQ (sample_digest "secret" "challenge") "challenge";
       START 0; RUN_MAP PyNone 2 1; MAP_ITEM (PyBytes "k") (PyBytes "v"); CLOSE] in
  fst run = Val tt
  /\ partitioner (context (snd run)) = Some sample_partitioner
  /\ exists k, nred (context (snd run)) = Some k /\ (1 <= k)%Z.
Proof.
  intros run. split; [reflexivity|]. split; [reflexivity|].
  apply (partitioner_needs_reducers sample_digest sample_mrv1_to_mrv2 sample_mrv2_to_mrv1 6
           sample_factory default_kwargs (Some "secret")
           [AUTHENTICATION_REQ (sample_digest "secret" "challenge") "challenge";
            START 0; RUN_MAP PyNone 2 1; MAP_ITEM (PyBytes "k") (PyBytes "v"); CLOSE]
           (fst run) (snd run)).
  - vm_compute. reflexivity.
  - vm_compute. intros H. discriminate H.
Defined.

(** ** Version mirroring in [JobConf] *)

Lemma get_app_r k d e : ~ In k (PyDict.keys d) -> PyDict.get k (d ++ e) = PyDict.get k e.
Proof.
  induction d as [|[k' v'] d IH]; simpl; intros H; [reflexivity|].
  destruct (String.eqb_spec k k') as [->|Hne]; [tauto|]. apply IH. tauto.
Qed.

(** Every key of a sequence of pairs has a last occurrence. *)
Lemma last_occurrence ps k :
  In k (map fst ps) -> exists v, last_binding ps k v.
Proof.
  induction ps as [|[k0 v0] ps IH]; simpl; [tauto|].
  intros H. destruct (in_dec string_dec k (map fst ps)) as [Hin|Hni].
  - destruct (IH Hin) as [v [p1 [p2 [E Hlast]]]].
    exists v, ((k0, v0) :: p1), p2. split; [now rewrite E | exact Hlast].
  - destruct H as [<-|H]; [|contradiction].
    exists v0, [], ps. split; [reflexivity | exact Hni].
Qed.

(** [dict(pairs)] binds a key to the value of its last pair. *)
Lemma get_of_pairs_last ps k v :
  PyDict.get k (PyDict.of_pairs ps) = Some v <-> last_binding ps k v.
Proof.
  split.
  - intros Hget.
    assert (Hk : In k (map fst ps)).
    { apply PyDictFacts.keys_of_pairs_In. apply PyDictFacts.get_In in Hget.
      change (In (fst (k, v)) (map fst (PyDict.of_pairs ps))). now apply in_map. }
    destruct (last_occurrence ps k Hk) as [v' [p1 [p2 [E Hlast]]]].
    assert (Hv : PyDict.get k (PyDict.of_pairs ps) = Some v').
    { unfold PyDict.of_pairs. rewrite E. now apply PyDictFacts.get_fold_last. }
    rewrite Hget in Hv. injection Hv as ->. exists p1, p2. now split.
  - intros [p1 [p2 [E Hlast]]]. unfold PyDict.of_pairs. rewrite E.
    now apply PyDictFacts.get_fold_last.
Qed.

(** In a sequence of pairs with distinct keys every pair is the last of
    its key. *)
Lemma last_binding_distinct ps k v :
  NoDup (map fst ps) -> (last_binding ps k v <-> In (k, v) ps).
Proof.
  intros Hnd. split.
  - intros [p1 [p2 [E _]]]. rewrite E. apply in_or_app. right. now left.
  - intros Hin. destruct (in_split _ _ Hin) as [p1 [p2 E]].
    exists p1, p2. split; [exact E|].
    rewrite E, map_app in Hnd. cbn [map fst] in Hnd.
    apply NoDup_remove_2 in Hnd. intros H. apply Hnd. apply in_or_app. now right.
Qed.

Section AliasFacts.

Variables mrv1_to_mrv2 mrv2_to_mrv1 : PyDict.t.

(** A round of the loop for a key that has the alias [k2], not stored
    itself, binds [k2] to the value of that key. *)
Lemma mirror_key_binds self ext k v k2 :
  alias_of mrv1_to_mrv2 mrv2_to_mrv1 k k2 ->
  PyDict.mem k2 self = false ->
  PyDict.get k2 (mirror_key mrv1_to_mrv2 mrv2_to_mrv1 self ext (k, v)) = Some v.
Proof.
  intros Hal Hmem. unfold mirror_key.
  destruct (PyDict.get k mrv2_to_mrv1) as [k1|] eqn:E2.
  - destruct (String.eqb_spec k1 k2) as [->|Hne].
    + rewrite Hmem. simpl. apply PyDictFacts.get_set_same.
    + destruct Hal as [E1|E1]; [|congruence]. rewrite E1, Hmem. simpl.
      destruct (negb (PyDict.mem k1 self)).
      * rewrite PyDictFacts.get_set_other by congruence.
        apply PyDictFacts.get_set_same.
      * apply PyDictFacts.get_set_same.
  - destruct Hal as [E1|E1]; [|congruence]. rewrite E1, Hmem. simpl.
    apply PyDictFacts.get_set_same.
Qed.

(** A round for a key without the alias [k2] leaves the binding of [k2]
    alone. *)
Lemma mirror_key_other self ext k v k2 :
  ~ alias_of mrv1_to_mrv2 mrv2_to_mrv1 k k2 ->
  PyDict.get k2 (mirror_key mrv1_to_mrv2 mrv2_to_mrv1 self ext (k, v))
  = PyDict.get k2 ext.
Proof.
  intros Hno. unfold mirror_key, alias_of in *.
  assert (H1 : PyDict.get k2
                 match PyDict.get k mrv1_to_mrv2 with
                 | Some k3 => if negb (PyDict.mem k3 self) then PyDict.set k3 v ext else ext
                 | None => ext
                 end = PyDict.get k2 ext).
  { destruct (PyDict.get k mrv1_to_mrv2) as [k3|]; [|reflexivity].
    destruct (negb (PyDict.mem k3 self)); [|reflexivity].
    apply PyDictFacts.get_set_other. intros ->. tauto. }
  destruct (PyDict.get k mrv2_to_mrv1) as [k1|]; [|exact H1].
  destruct (negb (PyDict.mem k1 self)); [|exact H1].
  rewrite PyDictFacts.get_set_other; [exact H1|]. intros ->. tauto.
Qed.

Lemma fold_mirror_other self items k2 : forall ext,
  (forall k v, In (k, v) items -> ~ alias_of mrv1_to_mrv2 mrv2_to_mrv1 k k2) ->
  PyDict.get k2 (fold_left (mirror_key mrv1_to_mrv2 mrv2_to_mrv1 self) items ext)
  = PyDict.get k2 ext.
Proof.
  induction items as [|[k v] items IH]; intros ext Hno; [reflexivity|].
  cbn [fold_left]. rewrite IH.
  - apply mirror_key_other. apply (Hno k v). now left.
  - intros k' v' H. apply (Hno k' v'). now right.
Qed.

(** Once bound, an alias stays bound: later rounds may only rebind it. *)
Lemma mirror_key_keeps self ext kv k2 :
  PyDict.mem k2 ext = true ->
  PyDict.mem k2 (mirror_key mrv1_to_mrv2 mrv2_to_mrv1 self ext kv) = true.
Proof.
  assert (Hset : forall k v d, PyDict.mem k2 d = true ->
                               PyDict.mem k2 (PyDict.set k v d) = true).
  { intros k v d H. unfold PyDict.mem in *.
    destruct (String.eqb_spec k2 k) as [->|Hne].
    - now rewrite PyDictFacts.get_set_same.
    - now rewrite PyDictFacts.get_set_other. }
  destruct kv as [k v]. intros H. unfold mirror_key.
  assert (H1 : PyDict.mem k2
                 match PyDict.get k mrv1_to_mrv2 with
                 | Some k3 => if negb (PyDict.mem k3 self) then PyDict.set k3 v ext else ext
                 | None => ext
                 end = true).
  { destruct (PyDict.get k mrv1_to_mrv2) as [k3|]; [|exact H].
    destruct (negb (PyDict.mem k3 self)); [apply Hset|]; exact H. }
  destruct (PyDict.get k mrv2_to_mrv1) as [k1|]; [|exact H1].
  destruct (negb (PyDict.mem k1 self)); [apply Hset|]; exact H1.
Qed.

Lemma fold_mirror_keeps self items k2 : forall ext,
  PyDict.mem k2 ext = true ->
  PyDict.mem k2 (fold_left (mirror_key mrv1_to_mrv2 mrv2_to_mrv1 self) items ext) = true.
Proof.
  induction items as [|kv items IH]; intros ext H; [exact H|].
  cbn [fold_left]. apply IH, mirror_key_keeps, H.
Qed.

Lemma fold_mirror_binds self items k v k2 : forall ext,
  In (k, v) items ->
  alias_of mrv1_to_mrv2 mrv2_to_mrv1 k k2 ->
  PyDict.mem k2 self = false ->
  PyDict.mem k2 (fold_left (mirror_key mrv1_to_mrv2 mrv2_to_mrv1 self) items ext) = true.
Proof.
  induction items as [|kv items IH]; intros ext Hin Hal Hmem; [destruct Hin|].
  cbn [fold_left]. destruct Hin as [->|Hin].
  - apply fold_mirror_keeps. unfold PyDict.mem.
    now rewrite (mirror_key_binds self ext k v k2 Hal Hmem).
  - now apply IH.
Qed.

Lemma mem_app k d e :
  PyDict.mem k (d ++ e) = PyDict.mem k d || PyDict.mem k e.
Proof.
  unfold PyDict.mem. induction d as [|[k' v'] d IH]; simpl; [reflexivity|].
  destruct (String.eqb k k'); [reflexivity | exact IH].
Qed.

(** X18: version mirroring.  When a key given to [JobConf] has an alias
    in one of the conversion tables, the alias can be read from the new
    [JobConf] too: a given alias keeps its own value, and an alias that is
    not given takes the value of the key, provided no other given key has
    the same alias.  The key itself keeps its value. *)
Theorem JobConf_init_mirrors values k v k2 :
  Nat.even (List.length values) = true ->
  PyDict.get k (PyDict.of_pairs (flat_pairs values)) = Some v ->
  alias_of mrv1_to_mrv2 mrv2_to_mrv1 k k2 ->
  exists jc,
    JobConf_init mrv1_to_mrv2 mrv2_to_mrv1 values = Ok jc
    /\ PyDict.get k jc = Some v
    /\ PyDict.mem k2 jc = true
    /\ (forall v2, PyDict.get k2 (PyDict.of_pairs (flat_pairs values)) = Some v2 ->
        PyDict.get k2 jc = Some v2)
    /\ (PyDict.get k2 (PyDict.of_pairs (flat_pairs values)) = None ->
        (forall k', In k' (map fst (flat_pairs values)) ->
                    alias_of mrv1_to_mrv2 mrv2_to_mrv1 k' k2 -> k' = k) ->
        PyDict.get k2 jc = Some v).
Proof.
  intros Heven Hget Hal.
  set (self := PyDict.of_pairs (flat_pairs values)) in *.
  exists (self ++ mirror_ext mrv1_to_mrv2 mrv2_to_mrv1 self).
  assert (Hin : In (k, v) self) by now apply PyDictFacts.get_In.
  assert (Hk : In k (PyDict.keys self)).
  { change (In (fst (k, v)) (map fst self)). now apply in_map. }
  assert (Hnd : NoDup (PyDict.keys self)) by apply PyDictFacts.NoDup_keys_of_pairs.
  split; [now apply JobConf_init_even|].
  split; [now rewrite PyDictFacts.get_app_l|].
  split; [|split].
  - rewrite mem_app. destruct (PyDict.mem k2 self) eqn:M; [reflexivity|].
    simpl. unfold mirror_ext. now apply (fold_mirror_binds self self k v k2).
  - intros v2 H2. rewrite PyDictFacts.get_app_l; [exact H2|].
    apply PyDictFacts.get_In in H2.
    change (In (fst (k2, v2)) (map fst self)). now apply in_map.
  - intros Hnone Huniq.
    assert (Hni : ~ In k2 (PyDict.keys self)) by now apply PyDictFacts.get_None.
    rewrite get_app_r by exact Hni.
    assert (Hmem : PyDict.mem k2 self = false) by (unfold PyDict.mem; now rewrite Hnone).
    destruct (in_split _ _ Hin) as [pre [post Hsplit]].
    unfold mirror_ext. rewrite Hsplit at 2. rewrite fold_left_app. cbn [fold_left].
    rewrite fold_mirror_other.
    + now apply mirror_key_binds.
    + intros k' v' Hin' Hal'.
      assert (Hk' : In k' (map fst (flat_pairs values))).
      { apply PyDictFacts.keys_of_pairs_In.
        change (In (fst (k', v')) (map fst self)). apply in_map.
        rewrite Hsplit. apply in_or_app. right. now right. }
      pose proof (Huniq k' Hk' Hal') as ->.
      unfold PyDict.keys in Hnd. rewrite Hsplit, map_app in Hnd. cbn [map fst] in Hnd.
      apply NoDup_remove_2 in Hnd. apply Hnd. apply in_or_app. right.
      change (In (fst (k, v')) (map fst post)). now apply in_map.
Qed.


End AliasFacts.



(** ** [Context.emit] *)

Section EmitFacts.

Variable create_digest : string -> string -> string.
Variables mrv1_to_mrv2 mrv2_to_mrv1 : PyDict.t.
Variable dumps : pyobj -> pyobj.
Variable encode_text : pyobj -> pyobj.
Variable writer_emit : RecordWriter -> pyobj -> pyobj -> option exn.
Variable partition_without_count : Partitioner -> pyobj -> result Z.

(** X19: in a map task with reducers and private encoding (the
    default), with no record writer, [emit] pickles key and value and
    sends one command up: [PARTITIONED_OUTPUT] with the partition that the
    partitioner computes from the pickled key and the number of reducers of
    [RUN_MAP] when the factory has a partitioner class, [OUTPUT]
    otherwise. *)
Theorem emit_in_map_task st split n piped_input rest fuel key value :
  stream st = RUN_MAP split n piped_input :: rest ->
  auth_done st = true ->
  rrclass (factory (context st)) = None ->
  truthy piped_input = true ->
  (1 <= n)%Z ->
  private_encoding st = true ->
  record_writer (context st) = None ->
  exists st',
    next_ create_digest mrv1_to_mrv2 mrv2_to_mrv1 (S fuel) st = (Val None, st')
    /\ Context_emit dumps encode_text writer_emit partition_without_count key value st'
       = (Val tt,
          with_trace st'
            (trace st' ++ [EvUp (output_command (pclass (factory (context st))) n
                                   (dumps key) (dumps value))])).
Proof.
  intros Hs Ha Hrr Hp Hn Hpe Hrw.
  exists (map_ready (after_read st (RUN_MAP split n piped_input) rest) split n).
  split.
  - rewrite (next_RUN_MAP create_digest mrv1_to_mrv2 mrv2_to_mrv1 fuel st split n
               piped_input rest Hs Ha).
    rewrite run_map_setup.
    + change (rrclass (factory (context (after_read st (RUN_MAP split n piped_input) rest))))
        with (rrclass (factory (context st))).
      now rewrite Hrr.
    + change (rrclass (factory (context (after_read st (RUN_MAP split n piped_input) rest))))
        with (rrclass (factory (context st))).
      now rewrite Hrr, Hp.
    + intros H. lia.
  - destruct st as [str ctx pe au rs rk rv pw ad gk gv tr].
    destruct ctx as [f jc isp k v m p rr rw rd nr].
    cbn [context private_encoding record_writer factory] in Hpe, Hrw |- *. subst pe rw.
    unfold map_ready. cbn [context factory after_read with_trace with_stream].
    destruct (Z.ltb_spec n 1) as [H|_]; [lia|].
    unfold output_command. destruct (pclass f) as [q|]; reflexivity.
Qed.

(** X21: in a reduce task no mapper is active, so [emit] does not pickle
    even with private encoding on: the record goes to the record writer
    when the factory has a record writer class, and up as one [OUTPUT]
    otherwise, text-encoded when [auto_serialize] is set. *)
Theorem emit_in_reduce_task next_self fuel st part piped_output key value :
  mapper (context st) = None ->
  partitioner (context st) = None ->
  is_some (rwclass (factory (context st))) = negb (truthy piped_output) ->
  run_reduce_task next_self fuel part piped_output st
  = bind (reduce_loop next_self fuel groupby_init) (fun _ => ret None) (reduce_ready st)
  /\ Context_emit dumps encode_text writer_emit partition_without_count key value
       (reduce_ready st)
     = match rwclass (factory (context st)) with
       | Some w => (user_outcome (writer_emit w key value), reduce_ready st)
       | None =>
           (Val tt,
            with_trace (reduce_ready st)
              (trace (reduce_ready st)
               ++ [EvUp (OUTPUT (auto_serialized encode_text (auto_serialize st) key)
                                (auto_serialized encode_text (auto_serialize st) value))]))
       end.
Proof.
  intros Hm Hp Hw. split; [now apply run_reduce_task_setup|].
  destruct st as [str ctx pe au rs rk rv pw ad gk gv tr].
  destruct ctx as [f jc isp k v m p rr rw rd nr].
  cbn [context mapper partitioner factory auto_serialize] in Hm, Hp |- *. subst m p.
  unfold reduce_ready, auto_serialized, user_outcome.
  cbn [context factory private_encoding].
  destruct (rwclass f) as [w|].
  - unfold Context_emit, bind, gets, user_call, ret, raise.
    destruct pe; simpl; destruct (writer_emit w key value); reflexivity.
  - destruct pe, au; reflexivity.
Qed.

End EmitFacts.

(** ** Work files *)

Section GetterFacts.

Variable int_of_str : string -> option Z.

(** X22: [get_default_work_file] raises a [RuntimeError] only for a
    missing work path, and then the partition number was found and parsed:
    its check for a missing partition number never fires, since
    [get_int] does not return [None] -- a configuration without the
    partition entry makes it raise a [TypeError]. *)
Theorem work_file_errors ctx extension :
  (forall msg,
     Context_get_default_work_file int_of_str ctx extension
     = Failed (Known (RuntimeError msg)) ->
     msg = "'mapreduce.task.output.dir' not set"
     /\ PyDict.get TASK_OUTPUT_DIR (job_conf_dict ctx) = None
     /\ exists d s z, job_conf ctx = Some d
                      /\ PyDict.get TASK_PARTITION d = Some s
                      /\ int_of_str s = Some z)
  /\ (forall d, job_conf ctx = Some d -> PyDict.get TASK_PARTITION d = None ->
      exists msg,
        Context_get_default_work_file int_of_str ctx extension
        = Failed (Known (TypeError msg))).
Proof.
  split.
  - intros msg. unfold Context_get_default_work_file, Context_get_task_partition,
      JobConf_get_int, py_int, Context_get_work_path, job_conf_dict.
    destruct (job_conf ctx) as [d|]; [|discriminate].
    destruct (PyDict.get TASK_PARTITION d) as [s|] eqn:Ep; [|discriminate].
    destruct (int_of_str s) as [z|] eqn:Ez; [|discriminate].
    destruct (PyDict.get TASK_OUTPUT_DIR d) as [wp|] eqn:Ew; [discriminate|].
    intros [= <-]. split; [reflexivity|]. split; [reflexivity|].
    exists d, s, z. auto.
  - intros d Hd Hp. unfold Context_get_default_work_file, Context_get_task_partition,
      JobConf_get_int, py_int. rewrite Hd, Hp. eexists. reflexivity.
Qed.

End GetterFacts.

(** ** Whole sessions *)

Section Sessions.

Variable create_digest : string -> string -> string.
Variables mrv1_to_mrv2 mrv2_to_mrv1 : PyDict.t.

(** The handshake of a session. *)
Lemma handshake n f kw secret challenge rest :
  downlink_loop create_digest mrv1_to_mrv2 mrv2_to_mrv1 (S (S (S n)))
    (BinaryProtocol_init
       (AUTHENTICATION_REQ (create_digest secret challenge) challenge :: START 0 :: rest)
       (Context_init f) kw (Some secret))
  = downlink_loop create_digest mrv1_to_mrv2 mrv2_to_mrv1 (S n)
      (after_handshake f kw secret (create_digest secret challenge) challenge
         (create_digest secret (create_digest secret challenge)) rest).
Proof.
  rewrite downlink_loop_S.
  assert (H1 : next_ create_digest mrv1_to_mrv2 mrv2_to_mrv1 (S (S n))
                 (BinaryProtocol_init
                    (AUTHENTICATION_REQ (create_digest secret challenge) challenge
                     :: START 0 :: rest)
                    (Context_init f) kw (Some secret))
               = (Val None,
                  with_auth_done
                    (with_trace
                       (BinaryProtocol_init (START 0 :: rest) (Context_init f) kw
                          (Some secret))
                       [EvRead (AUTHENTICATION_REQ (create_digest secret challenge)
                                  challenge);
                        EvUp (AUTHENTICATION_RESP
                                (create_digest secret (create_digest secret challenge)))])
                    true)).
  { cbn [next_]. unfold bind at 1. unfold read_command.
    cbn [stream BinaryProtocol_init]. unfold bind at 1. unfold gets at 1.
    cbn [negb andb opcode Z.eqb AUTHENTICATION_REQ_code Pos.eqb].
    unfold bind at 1. unfold verify_digest. unfold bind at 1. unfold bind at 1.
    unfold gets at 1. cbn [password BinaryProtocol_init with_trace with_stream].
    rewrite String.eqb_refl. reflexivity. }
  rewrite H1, downlink_loop_S.
  assert (H2 : next_ create_digest mrv1_to_mrv2 mrv2_to_mrv1 (S n)
                 (with_auth_done
                    (with_trace
                       (BinaryProtocol_init (START 0 :: rest) (Context_init f) kw
                          (Some secret))
                       [EvRead (AUTHENTICATION_REQ (create_digest secret challenge)
                                  challenge);
                        EvUp (AUTHENTICATION_RESP
                                (create_digest secret (create_digest secret challenge)))])
                    true)
               = (Val None,
                  after_handshake f kw secret (create_digest secret challenge) challenge
                    (create_digest secret (create_digest secret challenge)) rest)).
  { reflexivity. }
  rewrite H2. reflexivity.
Qed.

(** X23: a whole map session under [run_task] -- a good
    [AUTHENTICATION_REQ], [START] at version 0, [RUN_MAP] with host-piped
    input and at least one reducer, any number of [MAP_ITEM]s, [CLOSE] --
    returns normally, with [map] called once per item in order; the
    [AUTHENTICATION_RESP] is written right after the request is read,
    before [START] is; exactly one [DONE] is written, and writing it is
    the last thing the engine does. *)
Theorem map_session f kw secret challenge split n piped_input items rest fuel :
  rrclass f = None ->
  truthy piped_input = true ->
  (1 <= n)%Z ->
  (forall k v, In (k, v) items -> mapper_map (mclass f) k v = None) ->
  exists st' mid,
    run_task create_digest mrv1_to_mrv2 mrv2_to_mrv1 (List.length items + 5 + fuel)
      f kw (Some secret)
      (AUTHENTICATION_REQ (create_digest secret challenge) challenge
       :: START 0 :: RUN_MAP split n piped_input
       :: map MAP_ITEM_of items ++ CLOSE :: rest)
    = (Val tt, st')
    /\ stream st' = rest
    /\ trace st'
       = [EvRead (AUTHENTICATION_REQ (create_digest secret challenge) challenge);
          EvUp (AUTHENTICATION_RESP
                  (create_digest secret (create_digest secret challenge)));
          EvRead (START 0)]
         ++ mid ++ [EvUp DONE]
    /\ map_calls (trace st') = items
    /\ count_done (trace st') = 1.
Proof.
  intros Hrr Hp Hn Hmap. unfold run_task.
  replace (List.length items + 5 + fuel) with (S (S (S (List.length items + 2 + fuel))))
    by lia.
  rewrite handshake.
  replace (S (List.length items + 2 + fuel)) with (List.length items + 3 + fuel) by lia.
  destruct (downlink_loop_map_task create_digest mrv1_to_mrv2 mrv2_to_mrv1
              (after_handshake f kw secret (create_digest secret challenge) challenge
                 (create_digest secret (create_digest secret challenge))
                 (RUN_MAP split n piped_input :: map MAP_ITEM_of items ++ CLOSE :: rest))
              split n piped_input items rest fuel eq_refl eq_refl Hrr Hp)
    as [st' [evs [Hrun [Hs [Ht [Hevs [Hcalls Hdone]]]]]]].
  { intros H. lia. }
  { exact Hmap. }
  exists st'.
  exists (EvRead (RUN_MAP split n piped_input)
          :: flat_map read_and_map items
          ++ EvRead CLOSE
          :: map EvClose (closed_components (context st') teardown_order)).
  split; [exact Hrun|]. split; [exact Hs|].
  rewrite Ht. cbn [trace after_handshake with_auth_done with_trace].
  split; [|split].
  - rewrite Hevs. cbn [app]. rewrite <- !app_assoc. reflexivity.
  - cbn [app map_calls]. exact Hcalls.
  - unfold count_done in *. cbn [app filter is_done]. exact Hdone.
Qed.

(** X24: a whole reduce session under [run_task] -- a good
    [AUTHENTICATION_REQ], [START] at version 0, [RUN_REDUCE], any number
    of groups of one key and one or more values, [CLOSE] -- returns
    normally, with [reduce] called once per group with that group's
    values; the [AUTHENTICATION_RESP] is written right after the request
    is read, before [START] is; exactly one [DONE] is written, and writing
    it is the last thing the engine does. *)
Theorem reduce_session f kw secret challenge part piped_output gs rest r fuel :
  rclass f = Some r ->
  reads_all_values r ->
  is_some (rwclass f) = negb (truthy piped_output) ->
  exists st' mid,
    run_task create_digest mrv1_to_mrv2 mrv2_to_mrv1
      (2 * List.length (List.concat (map group_commands gs)) + 7 + fuel)
      f kw (Some secret)
      (AUTHENTICATION_REQ (create_digest secret challenge) challenge
       :: START 0 :: RUN_REDUCE part piped_output
       :: List.concat (map group_commands gs) ++ CLOSE :: rest)
    = (Val tt, st')
    /\ stream st' = rest
    /\ trace st'
       = [EvRead (AUTHENTICATION_REQ (create_digest secret challenge) challenge);
          EvUp (AUTHENTICATION_RESP
                  (create_digest secret (create_digest secret challenge)));
          EvRead (START 0)]
         ++ mid ++ [EvUp DONE]
    /\ reduce_calls (trace st') = map group_call gs
    /\ count_done (trace st') = 1.
Proof.
  intros Hr Hall Hw. unfold run_task.
  replace (2 * List.length (List.concat (map group_commands gs)) + 7 + fuel)
    with (S (S (S (S (2 * List.length (List.concat (map group_commands gs))
                      + 3 + fuel))))) by lia.
  rewrite handshake, downlink_loop_S.
  destruct (reduce_task_runs create_digest mrv1_to_mrv2 mrv2_to_mrv1
              (after_handshake f kw secret (create_digest secret challenge) challenge
                 (create_digest secret (create_digest secret challenge))
                 (RUN_REDUCE part piped_output
                  :: List.concat (map group_commands gs) ++ CLOSE :: rest))
              part piped_output (flat_map group_runs gs) rest r
              (S (2 * List.length (List.concat (map group_commands gs)) + 3 + fuel)))
    as [st' [evs [Hrun [Hs [_ [Ht [Hevs [Hcalls Hdone]]]]]]]];
    try assumption; try reflexivity.
  { cbn [stream after_handshake with_auth_done with_trace BinaryProtocol_init].
    rewrite group_runs_commands. reflexivity. }
  { apply alternating_group_runs. }
  { rewrite group_runs_commands. lia. }
  rewrite Hrun. exists st'.
  exists (EvRead (RUN_REDUCE part piped_output)
          :: reduce_events PyNone (flat_map group_runs gs)
          ++ EvRead CLOSE
          :: map EvClose (closed_components (context st') teardown_order)).
  split; [reflexivity|]. split; [exact Hs|].
  rewrite Ht. cbn [trace after_handshake with_auth_done with_trace].
  split; [|split].
  - rewrite Hevs. cbn [app]. rewrite <- !app_assoc. reflexivity.
  - cbn [app reduce_calls]. rewrite Hcalls. apply expected_group_calls.
  - unfold count_done in *. cbn [app filter is_done]. exact Hdone.
Qed.

End Sessions.

(** ** More concrete runs *)

Lemma reduce_task_groups_witness :
  exists st' evs,
    next_ sample_digest sample_mrv1_to_mrv2 sample_mrv2_to_mrv1 14
      (sample_state sample_factory None
         [RUN_REDUCE 0 1; REDUCE_KEY (PyBytes "k1"); REDUCE_VALUE (PyBytes "v1");
          REDUCE_VALUE (PyBytes "v2"); REDUCE_KEY (PyBytes "k2");
          REDUCE_VALUE (PyBytes "v3"); CLOSE])
    = (Exc StopIteration, st')
    /\ stream st' = []
    /\ trace st' = [] ++ evs
    /\ reduce_calls evs
       = [(PyBytes "k1", [PyBytes "v1"; PyBytes "v2"]); (PyBytes "k2", [PyBytes "v3"])]
    /\ count_done evs = 1.
Proof.
  apply (reduce_task_groups sample_digest sample_mrv1_to_mrv2 sample_mrv2_to_mrv1
           (sample_state sample_factory None
              [RUN_REDUCE 0 1; REDUCE_KEY (PyBytes "k1"); REDUCE_VALUE (PyBytes "v1");
               REDUCE_VALUE (PyBytes "v2"); REDUCE_KEY (PyBytes "k2");
               REDUCE_VALUE (PyBytes "v3"); CLOSE])
           0%Z 1%Z
           [(PyBytes "k1", PyBytes "v1", [PyBytes "v2"]); (PyBytes "k2", PyBytes "v3", [])]
           [] sample_reducer 14);
    try reflexivity.
  intros k seen. split; reflexivity.
Defined.

Lemma reduce_task_unread_values_witness :
  exists st' evs,
    next_ sample_digest sample_mrv1_to_mrv2 sample_mrv2_to_mrv1 14
      (sample_state sample_factory_idle None
         [RUN_REDUCE 0 1; REDUCE_KEY (PyBytes "k1"); REDUCE_VALUE (PyBytes "v1");
          REDUCE_VALUE (PyBytes "v2"); REDUCE_KEY (PyBytes "k2");
          REDUCE_VALUE (PyBytes "v3"); CLOSE])
    = (Exc StopIteration, st')
    /\ stream st' = []
    /\ trace st' = [] ++ evs
    /\ reduce_calls evs = [(PyBytes "k1", []); (PyBytes "k2", [])]
    /\ filter is_read evs
       = EvRead (RUN_REDUCE 0 1)
         :: map EvRead
              [REDUCE_KEY (PyBytes "k1"); REDUCE_VALUE (PyBytes "v1");
               REDUCE_VALUE (PyBytes "v2"); REDUCE_KEY (PyBytes "k2");
               REDUCE_VALUE (PyBytes "v3")]
         ++ [EvRead CLOSE]
    /\ count_done evs = 1.
Proof.
  apply (reduce_task_unread_values sample_digest sample_mrv1_to_mrv2 sample_mrv2_to_mrv1
           (sample_state sample_factory_idle None
              [RUN_REDUCE 0 1; REDUCE_KEY (PyBytes "k1"); REDUCE_VALUE (PyBytes "v1");
               REDUCE_VALUE (PyBytes "v2"); REDUCE_KEY (PyBytes "k2");
               REDUCE_VALUE (PyBytes "v3"); CLOSE])
           0%Z 1%Z
           [(PyBytes "k1", PyBytes "v1", [PyBytes "v2"]); (PyBytes "k2", PyBytes "v3", [])]
           [] sample_idle_reducer 14);
    try reflexivity.
  intros k. reflexivity.
Defined.


Lemma run_reduce_writer_mismatch_witness :
  exists msg,
    next_ sample_digest sample_mrv1_to_mrv2 sample_mrv2_to_mrv1 1
      (sample_state sample_factory None [RUN_REDUCE 0 0; CLOSE])
    = (Exc (RuntimeError msg),
       with_context
         (after_read (sample_state sample_factory None [RUN_REDUCE 0 0; CLOSE])
            (RUN_REDUCE 0 0) [CLOSE])
         (ctx_with_record_writer
            (ctx_with_reducer (Context_init sample_factory) (Some sample_reducer))
            None)).
Proof.
  apply (run_reduce_writer_mismatch sample_digest sample_mrv1_to_mrv2 sample_mrv2_to_mrv1
           (sample_state sample_factory None [RUN_REDUCE 0 0; CLOSE]) 0%Z 0%Z [CLOSE] 0);
    reflexivity.
Defined.

Lemma map_push_path_witness :
  exists st' evs,
    downlink_loop sample_digest sample_mrv1_to_mrv2 sample_mrv2_to_mrv1 5
      (sample_state sample_factory None
         [RUN_MAP PyNone 2 1; MAP_ITEM (PyBytes "k1") (PyBytes "v1");
          MAP_ITEM (PyBytes "k2") (PyBytes "v2"); CLOSE])
    = (Val tt, st')
    /\ stream st' = []
    /\ trace st' = [] ++ evs
    /\ evs = EvRead (RUN_MAP PyNone 2 1)
             :: flat_map read_and_map
                  [(PyBytes "k1", PyBytes "v1"); (PyBytes "k2", PyBytes "v2")]
             ++ EvRead CLOSE
             :: map EvClose (closed_components (context st') teardown_order)
             ++ [EvUp DONE]
    /\ map_calls evs = [(PyBytes "k1", PyBytes "v1"); (PyBytes "k2", PyBytes "v2")]
    /\ count_done evs = 1.
Proof.
  apply (map_push_path sample_digest sample_mrv1_to_mrv2 sample_mrv2_to_mrv1
           (sample_state sample_factory None
              [RUN_MAP PyNone 2 1; MAP_ITEM (PyBytes "k1") (PyBytes "v1");
               MAP_ITEM (PyBytes "k2") (PyBytes "v2"); CLOSE])
           PyNone 2%Z 1%Z
           [(PyBytes "k1", PyBytes "v1"); (PyBytes "k2", PyBytes "v2")] [] 0);
    try reflexivity.
  intros H. discriminate H.
Defined.

Lemma map_failure_pull_path_witness :
  exists st' evs,
    downlink_loop sample_digest sample_mrv1_to_mrv2 sample_mrv2_to_mrv1 2
      (sample_state sample_factory_failing_reader None [RUN_MAP PyNone 2 0; CLOSE])
    = (Exc (UserError "bad record"), st')
    /\ stream st' = [CLOSE]
    /\ trace st' = [] ++ evs
    /\ map_calls evs = [(PyBytes "k1", PyBytes "v1")] ++ [(PyBytes "bad", PyBytes "v2")]
    /\ no_teardown evs.
Proof.
  apply (map_failure_pull_path sample_digest sample_mrv1_to_mrv2 sample_mrv2_to_mrv1
           (sample_state sample_factory_failing_reader None [RUN_MAP PyNone 2 0; CLOSE])
           PyNone 2%Z 0%Z [CLOSE] sample_failing_reader
           [(PyBytes "k1", PyBytes "v1")] (PyBytes "bad") (PyBytes "v2")
           [(PyBytes "k3", PyBytes "v3")] (UserError "bad record") 0);
    try reflexivity.
  - intros H. discriminate H.
  - intros k' v' [[= <- <-]|[]]. reflexivity.
  - discriminate.
Defined.

Lemma map_failure_push_path_witness :
  exists st' evs,
    downlink_loop sample_digest sample_mrv1_to_mrv2 sample_mrv2_to_mrv1 4
      (sample_state sample_factory_failing None
         [RUN_MAP PyNone 2 1; MAP_ITEM (PyBytes "k1") (PyBytes "v1");
          MAP_ITEM (PyBytes "bad") (PyBytes "v2"); CLOSE])
    = (Exc (UserError "bad record"), st')
    /\ stream st' = [CLOSE]
    /\ trace st' = [] ++ evs
    /\ map_calls evs = [(PyBytes "k1", PyBytes "v1")] ++ [(PyBytes "bad", PyBytes "v2")]
    /\ no_teardown evs.
Proof.
  apply (map_failure_push_path sample_digest sample_mrv1_to_mrv2 sample_mrv2_to_mrv1
           (sample_state sample_factory_failing None
              [RUN_MAP PyNone 2 1; MAP_ITEM (PyBytes "k1") (PyBytes "v1");
               MAP_ITEM (PyBytes "bad") (PyBytes "v2"); CLOSE])
           PyNone 2%Z 1%Z [(PyBytes "k1", PyBytes "v1")] (PyBytes "bad") (PyBytes "v2")
           [CLOSE] (UserError "bad record") 0);
    try reflexivity.
  - intros H. discriminate H.
  - intros k' v' [[= <- <-]|[]]. reflexivity.
  - discriminate.
Defined.

Lemma run_map_reader_mismatch_witness :
  exists msg,
    next_ sample_digest sample_mrv1_to_mrv2 sample_mrv2_to_mrv1 1
      (sample_state sample_factory None [RUN_MAP PyNone 2 0; CLOSE])
    = (Exc (RuntimeError msg),
       with_context
         (after_read (sample_state sample_factory None [RUN_MAP PyNone 2 0; CLOSE])
            (RUN_MAP PyNone 2 0) [CLOSE])
         (ctx_with_record_reader
            (ctx_with_input_split (Context_init sample_factory) PyNone) None)).
Proof.
  apply (run_map_reader_mismatch sample_digest sample_mrv1_to_mrv2 sample_mrv2_to_mrv1
           (sample_state sample_factory None [RUN_MAP PyNone 2 0; CLOSE])
           PyNone 2%Z 0%Z [CLOSE] 0);
    reflexivity.
Defined.

Lemma map_only_needs_job_conf_witness :
  exists e st',
    next_ sample_digest sample_mrv1_to_mrv2 sample_mrv2_to_mrv1 1
      (sample_state sample_factory None [RUN_MAP PyNone 0 1])
    = (Exc e, st')
    /\ mapper (context st') = None
    /\ trace st' = [] ++ [EvRead (RUN_MAP PyNone 0 1)]
    /\ (is_some (rrclass sample_factory) = negb (truthy 1) ->
        e = AttributeError "'dict' object has no attribute 'get_bool'").
Proof.
  apply (map_only_needs_job_conf sample_digest sample_mrv1_to_mrv2 sample_mrv2_to_mrv1
           (sample_state sample_factory None [RUN_MAP PyNone 0 1]) PyNone 0%Z 1%Z [] 0);
    reflexivity.
Defined.

Lemma unauthenticated_command_refused_witness :
  exists msg,
    run_task sample_digest sample_mrv1_to_mrv2 sample_mrv2_to_mrv1 2
      sample_factory default_kwargs (Some "secret") [START 0; RUN_MAP PyNone 2 1]
    = (Exc (RuntimeError msg),
       with_trace
         (BinaryProtocol_init [RUN_MAP PyNone 2 1] (Context_init sample_factory)
            default_kwargs (Some "secret"))
         [EvRead (START 0)]).
Proof.
  apply (unauthenticated_command_refused sample_digest sample_mrv1_to_mrv2
           sample_mrv2_to_mrv1 0 sample_factory default_kwargs (Some "secret")
           (START 0) [RUN_MAP PyNone 2 1]).
  simpl. discriminate.
Defined.

Lemma authentication_without_password_witness :
  let st := BinaryProtocol_init [AUTHENTICATION_REQ "anything" "challenge"]
              (Context_init sample_factory) default_kwargs None in
  next_ sample_digest sample_mrv1_to_mrv2 sample_mrv2_to_mrv1 1 st
  = (Val None,
     with_auth_done
       (after_read st (AUTHENTICATION_REQ "anything" "challenge") []) true).
Proof.
  intros st.
  exact (authentication_without_password sample_digest sample_mrv1_to_mrv2
           sample_mrv2_to_mrv1 st "anything" "challenge" [] 0 eq_refl eq_refl).
Defined.

Lemma start_checks_version_witness :
  let st := sample_state sample_factory None [START 1; CLOSE] in
  exists msg,
    next_ sample_digest sample_mrv1_to_mrv2 sample_mrv2_to_mrv1 1 st
    = (Exc (RuntimeError msg), after_read st (START 1) [CLOSE]).
Proof.
  intros st.
  apply (proj2 (start_checks_version sample_digest sample_mrv1_to_mrv2 sample_mrv2_to_mrv1
                  st 1%Z [CLOSE] 0 eq_refl eq_refl)).
  discriminate.
Defined.


Lemma set_job_conf_is_fatal_witness :
  let st := sample_state sample_factory None
              [SET_JOB_CONF [IS_JAVA_RW; "true"]; RUN_MAP PyNone 0 1] in
  downlink_loop sample_digest sample_mrv1_to_mrv2 sample_mrv2_to_mrv1 2 st
  = (Exc (TypeError "object of type 'generator' has no len()"),
     after_read st (SET_JOB_CONF [IS_JAVA_RW; "true"]) [RUN_MAP PyNone 0 1]).
Proof.
  intros st.
  exact (set_job_conf_is_fatal sample_digest sample_mrv1_to_mrv2 sample_mrv2_to_mrv1
           st [IS_JAVA_RW; "true"] [RUN_MAP PyNone 0 1] 0 eq_refl eq_refl).
Defined.

Lemma job_conf_never_set_witness :
  let res := run_task sample_digest sample_mrv1_to_mrv2 sample_mrv2_to_mrv1 20
               sample_factory default_kwargs None
               [AUTHENTICATION_REQ "d" "c"; START 0; RUN_MAP PyNone 2 1;
                MAP_ITEM (PyBytes "k1") (PyBytes "v1"); CLOSE] in
  job_conf (context (snd res)) = None.
Proof.
  intros res.
  exact (job_conf_never_set sample_digest sample_mrv1_to_mrv2 sample_mrv2_to_mrv1 20
           sample_factory default_kwargs None
           [AUTHENTICATION_REQ "d" "c"; START 0; RUN_MAP PyNone 2 1;
            MAP_ITEM (PyBytes "k1") (PyBytes "v1"); CLOSE]
           (fst res) (snd res) (surjective_pairing res)).
Defined.

Lemma no_teardown_before_close_witness :
  let res := run_task sample_digest sample_mrv1_to_mrv2 sample_mrv2_to_mrv1 20
               sample_factory default_kwargs None
               [AUTHENTICATION_REQ "d" "c"; START 0; RUN_MAP PyNone 2 1;
                MAP_ITEM (PyBytes "k1") (PyBytes "v1")] in
  no_teardown (trace (snd res)).
Proof.
  intros res.
  apply (no_teardown_before_close sample_digest sample_mrv1_to_mrv2 sample_mrv2_to_mrv1
           20 sample_factory default_kwargs None
           [AUTHENTICATION_REQ "d" "c"; START 0; RUN_MAP PyNone 2 1;
            MAP_ITEM (PyBytes "k1") (PyBytes "v1")]
           (fst res) (snd res) (surjective_pairing res) eq_refl).
  vm_compute. intros H. repeat (destruct H as [H|H]; [discriminate H|]). exact H.
Defined.

Lemma JobConf_init_mirrors_witness :
  exists jc,
    JobConf_init sample_mrv1_to_mrv2 sample_mrv2_to_mrv1 ["mapred.job.name"; "wordcount"]
    = Ok jc
    /\ PyDict.get "mapred.job.name" jc = Some "wordcount"
    /\ PyDict.get "mapreduce.job.name" jc = Some "wordcount".
Proof.
  destruct (JobConf_init_mirrors sample_mrv1_to_mrv2 sample_mrv2_to_mrv1
              ["mapred.job.name"; "wordcount"] "mapred.job.name" "wordcount"
              "mapreduce.job.name" eq_refl eq_refl (or_introl eq_refl))
    as [jc [H1 [H2 [_ [_ H5]]]]].
  exists jc. split; [exact H1|]. split; [exact H2|].
  apply H5; [reflexivity|].
  intros k' [<-|[]] _. reflexivity.
Defined.

Lemma emit_in_map_task_witness :
  exists st',
    next_ sample_digest sample_mrv1_to_mrv2 sample_mrv2_to_mrv1 1
      (sample_state sample_factory None [RUN_MAP PyNone 2 1]) = (Val None, st')
    /\ Context_emit sample_dumps sample_encode_text sample_writer_emit
         sample_partition_without_count (PyBytes "k") (PyBytes "v") st'
       = (Val tt,
          with_trace st'
            (trace st'
             ++ [EvUp (PARTITIONED_OUTPUT 0 (PyBytes "pickled:k") (PyBytes "pickled:v"))])).
Proof.
  apply (emit_in_map_task sample_digest sample_mrv1_to_mrv2 sample_mrv2_to_mrv1
           sample_dumps sample_encode_text sample_writer_emit
           sample_partition_without_count
           (sample_state sample_factory None [RUN_MAP PyNone 2 1])
           PyNone 2%Z 1%Z [] 0 (PyBytes "k") (PyBytes "v"));
    try reflexivity.
  intros H. discriminate H.
Defined.

Lemma emit_in_reduce_task_witness :
  let st := sample_state sample_factory None [] in
  Context_emit sample_dumps sample_encode_text sample_writer_emit
    sample_partition_without_count PyNone (PyBytes "v") (reduce_ready st)
  = (Val tt,
     with_trace (reduce_ready st)
       (trace (reduce_ready st) ++ [EvUp (OUTPUT (PyBytes "None") (PyBytes "v"))])).
Proof.
  intros st.
  exact (proj2 (emit_in_reduce_task sample_dumps sample_encode_text sample_writer_emit
                  sample_partition_without_count (ret None) 0 st 0%Z 1%Z
                  PyNone (PyBytes "v") eq_refl eq_refl eq_refl)).
Defined.

(** The default work file of a map task, and the error when the partition
    number is not in the configuration. *)
Example work_file_of_a_map_task :
  let conf := [(TASK_OUTPUT_DIR, "/tmp/out"); (TASK_PARTITION, "3")] in
  let ctx := ctx_with_mapper
               (ctx_with_job_conf (Context_init sample_factory) (Some conf))
               (Some sample_mapper) in
  Context_get_default_work_file sample_int_of_str ctx ".gz"
  = Got "/tmp/out/part-m-00003.gz"
  /\ Context_get_default_work_file sample_int_of_str
       (ctx_with_job_conf ctx (Some [(TASK_OUTPUT_DIR, "/tmp/out")])) ""
     = Failed (Known (TypeError "int() argument must be a string or a number"))
  /\ Context_get_default_work_file sample_int_of_str
       (ctx_with_job_conf ctx (Some [(TASK_PARTITION, "3")])) ""
     = Failed (Known (RuntimeError "'mapreduce.task.output.dir' not set")).
Proof. repeat split. Qed.

Lemma work_file_errors_witness :
  exists msg,
    Context_get_default_work_file sample_int_of_str
      (ctx_with_job_conf (Context_init sample_factory)
         (Some [(TASK_OUTPUT_DIR, "/tmp/out")])) ".gz"
    = Failed (Known (TypeError msg)).
Proof.
  apply (proj2 (work_file_errors sample_int_of_str
                  (ctx_with_job_conf (Context_init sample_factory)
                     (Some [(TASK_OUTPUT_DIR, "/tmp/out")])) ".gz")
               [(TASK_OUTPUT_DIR, "/tmp/out")] eq_refl eq_refl).
Defined.

Lemma map_session_witness :
  exists st' mid,
    run_task sample_digest sample_mrv1_to_mrv2 sample_mrv2_to_mrv1 7
      sample_factory default_kwargs (Some "secret")
      (AUTHENTICATION_REQ (sample_digest "secret" "challenge") "challenge"
       :: START 0 :: RUN_MAP PyNone 2 1
       :: [MAP_ITEM (PyBytes "k1") (PyBytes "v1"); MAP_ITEM (PyBytes "k2") (PyBytes "v2")]
       ++ [CLOSE])
    = (Val tt, st')
    /\ stream st' = []
    /\ trace st'
       = [EvRead (AUTHENTICATION_REQ (sample_digest "secret" "challenge") "challenge");
          EvUp (AUTHENTICATION_RESP
                  (sample_digest "secret" (sample_digest "secret" "challenge")));
          EvRead (START 0)]
         ++ mid ++ [EvUp DONE]
    /\ map_calls (trace st')
       = [(PyBytes "k1", PyBytes "v1"); (PyBytes "k2", PyBytes "v2")]
    /\ count_done (trace st') = 1.
Proof.
  apply (map_session sample_digest sample_mrv1_to_mrv2 sample_mrv2_to_mrv1
           sample_factory default_kwargs "secret" "challenge" PyNone 2%Z 1%Z
           [(PyBytes "k1", PyBytes "v1"); (PyBytes "k2", PyBytes "v2")] [] 0);
    try reflexivity.
  intros H. discriminate H.
Defined.

Lemma reduce_session_witness :
  exists st' mid,
    run_task sample_digest sample_mrv1_to_mrv2 sample_mrv2_to_mrv1 17
      sample_factory default_kwargs (Some "secret")
      (AUTHENTICATION_REQ (sample_digest "secret" "challenge") "challenge"
       :: START 0 :: RUN_REDUCE 0 1
       :: [REDUCE_KEY (PyBytes "k1"); REDUCE_VALUE (PyBytes "v1");
           REDUCE_VALUE (PyBytes "v2"); REDUCE_KEY (PyBytes "k2");
           REDUCE_VALUE (PyBytes "v3")]
       ++ [CLOSE])
    = (Val tt, st')
    /\ stream st' = []
    /\ trace st'
       = [EvRead (AUTHENTICATION_REQ (sample_digest "secret" "challenge") "challenge");
          EvUp (AUTHENTICATION_RESP
                  (sample_digest "secret" (sample_digest "secret" "challenge")));
          EvRead (START 0)]
         ++ mid ++ [EvUp DONE]
    /\ reduce_calls (trace st')
       = [(PyBytes "k1", [PyBytes "v1"; PyBytes "v2"]); (PyBytes "k2", [PyBytes "v3"])]
    /\ count_done (trace st') = 1.
Proof.
  apply (reduce_session sample_digest sample_mrv1_to_mrv2 sample_mrv2_to_mrv1
           sample_factory default_kwargs "secret" "challenge" 0%Z 1%Z
           [(PyBytes "k1", PyBytes "v1", [PyBytes "v2"]); (PyBytes "k2", PyBytes "v3", [])]
           [] sample_reducer 0);
    try reflexivity.
  intros k seen. split; reflexivity.
Defined.
